(** * BMS watcher: the task watch orchestrator

    A shallow embedding of [server/watcherManager.js] (the [WatcherManager]
    class), of the parts of [server/watcher.js] the manager drives, of the
    task routes of [server/index.js] and of [server/storage.js].

    JavaScript runs one callback at a time.  An [async] function runs until
    an [await] on a browser operation or a timer, hands control back, and is
    resumed later.  The model follows that: every piece of code between two
    suspension points is one function on the manager state, a suspended
    function is a [Cont] value kept in [pending], and the event loop is the
    function [step], whose labels are the things that can happen next (a
    request, a timer, a detector signal, the resumption of a pending
    continuation with the outcome of what it waited for).

    Task and watcher objects are shared by reference in the source (the
    [tasks] array, the closure of every monitor, every suspended function),
    so they live in two heaps, [theap] and [wheap], and everything else
    holds indices into them.  Browsers and their contexts are numbered
    as they are opened; [this.browser] names one browser, and each start
    made while there is none launches its own.  Logging and the alarm
    sound of the server are not modelled.  The outer [catch] branches of
    [stopTask], [deleteTask] and [reloadTask] have no counterpart: what
    they guard
    ([Watcher.stop], [_saveTasksToFileImmediate], [_broadcast],
    [stopAllWatchers], [restartAllWatchers]) catches its own errors. *)

From Stdlib Require Import String Ascii List ZArith NArith Lia Bool
  DecimalString.
From stdpp Require Import base list strings gmap.

Local Open Scope string_scope.
Local Open Scope list_scope.

(** ** JavaScript values of the fields *)

(** A string-valued field that may be [null] or missing. *)
Definition truthy (x : option string) : bool :=
  match x with
  | Some v => negb (String.eqb v "")
  | None => false
  end.

(** [x || null] *)
Definition orNull (x : option string) : option string :=
  if truthy x then x else None.

(** [a || b] on such fields. *)
Definition orElse (a b : option string) : option string :=
  if truthy a then a else b.

(** Decimal rendering of a number inside a template string. *)
Definition dec (n : N) : string := NilZero.string_of_uint (N.to_uint n).

(** ** Tasks, watchers, events *)

(** The persisted fields of a task: everything but the live [watcher]. *)
Record TaskData := mkTaskData {
  id : string;
  location : option string;
  cinemaName : option string;
  cinemaUrl : option string;
  identifier : string;
  status : string;
  createdAt : N;
  href : option string;
  foundHref : option string;
  bookingSettings : option string
}.

(** A task object; [watcher] is a reference into the watcher heap. *)
Record Task := mkTask {
  data : TaskData;
  watcher : option nat
}.

(** The fields of a [Watcher] (watcher.js) the manager reads or resets.
    [page] stands for the pair page/context, which are set and cleared
    together; its value names the browser context. *)
Record Watcher := mkWatcher {
  running : bool;
  found : bool;
  w_foundHref : option string;
  page : option nat;
  reloadTimer : bool;
  rotateTimer : bool
}.

#[global] Instance TaskData_eq_dec : EqDecision TaskData.
Proof. solve_decision. Defined.

Definition set_status (v : string) (d : TaskData) : TaskData :=
  {| id := id d; location := location d; cinemaName := cinemaName d;
     cinemaUrl := cinemaUrl d; identifier := identifier d; status := v;
     createdAt := createdAt d; href := href d; foundHref := foundHref d;
     bookingSettings := bookingSettings d |}.

Definition set_foundHref (v : option string) (d : TaskData) : TaskData :=
  {| id := id d; location := location d; cinemaName := cinemaName d;
     cinemaUrl := cinemaUrl d; identifier := identifier d; status := status d;
     createdAt := createdAt d; href := href d; foundHref := v;
     bookingSettings := bookingSettings d |}.

Definition on_data (f : TaskData -> TaskData) (t : Task) : Task :=
  {| data := f (data t); watcher := watcher t |}.

Definition set_watcher (v : option nat) (t : Task) : Task :=
  {| data := data t; watcher := v |}.

(** [safeTaskView]: the projection handed to clients.  The [watcher] handle
    is not part of it. *)
Definition safeTaskView (task : Task) : TaskData :=
  let d := data task in
  {| id := id d; location := location d; cinemaName := cinemaName d;
     cinemaUrl := cinemaUrl d; identifier := identifier d; status := status d;
     createdAt := createdAt d; href := orNull (href d);
     foundHref := orNull (foundHref d);
     bookingSettings := orNull (bookingSettings d) |}.

(** The objects passed to [_broadcast]. *)
Inductive Event :=
| EvTaskCreated (task : TaskData)
| EvTaskStarted (task : TaskData)
| EvTaskError (tid : string) (message : string)
| EvStopped (tid : string) (task : TaskData)
| EvDeleted (tid : string)
| EvReloaded (tid : string) (task : TaskData)
| EvFound (task : TaskData)
| EvAlarmStarted (tid : string) (ident : string)
| EvResumed (tid : string) (task : TaskData).

(** What a caller of the manager gets back. *)
Inductive Reply :=
| HttpCreated (tid : string)          (* POST /api/tasks: { ok: true, id } *)
| HttpBadRequest (message : string)   (* POST /api/tasks: status 400 *)
| StopReturned (tid : string) (ok : bool)
| DeleteReturned (tid : string) (ok : bool)
| ReloadReturned (tid : string) (ok : bool)
| ShutdownReturned.

(** The effects of the manager that leave the process, in order. *)
Inductive Obs :=
| Broadcast (e : Event)
| Automation (t : nat)                          (* bookingAutomationFn(task) *)
| FsWrite (path : string) (json : list TaskData) (* fs.writeFileSync *)
| Returned (r : Reply).

(** ** Suspended functions *)

(** Who is waiting for [_startTaskWatcher]. *)
Inductive StartCaller :=
| FromCreate                                (* the closure in createTask *)
| FromResume                                (* _resumeTaskWatcher *)
| FromRestart (rid : string) (t0 : nat) (rest : list nat).
                                            (* the loop of restartAllWatchers *)

Inductive Cont :=
| KStartStopOld (t w : nat) (c : StartCaller) (* stop of the old watcher *)
| KLaunch (t w : nat) (c : StartCaller)       (* start(), chromium.launch() *)
| KStart (t w : nat) (c : StartCaller) (b : nat)
                                              (* watcher.start(), on browser b *)
| KStop (tid : string) (t w : nat)            (* stopTask, watcher.stop() *)
| KDelete (tid : string) (idx t w : nat)      (* deleteTask, watcher.stop() *)
| KStopAll (rid : string) (t0 : nat) (items : list (nat * nat))
                                              (* stopAllWatchers, Promise.all *)
| KReloadDelay (rid : string) (t0 : nat)      (* reloadTask, 250 ms *)
| KRestartDelay (rid : string) (t0 : nat) (rest : list nat)
                                              (* restartAllWatchers, 400 ms *)
| KFoundEval (t : nat)                        (* monitor, page.evaluate *)
| KFoundStop (t w : nat)                      (* monitor, watcher.stop() *)
| KShutdown (i t w : nat)                     (* shutdown, watcher.stop() *)
| KShutdownClose.                             (* shutdown, browser.close() *)

(** What a suspended function is resumed with.  A launch that rejects
    makes the start reject before a page is attached. *)
Inductive Outcome :=
| Resolved                                        (* a stop, a close, a delay *)
| Launched                                        (* chromium.launch() resolved *)
| StartOk                                         (* watcher.start() resolved *)
| StartFailed (attached : bool) (message : string) (* watcher.start() rejected *)
| Item (j : nat)                                  (* one promise of Promise.all *)
| Evaluated (maybe : option string).              (* page.evaluate, null on error *)

(** ** The manager *)

Record State := mkState {
  maxPages : nat;
  tasksFile : option string;
  automation : bool;              (* bookingAutomationFn is a function *)
  diskOk : bool;                  (* fs.writeFileSync succeeds *)
  browser : option nat;           (* this.browser *)
  nextBrowser : nat;              (* the browsers launched so far *)
  contexts : list nat;            (* browser contexts that are open *)
  nextCtx : nat;
  contextBrowser : list nat;      (* the browser of each context, by number *)
  tasks : list nat;               (* this.tasks, references into theap *)
  theap : list Task;
  wheap : list Watcher;
  monitors : list (nat * nat);    (* live setInterval monitors: id, task *)
  nextMonitor : nat;
  saveTimer : bool;               (* a _saveTimer timeout is pending *)
  lastSavedJson : option (list TaskData);
  trace : list Obs;
  pending : list Cont
}.

Definition set_diskOk (v : bool) (s : State) : State :=
  {| maxPages := maxPages s; tasksFile := tasksFile s;
     automation := automation s; diskOk := v; browser := browser s;
     nextBrowser := nextBrowser s; contexts := contexts s;
     nextCtx := nextCtx s; contextBrowser := contextBrowser s;
     tasks := tasks s; theap := theap s; wheap := wheap s;
     monitors := monitors s; nextMonitor := nextMonitor s;
     saveTimer := saveTimer s; lastSavedJson := lastSavedJson s;
     trace := trace s; pending := pending s |}.

Definition set_browser (v : option nat) (s : State) : State :=
  {| maxPages := maxPages s; tasksFile := tasksFile s;
     automation := automation s; diskOk := diskOk s; browser := v;
     nextBrowser := nextBrowser s; contexts := contexts s;
     nextCtx := nextCtx s; contextBrowser := contextBrowser s;
     tasks := tasks s; theap := theap s; wheap := wheap s;
     monitors := monitors s; nextMonitor := nextMonitor s;
     saveTimer := saveTimer s; lastSavedJson := lastSavedJson s;
     trace := trace s; pending := pending s |}.

Definition set_nextBrowser (v : nat) (s : State) : State :=
  {| maxPages := maxPages s; tasksFile := tasksFile s;
     automation := automation s; diskOk := diskOk s; browser := browser s;
     nextBrowser := v; contexts := contexts s; nextCtx := nextCtx s;
     contextBrowser := contextBrowser s; tasks := tasks s; theap := theap s;
     wheap := wheap s; monitors := monitors s; nextMonitor := nextMonitor s;
     saveTimer := saveTimer s; lastSavedJson := lastSavedJson s;
     trace := trace s; pending := pending s |}.

Definition set_contexts (v : list nat) (s : State) : State :=
  {| maxPages := maxPages s; tasksFile := tasksFile s;
     automation := automation s; diskOk := diskOk s; browser := browser s;
     nextBrowser := nextBrowser s; contexts := v; nextCtx := nextCtx s;
     contextBrowser := contextBrowser s; tasks := tasks s; theap := theap s;
     wheap := wheap s; monitors := monitors s; nextMonitor := nextMonitor s;
     saveTimer := saveTimer s; lastSavedJson := lastSavedJson s;
     trace := trace s; pending := pending s |}.

Definition set_nextCtx (v : nat) (s : State) : State :=
  {| maxPages := maxPages s; tasksFile := tasksFile s;
     automation := automation s; diskOk := diskOk s; browser := browser s;
     nextBrowser := nextBrowser s; contexts := contexts s; nextCtx := v;
     contextBrowser := contextBrowser s; tasks := tasks s; theap := theap s;
     wheap := wheap s; monitors := monitors s; nextMonitor := nextMonitor s;
     saveTimer := saveTimer s; lastSavedJson := lastSavedJson s;
     trace := trace s; pending := pending s |}.

Definition set_contextBrowser (v : list nat) (s : State) : State :=
  {| maxPages := maxPages s; tasksFile := tasksFile s;
     automation := automation s; diskOk := diskOk s; browser := browser s;
     nextBrowser := nextBrowser s; contexts := contexts s;
     nextCtx := nextCtx s; contextBrowser := v; tasks := tasks s;
     theap := theap s; wheap := wheap s; monitors := monitors s;
     nextMonitor := nextMonitor s; saveTimer := saveTimer s;
     lastSavedJson := lastSavedJson s; trace := trace s;
     pending := pending s |}.

Definition set_tasks (v : list nat) (s : State) : State :=
  {| maxPages := maxPages s; tasksFile := tasksFile s;
     automation := automation s; diskOk := diskOk s; browser := browser s;
     nextBrowser := nextBrowser s; contexts := contexts s;
     nextCtx := nextCtx s; contextBrowser := contextBrowser s; tasks := v;
     theap := theap s; wheap := wheap s; monitors := monitors s;
     nextMonitor := nextMonitor s; saveTimer := saveTimer s;
     lastSavedJson := lastSavedJson s; trace := trace s;
     pending := pending s |}.

Definition set_theap (v : list Task) (s : State) : State :=
  {| maxPages := maxPages s; tasksFile := tasksFile s;
     automation := automation s; diskOk := diskOk s; browser := browser s;
     nextBrowser := nextBrowser s; contexts := contexts s;
     nextCtx := nextCtx s; contextBrowser := contextBrowser s;
     tasks := tasks s; theap := v; wheap := wheap s; monitors := monitors s;
     nextMonitor := nextMonitor s; saveTimer := saveTimer s;
     lastSavedJson := lastSavedJson s; trace := trace s;
     pending := pending s |}.

Definition set_wheap (v : list Watcher) (s : State) : State :=
  {| maxPages := maxPages s; tasksFile := tasksFile s;
     automation := automation s; diskOk := diskOk s; browser := browser s;
     nextBrowser := nextBrowser s; contexts := contexts s;
     nextCtx := nextCtx s; contextBrowser := contextBrowser s;
     tasks := tasks s; theap := theap s; wheap := v; monitors := monitors s;
     nextMonitor := nextMonitor s; saveTimer := saveTimer s;
     lastSavedJson := lastSavedJson s; trace := trace s;
     pending := pending s |}.

Definition set_monitors (v : list (nat * nat)) (s : State) : State :=
  {| maxPages := maxPages s; tasksFile := tasksFile s;
     automation := automation s; diskOk := diskOk s; browser := browser s;
     nextBrowser := nextBrowser s; contexts := contexts s;
     nextCtx := nextCtx s; contextBrowser := contextBrowser s;
     tasks := tasks s; theap := theap s; wheap := wheap s; monitors := v;
     nextMonitor := nextMonitor s; saveTimer := saveTimer s;
     lastSavedJson := lastSavedJson s; trace := trace s;
     pending := pending s |}.

Definition set_nextMonitor (v : nat) (s : State) : State :=
  {| maxPages := maxPages s; tasksFile := tasksFile s;
     automation := automation s; diskOk := diskOk s; browser := browser s;
     nextBrowser := nextBrowser s; contexts := contexts s;
     nextCtx := nextCtx s; contextBrowser := contextBrowser s;
     tasks := tasks s; theap := theap s; wheap := wheap s;
     monitors := monitors s; nextMonitor := v; saveTimer := saveTimer s;
     lastSavedJson := lastSavedJson s; trace := trace s;
     pending := pending s |}.

Definition set_saveTimer (v : bool) (s : State) : State :=
  {| maxPages := maxPages s; tasksFile := tasksFile s;
     automation := automation s; diskOk := diskOk s; browser := browser s;
     nextBrowser := nextBrowser s; contexts := contexts s;
     nextCtx := nextCtx s; contextBrowser := contextBrowser s;
     tasks := tasks s; theap := theap s; wheap := wheap s;
     monitors := monitors s; nextMonitor := nextMonitor s; saveTimer := v;
     lastSavedJson := lastSavedJson s; trace := trace s;
     pending := pending s |}.

Definition set_lastSavedJson (v : option (list TaskData)) (s : State)
  : State :=
  {| maxPages := maxPages s; tasksFile := tasksFile s;
     automation := automation s; diskOk := diskOk s; browser := browser s;
     nextBrowser := nextBrowser s; contexts := contexts s;
     nextCtx := nextCtx s; contextBrowser := contextBrowser s;
     tasks := tasks s; theap := theap s; wheap := wheap s;
     monitors := monitors s; nextMonitor := nextMonitor s;
     saveTimer := saveTimer s; lastSavedJson := v; trace := trace s;
     pending := pending s |}.

Definition set_trace (v : list Obs) (s : State) : State :=
  {| maxPages := maxPages s; tasksFile := tasksFile s;
     automation := automation s; diskOk := diskOk s; browser := browser s;
     nextBrowser := nextBrowser s; contexts := contexts s;
     nextCtx := nextCtx s; contextBrowser := contextBrowser s;
     tasks := tasks s; theap := theap s; wheap := wheap s;
     monitors := monitors s; nextMonitor := nextMonitor s;
     saveTimer := saveTimer s; lastSavedJson := lastSavedJson s; trace := v;
     pending := pending s |}.

Definition set_pending (v : list Cont) (s : State) : State :=
  {| maxPages := maxPages s; tasksFile := tasksFile s;
     automation := automation s; diskOk := diskOk s; browser := browser s;
     nextBrowser := nextBrowser s; contexts := contexts s;
     nextCtx := nextCtx s; contextBrowser := contextBrowser s;
     tasks := tasks s; theap := theap s; wheap := wheap s;
     monitors := monitors s; nextMonitor := nextMonitor s;
     saveTimer := saveTimer s; lastSavedJson := lastSavedJson s;
     trace := trace s; pending := v |}.

(** ** Small helpers *)

Definition log (o : Obs) (s : State) : State := set_trace (trace s ++ [o]) s.

Definition suspend (k : Cont) (s : State) : State :=
  set_pending (pending s ++ [k]) s.

Definition updTask (t : nat) (f : Task -> Task) (s : State) : State :=
  set_theap (alter f t (theap s)) s.

Definition updWatcher (w : nat) (f : Watcher -> Watcher) (s : State) : State :=
  set_wheap (alter f w (wheap s)) s.

Definition setStatus (t : nat) (v : string) (s : State) : State :=
  updTask t (on_data (set_status v)) s.

Definition watcherOf (s : State) (t : nat) : option nat :=
  match theap s !! t with
  | Some task => watcher task
  | None => None
  end.

Definition statusOf (s : State) (t : nat) : string :=
  match theap s !! t with
  | Some task => status (data task)
  | None => ""
  end.

Definition idOf (s : State) (t : nat) : option string :=
  match theap s !! t with
  | Some task => Some (id (data task))
  | None => None
  end.

(** [this.tasks.find(x => x.id === id)] and [findIndex], in one: the first
    position whose task has that id, and the task. *)
Definition findTask (tid : string) (s : State) : option (nat * nat) :=
  list_find (fun t => idOf s t = Some tid) (tasks s).

(** ** Persistence (watcherManager.js) *)

(** [this.tasks.map(({ watcher, ...rest }) => rest)]; the JSON text is
    represented by the value it encodes. *)
Definition toSave (s : State) : list TaskData :=
  omap (fun t => match theap s !! t with
                 | Some task => Some (data task)
                 | None => None
                 end) (tasks s).

Definition _saveTasksToFileImmediate (s : State) : State :=
  match tasksFile s with
  | None => s
  | Some path =>
      let json := toSave s in
      if decide (lastSavedJson s = Some json) then s
      else if diskOk s
           then set_lastSavedJson (Some json) (log (FsWrite path json) s)
           else s
  end.

(** [clearTimeout] of the pending timer, then a new [setTimeout]: one timer
    is pending afterwards, whatever was pending before. *)
Definition _saveTasksToFile (s : State) : State :=
  match tasksFile s with
  | None => s
  | Some _ => set_saveTimer true s
  end.

(** The timer callback of [_saveTasksToFile]. *)
Definition saveTimerFires (s : State) : option State :=
  if saveTimer s
  then Some (_saveTasksToFileImmediate (set_saveTimer false s))
  else None.

(** ** Broadcasting, as seen from the manager

    Here only the fact that an event went out is kept; what the
    subscribers receive is the subject of [Module Broadcaster]. *)
Definition _broadcast (e : Event) (s : State) : State := log (Broadcast e) s.

Definition broadcastView (mk : TaskData -> Event) (t : nat) (s : State)
  : State :=
  match theap s !! t with
  | Some task => _broadcast (mk (safeTaskView task)) s
  | None => s
  end.

(** ** The watcher, as driven by the manager (watcher.js) *)

Definition newWatcher : Watcher :=
  {| running := false; found := false; w_foundHref := None; page := None;
     reloadTimer := false; rotateTimer := false |}.

(** [Watcher.stop()] up to its [await]: the flags and the latch are reset,
    both timers are cleared and the close of the current context is
    requested.  [stop] catches every error of its own, so the [await]s on
    it always resolve. *)
Definition watcher_stop (w : nat) (s : State) : State :=
  match wheap s !! w with
  | None => s
  | Some x =>
      let s1 := updWatcher w (fun x =>
                  {| running := false; found := false; w_foundHref := None;
                     page := page x; reloadTimer := false;
                     rotateTimer := false |}) s in
      match page x with
      | Some c => set_contexts (filter (fun c' => c' ≠ c) (contexts s1)) s1
      | None => s1
      end
  end.

(** The end of [_closePageContext], after the close resolved. *)
Definition watcher_stopped (w : nat) (s : State) : State :=
  updWatcher w (fun x =>
    {| running := running x; found := found x; w_foundHref := w_foundHref x;
       page := None; reloadTimer := reloadTimer x;
       rotateTimer := rotateTimer x |}) s.

(** [_ensureBrowser], after the [await] on [chromium.launch]: the new
    browser becomes [this.browser], whether another launch has set it in
    the meantime or not. *)
Definition browser_launched (s : State) : State * nat :=
  let b := nextBrowser s in
  (set_browser (Some b) (set_nextBrowser (S b) s), b).

(** [pageFactory], that is [_createIncognitoPageForTask], after the
    [await] on [_ensureBrowser]: a new context with one page is opened on
    the browser [b], which was [this.browser] then.  Nothing in it looks
    at [maxPages] or at the contexts already open. *)
Definition _createIncognitoPageForTask (b : nat) (s : State) : State * nat :=
  let c := nextCtx s in
  (set_contexts (contexts s ++ [c])
     (set_contextBrowser (contextBrowser s ++ [b]) (set_nextCtx (S c) s)),
   c).

(** The contexts that are open on browsers other than [b]. *)
Definition contexts_off (b : nat) (s : State) : list nat :=
  filter (fun c => contextBrowser s !! c ≠ Some b) (contexts s).

(** [Watcher.start()] resolved: the page is attached and both timers are
    scheduled. *)
Definition watcher_started (b w : nat) (s : State) : State :=
  let '(s1, c) := _createIncognitoPageForTask b s in
  updWatcher w (fun x =>
    {| running := running x; found := found x; w_foundHref := w_foundHref x;
       page := Some c; reloadTimer := true; rotateTimer := true |}) s1.

(** [Watcher.start()] rejected, before a page was obtained or after it
    was, on the browser [b] ([on = Some b]); [running] is reset. *)
Definition watcher_start_failed (on : option nat) (w : nat) (s : State)
  : State :=
  let s1 :=
    match on with
    | Some b =>
        let '(s1, c) := _createIncognitoPageForTask b s in
        updWatcher w (fun x =>
          {| running := running x; found := found x;
             w_foundHref := w_foundHref x; page := Some c;
             reloadTimer := reloadTimer x;
             rotateTimer := rotateTimer x |}) s1
    | None => s
    end in
  updWatcher w (fun x =>
    {| running := false; found := found x; w_foundHref := w_foundHref x;
       page := page x; reloadTimer := reloadTimer x;
       rotateTimer := rotateTimer x |}) s1.

(** The binding exposed on the page, called by the detector script. *)
Definition detectorFound (w : nat) (h : option string) (s : State)
  : option State :=
  match wheap s !! w with
  | Some x =>
      match page x with
      | Some c =>
          if bool_decide (c ∈ contexts s)
          then Some (if found x then s
                     else updWatcher w (fun x =>
                            {| running := running x; found := true;
                               w_foundHref := h; page := page x;
                               reloadTimer := reloadTimer x;
                               rotateTimer := rotateTimer x |}) s)
          else None
      | None => None
      end
  | None => None
  end.

(** ** Starting a watcher for a task *)

(** [_startTaskWatcher] from [new Watcher] to the [await] on
    [watcher.start()].  [start] runs on to [_ensureBrowser] before it
    hands control back: with no [this.browser] this call launches one,
    and so does every other start made before that launch resolves;
    otherwise the context is asked of the browser there is. *)
Definition start_new_watcher (t : nat) (c : StartCaller) (s : State) : State :=
  let w := length (wheap s) in
  let s1 := set_wheap (wheap s ++ [newWatcher]) s in
  let s2 := updTask t (set_watcher (Some w)) s1 in
  let s3 := updWatcher w (fun x =>
              {| running := true; found := found x;
                 w_foundHref := w_foundHref x; page := page x;
                 reloadTimer := reloadTimer x;
                 rotateTimer := rotateTimer x |}) s2 in
  match browser s3 with
  | Some b => suspend (KStart t w c b) s3
  | None => suspend (KLaunch t w c) s3
  end.

Definition _startTaskWatcher (t : nat) (c : StartCaller) (s : State) : State :=
  match watcherOf s t with
  | Some w0 => suspend (KStartStopOld t w0 c) (watcher_stop w0 s)
  | None => start_new_watcher t c s
  end.

(** [setInterval(..., 800)] at the end of [_startTaskWatcher]. *)
Definition add_monitor (t : nat) (s : State) : State :=
  set_monitors (monitors s ++ [(nextMonitor s, t)])
    (set_nextMonitor (S (nextMonitor s)) s).

Definition clearInterval (m : nat) (s : State) : State :=
  set_monitors (filter (fun p => fst p ≠ m) (monitors s)) s.

(** [restartAllWatchers]: the loop over [toStart], up to the next
    [await]; at the end, the tail of [reloadTask]. *)
Fixpoint restart_loop (rid : string) (t0 : nat) (l : list nat) (s : State)
  : State :=
  match l with
  | [] =>
      log (Returned (ReloadReturned rid true))
        (broadcastView (EvReloaded rid) t0 s)
  | t :: rest =>
      match watcherOf s t with
      | Some _ => restart_loop rid t0 rest s
      | None => _startTaskWatcher t (FromRestart rid t0 rest) s
      end
  end.

(** What the caller of [_startTaskWatcher] does once it resolved. *)
Definition after_start_ok (c : StartCaller) (t : nat) (s : State) : State :=
  match c with
  | FromCreate =>
      let st := statusOf s t in
      let s1 := if String.eqb st "" || String.eqb st "starting"
                then setStatus t "running" s else s in
      broadcastView EvTaskStarted t (_saveTasksToFile s1)
  | FromResume =>
      let s1 := _saveTasksToFile (setStatus t "running" s) in
      match idOf s1 t with
      | Some i => broadcastView (EvResumed i) t s1
      | None => s1
      end
  | FromRestart rid t0 rest =>
      let s1 := setStatus t "running" s in
      let s2 := broadcastView EvTaskStarted t (_saveTasksToFile s1) in
      suspend (KRestartDelay rid t0 rest) s2
  end.

(** ... and once it rejected. *)
Definition after_start_failed (c : StartCaller) (t : nat) (message : string)
    (s : State) : State :=
  match c with
  | FromCreate =>
      let s1 := _saveTasksToFile (setStatus t "error" s) in
      match idOf s1 t with
      | Some i => _broadcast (EvTaskError i message) s1
      | None => s1
      end
  | FromResume => _saveTasksToFile (setStatus t "error" s)
  | FromRestart rid t0 rest =>
      suspend (KRestartDelay rid t0 rest)
        (_saveTasksToFile (setStatus t "error" s))
  end.

(** ** createTask and its route *)

(** The body of [POST /api/tasks], after [bodyParser.json()]. *)
Record TaskSpec := mkTaskSpec {
  s_location : option string;
  s_cinemaName : option string;
  s_cinemaUrl : option string;
  s_identifier : option string;
  s_bookingSettings : option string
}.

(** [str.slice(a, b)] for [0 <= a <= b]. *)
Definition slice (a b : nat) (str : string) : string :=
  substring a (b - a) str.

(** [`task-${Date.now()}-${Math.random().toString(36).slice(2,5)}`];
    [now] is the value of the clock and [rnd] the text
    [Math.random().toString(36)], which is [0.] and base-36 digits, or
    [0] alone. *)
Definition task_id (now : N) (rnd : string) : string :=
  "task-" ++ dec now ++ "-" ++ slice 2 5 rnd.

(** The task object of [createTask].  [created] is the second reading of
    the clock, by [new Date()]; the ISO text of [createdAt] is kept as
    the time it denotes. *)
Definition new_task (spec : TaskSpec) (now : N) (rnd : string) (created : N)
  : Task :=
  {| data :=
       {| id := task_id now rnd;
          location := orNull (s_location spec);
          cinemaName := orNull (s_cinemaName spec);
          cinemaUrl := orNull (s_cinemaUrl spec);
          identifier := match orNull (s_identifier spec) with
                        | Some v => v
                        | None => ""
                        end;
          status := "starting";
          createdAt := created;
          href := orNull (s_cinemaUrl spec);
          foundHref := None;
          bookingSettings := orNull (s_bookingSettings spec) |};
     watcher := None |}.

(** [createTask], up to the [return id]: the closure that starts the
    watcher has run up to its first [await] by then. *)
Definition createTask (spec : TaskSpec) (now : N) (rnd : string)
    (created : N) (s : State) : State * string :=
  let task := new_task spec now rnd created in
  let t := length (theap s) in
  let s1 := set_tasks (tasks s ++ [t]) (set_theap (theap s ++ [task]) s) in
  let s2 := _saveTasksToFile s1 in
  let s3 := _broadcast (EvTaskCreated (safeTaskView task)) s2 in
  (_startTaskWatcher t FromCreate s3, id (data task)).

(** [app.post('/api/tasks', ...)] *)
Definition post_api_tasks (body : TaskSpec) (now : N) (rnd : string)
    (created : N) (s : State) : State :=
  if negb (truthy (s_location body)) || negb (truthy (s_cinemaUrl body))
     || negb (truthy (s_identifier body))
  then log (Returned (HttpBadRequest
              "location, cinemaUrl, identifier required")) s
  else let '(s1, i) := createTask body now rnd created s in
       log (Returned (HttpCreated i)) s1.

(** ** stopTask *)

Definition stop_finish (tid : string) (t : nat) (s : State) : State :=
  let s1 := setStatus t "stopped" s in
  let s2 := _saveTasksToFileImmediate s1 in
  let s3 := broadcastView (EvStopped tid) t s2 in
  log (Returned (StopReturned tid true)) s3.

Definition stopTask (tid : string) (s : State) : State :=
  match findTask tid s with
  | None => log (Returned (StopReturned tid false)) s
  | Some (_, t) =>
      match watcherOf s t with
      | Some w => suspend (KStop tid t w) (watcher_stop w s)
      | None => stop_finish tid t s
      end
  end.

(** ** deleteTask *)

(** [this.tasks.splice(idx, 1)] with the index found before the [await]. *)
Definition delete_finish (tid : string) (idx : nat) (s : State) : State :=
  let s1 := set_tasks (delete idx (tasks s)) s in
  let s2 := _saveTasksToFileImmediate s1 in
  let s3 := _broadcast (EvDeleted tid) s2 in
  log (Returned (DeleteReturned tid true)) s3.

Definition deleteTask (tid : string) (s : State) : State :=
  match findTask tid s with
  | None => log (Returned (DeleteReturned tid false)) s
  | Some (idx, t) =>
      match watcherOf s t with
      | Some w => suspend (KDelete tid idx t w) (watcher_stop w s)
      | None => delete_finish tid idx s
      end
  end.

(** ** reloadTask, stopAllWatchers, restartAllWatchers *)

Definition is_active (st : string) : bool :=
  String.eqb st "starting" || String.eqb st "running"
  || String.eqb st "resumed".

Definition mark_starting (s : State) : State :=
  foldl (fun s t => if is_active (statusOf s t)
                    then setStatus t "starting" s else s) s (tasks s).

(** The tasks that have a watcher, with it: one pending promise each. *)
Definition stop_items (s : State) : list (nat * nat) :=
  omap (fun t => match watcherOf s t with
                 | Some w => Some (t, w)
                 | None => None
                 end) (tasks s).

(** After [Promise.all]: the immediate save of [stopAllWatchers], then the
    250 ms pause of [reloadTask]. *)
Definition reload_after_stops (rid : string) (t0 : nat) (s : State) : State :=
  suspend (KReloadDelay rid t0) (_saveTasksToFileImmediate s).

Definition stopAllWatchers (rid : string) (t0 : nat) (s : State) : State :=
  let items := stop_items s in
  let s1 := foldl (fun s p => watcher_stop (snd p) s) s items in
  match items with
  | [] => reload_after_stops rid t0 s1
  | _ => suspend (KStopAll rid t0 items) s1
  end.

Definition reloadTask (rid : string) (s : State) : State :=
  match findTask rid s with
  | None => log (Returned (ReloadReturned rid false)) s
  | Some (_, t0) => stopAllWatchers rid t0 (_saveTasksToFile (mark_starting s))
  end.

(** One watcher of [stopAllWatchers] has stopped. *)
Definition stop_item_done (t w : nat) (s : State) : State :=
  let s1 := updTask t (set_watcher None) (watcher_stopped w s) in
  if String.eqb (statusOf s1 t) "running" then setStatus t "starting" s1
  else s1.

Definition restartAllWatchers (rid : string) (t0 : nat) (s : State) : State :=
  restart_loop rid t0
    (filter (fun t => is_active (statusOf s t) = true) (tasks s)) s.

(** ** The monitor of a task: the found-completion sequence *)

(** From [this._saveTasksToFile()] to the [await] on [watcher.stop()]. *)
Definition found_rest (t : nat) (s : State) : State :=
  let s1 := _saveTasksToFile s in
  let s2 := broadcastView EvFound t s1 in
  let s3 := match theap s2 !! t with
            | Some task =>
                _broadcast (EvAlarmStarted (id (data task))
                                            (identifier (data task))) s2
            | None => s2
            end in
  let s4 := if automation s3 then log (Automation t) s3 else s3 in
  match watcherOf s4 t with
  | Some w => suspend (KFoundStop t w) (watcher_stop w s4)
  | None => s4
  end.

Definition monitorTask (m : nat) (s : State) : option nat :=
  match List.find (fun p => Nat.eqb (fst p) m) (monitors s) with
  | Some p => Some (snd p)
  | None => None
  end.

(** One firing of the [setInterval] callback of monitor [m]. *)
Definition monitorTick (m : nat) (s : State) : option State :=
  match monitorTask m s with
  | None => None
  | Some t =>
      match watcherOf s t with
      | None => Some (clearInterval m s)
      | Some w =>
          match wheap s !! w with
          | None => None
          | Some x =>
              if found x then
                let s1 := clearInterval m s in
                let s2 := updTask t (on_data (fun d =>
                            set_foundHref
                              (orNull (orElse (w_foundHref x) (foundHref d)))
                              (set_status "found" d))) s1 in
                match theap s2 !! t with
                | Some task =>
                    if negb (truthy (foundHref (data task)))
                       && bool_decide (is_Some (page x))
                    then Some (suspend (KFoundEval t) s2)
                    else Some (found_rest t s2)
                | None => None
                end
              else Some s
          end
      end
  end.

(** ** shutdown *)

(** The end of [shutdown]: [this.browser.close()] closes the contexts of
    that browser; a browser launched by another start and replaced as
    [this.browser] since is not closed, nor are its contexts. *)
Definition shutdown_finish (s : State) : State :=
  let s1 := _saveTasksToFileImmediate s in
  match browser s1 with
  | Some b => suspend KShutdownClose (set_contexts (contexts_off b s1) s1)
  | None => log (Returned ShutdownReturned) s1
  end.

(** The [for (const t of this.tasks)] loop from position [i], where [l] is
    the part of the array not visited yet, up to the next [await]. *)
Fixpoint shutdown_scan (l : list nat) (i : nat) (s : State) : State :=
  match l with
  | [] => shutdown_finish s
  | t :: l' =>
      match watcherOf s t with
      | Some w => suspend (KShutdown i t w) (watcher_stop w s)
      | None => shutdown_scan l' (S i) (setStatus t "stopped" s)
      end
  end.

Definition shutdown (s : State) : State := shutdown_scan (tasks s) 0 s.

(** ** Resuming a suspended function *)

Definition resume (k : Cont) (o : Outcome) (s : State) : option State :=
  match k, o with
  | KStartStopOld t w c, Resolved =>
      Some (start_new_watcher t c
              (updTask t (set_watcher None) (watcher_stopped w s)))
  | KLaunch t w c, Launched =>
      let '(s1, b) := browser_launched s in
      Some (suspend (KStart t w c b) s1)
  | KLaunch t w c, StartFailed false message =>
      Some (after_start_failed c t message (watcher_start_failed None w s))
  | KStart t w c b, StartOk =>
      Some (after_start_ok c t (add_monitor t (watcher_started b w s)))
  | KStart t w c b, StartFailed attached message =>
      Some (after_start_failed c t message
              (watcher_start_failed (if attached then Some b else None)
                 w s))
  | KStop tid t w, Resolved =>
      Some (stop_finish tid t
              (updTask t (set_watcher None) (watcher_stopped w s)))
  | KDelete tid idx t w, Resolved =>
      Some (delete_finish tid idx
              (updTask t (set_watcher None) (watcher_stopped w s)))
  | KStopAll rid t0 items, Item j =>
      match items !! j with
      | Some (t, w) =>
          let s1 := stop_item_done t w s in
          match delete j items with
          | [] => Some (reload_after_stops rid t0 s1)
          | items' => Some (suspend (KStopAll rid t0 items') s1)
          end
      | None => None
      end
  | KReloadDelay rid t0, Resolved => Some (restartAllWatchers rid t0 s)
  | KRestartDelay rid t0 rest, Resolved => Some (restart_loop rid t0 rest s)
  | KFoundEval t, Evaluated maybe =>
      let s1 := if truthy maybe
                then updTask t (on_data (set_foundHref maybe)) s else s in
      Some (found_rest t s1)
  | KFoundStop t w, Resolved =>
      Some (updTask t (set_watcher None) (watcher_stopped w s))
  | KShutdown i t w, Resolved =>
      let s1 := setStatus t "stopped" (watcher_stopped w s) in
      Some (shutdown_scan (drop (S i) (tasks s1)) (S i) s1)
  | KShutdownClose, Resolved =>
      Some (log (Returned ShutdownReturned) (set_browser None s))
  | _, _ => None
  end.

(** ** The event loop *)

Inductive Label :=
| PostTask (body : TaskSpec) (now : N) (rnd : string) (created : N)
| StopTask (tid : string)
| DeleteTask (tid : string)
| ReloadTask (tid : string)
| Shutdown
| SaveTimerFires
| MonitorTick (m : nat)
| DetectorFound (w : nat) (h : option string)
| Resume (i : nat) (o : Outcome)
| Disk (ok : bool).

Definition step (l : Label) (s : State) : option State :=
  match l with
  | PostTask body now rnd created =>
      Some (post_api_tasks body now rnd created s)
  | StopTask tid => Some (stopTask tid s)
  | DeleteTask tid => Some (deleteTask tid s)
  | ReloadTask tid => Some (reloadTask tid s)
  | Shutdown => Some (shutdown s)
  | SaveTimerFires => saveTimerFires s
  | MonitorTick m => monitorTick m s
  | DetectorFound w h => detectorFound w h s
  | Resume i o =>
      match pending s !! i with
      | Some k => resume k o (set_pending (delete i (pending s)) s)
      | None => None
      end
  | Disk ok => Some (set_diskOk ok s)
  end.

Fixpoint run (ls : list Label) (s : State) : option State :=
  match ls with
  | [] => Some s
  | l :: ls' =>
      match step l s with
      | Some s' => run ls' s'
      | None => None
      end
  end.

(** ** The constructor and _loadTasksFromFile *)

(** What [fs] finds at [tasksFile]. *)
Inductive FileJson :=
| JsonArray (records : list TaskData)
| JsonOther            (* valid JSON that is not an array *)
| JsonInvalid.         (* JSON.parse throws *)

Definition empty_manager (maxPages0 : nat) (file : option string)
    (auto ok : bool) : State :=
  {| maxPages := if Nat.eqb maxPages0 0 then 6 else maxPages0;
     tasksFile := file; automation := auto; diskOk := ok;
     browser := None; nextBrowser := 0; contexts := []; nextCtx := 0;
     contextBrowser := [];
     tasks := []; theap := []; wheap := [];
     monitors := []; nextMonitor := 0;
     saveTimer := false; lastSavedJson := None;
     trace := []; pending := [] |}.

(** [_resumeTaskWatcher] up to its [await]. *)
Definition _resumeTaskWatcher (t : nat) (s : State) : State :=
  _startTaskWatcher t FromResume (setStatus t "starting" s).

Definition needs_resume (st : string) : bool :=
  String.eqb st "running" || String.eqb st "starting".

(** The body of the loop that resumes the tasks persisted as running or
    starting. *)
Definition resume_step (s : State) (t : nat) : State :=
  if needs_resume (statusOf s t) then _resumeTaskWatcher t s else s.

(** [this.tasks = arr.map(t => ({ ...t, watcher: null }))], then that
    loop. *)
Definition load_records (records : list TaskData) (s : State) : State :=
  let s1 := set_tasks (seq 0 (length records))
              (set_theap (map (fun d => {| data := d; watcher := None |})
                              records) s) in
  let s2 := set_lastSavedJson (Some (toSave s1)) s1 in
  foldl resume_step s2 (tasks s2).

Definition _loadTasksFromFile (disk : option FileJson) (s : State) : State :=
  match tasksFile s with
  | None => s
  | Some path =>
      match disk with
      | None =>
          if diskOk s
          then load_records []
                 (set_lastSavedJson (Some []) (log (FsWrite path []) s))
          else s
      | Some (JsonArray records) => load_records records s
      | Some JsonOther => set_lastSavedJson (Some []) s
      | Some JsonInvalid => s
      end
  end.

(** [new WatcherManager({ maxPages, tasksFile, ... })] *)
Definition new_manager (maxPages0 : nat) (file : option string)
    (auto ok : bool) (disk : option FileJson) : State :=
  _loadTasksFromFile disk (empty_manager maxPages0 file auto ok).

(** ** Requests and scenarios used in the statements *)

Definition sample_spec : TaskSpec :=
  {| s_location := Some "chennai"; s_cinemaName := Some "PVR";
     s_cinemaUrl := Some "https://in.bookmyshow.com/cinemas/pvr";
     s_identifier := Some "ET00418958"; s_bookingSettings := None |}.

Definition default_manager : State :=
  new_manager 6 (Some "tasks.json") true true (Some (JsonArray [])).

(** What [Math.random().toString(36)] gave. *)
Definition sample_rnd : string := "0.k3x7pq2m0a".

(** [n] task creations in a row; then the [n] browser launches resolve,
    and then the [n] watcher starts. *)
Definition burst (n : nat) : list Label :=
  map (fun i => PostTask sample_spec (N.of_nat i) sample_rnd (N.of_nat i))
      (seq 0 n)
  ++ repeat (Resume 0 Launched) n ++ repeat (Resume 0 StartOk) n.

(** What the route of [POST /api/tasks] requires. *)
Definition valid_body (b : TaskSpec) : bool :=
  truthy (s_location b) && truthy (s_cinemaUrl b) && truthy (s_identifier b).

Definition bad_request : Reply :=
  HttpBadRequest "location, cinemaUrl, identifier required".

(** What [_saveTasksToFileImmediate] writes in state [s], and the value of
    [_lastSavedJson] it leaves. *)
Definition written_now (s : State) : list Obs :=
  match tasksFile s with
  | Some path =>
      if decide (lastSavedJson s = Some (toSave s)) then []
      else if diskOk s then [FsWrite path (toSave s)] else []
  | None => []
  end.

Definition saved_after (s : State) : option (list TaskData) :=
  match tasksFile s with
  | Some _ =>
      if decide (lastSavedJson s = Some (toSave s)) then lastSavedJson s
      else if diskOk s then Some (toSave s) else lastSavedJson s
  | None => lastSavedJson s
  end.

(** [Watcher.stop()] applied to the fields of a watcher. *)
Definition stopped_watcher (x : Watcher) : Watcher :=
  {| running := false; found := false; w_foundHref := None; page := page x;
     reloadTimer := false; rotateTimer := false |}.

Definition is_write (o : Obs) : bool :=
  match o with
  | FsWrite _ _ => true
  | _ => false
  end.

Definition persisted (i st : string) (h : option string) : TaskData :=
  {| id := i; location := Some "chennai"; cinemaName := Some "PVR";
     cinemaUrl := Some "https://in.bookmyshow.com/cinemas/pvr";
     identifier := "ET00418958"; status := st; createdAt := 1700000000000;
     href := Some "https://in.bookmyshow.com/cinemas/pvr"; foundHref := h;
     bookingSettings := None |}.

Definition manager_of (records : list TaskData) : State :=
  new_manager 6 (Some "tasks.json") true true (Some (JsonArray records)).

(** A registry of three tasks, of which only the second is being watched,
    and two delete requests that overlap: the one for [task-B] waits for
    its watcher to stop while the one for [task-A] runs. *)
Definition three_tasks : list TaskData :=
  [persisted "task-A" "stopped" None;
   persisted "task-B" "running" None;
   persisted "task-C" "stopped" None].

Definition overlapping_deletes : list Label :=
  [Resume 0 Launched; Resume 0 StartOk; DeleteTask "task-B";
   DeleteTask "task-A"; Resume 0 Resolved].

(** The replies, the broadcasts and the file writes of a trace. *)
Definition replies (tr : list Obs) : list Reply :=
  omap (fun o => match o with Returned r => Some r | _ => None end) tr.

Definition broadcasts (tr : list Obs) : list Event :=
  omap (fun o => match o with Broadcast e => Some e | _ => None end) tr.

Definition writes (tr : list Obs) : list (list TaskData) :=
  omap (fun o => match o with FsWrite _ j => Some j | _ => None end) tr.

(** A task is created and deleted before the debounce timer fires. *)
Definition create_then_delete : list Label :=
  [PostTask sample_spec 5 sample_rnd 5; DeleteTask "task-5-k3x";
   Resume 1 Resolved].

(** A watcher whose [start()] has been called and has not resolved. *)
Definition starting_watcher : Watcher :=
  {| running := true; found := false; w_foundHref := None; page := None;
     reloadTimer := false; rotateTimer := false |}.


(** [shutdown] run to its end with nothing else in between: each time it
    waits, for a watcher to stop or for the browser to close, it is the
    continuation added last, at position [n] of [pending]. *)
Definition shutdown_alone (n k : nat) : list Label :=
  Shutdown :: repeat (Resume n Resolved) k.

(** The [foundHref] of every task object, in allocation order. *)
Definition hrefs (s : State) : list (option string) :=
  map (fun task => foundHref (data task)) (theap s).

(** The part of the state that only task creation, the monitors and the
    found-completion sequence change. *)
Definition core (s : State) : list (option string) * list (nat * nat) * nat :=
  (hrefs s, monitors s, nextMonitor s).

(** The ids of the live monitors are below the next id. *)
Definition monitors_fresh (s : State) : Prop :=
  Forall (fun p => fst p < nextMonitor s) (monitors s).

Definition stopped_manager : State :=
  manager_of [persisted "task-A" "stopped" None].

(** The labels of the found-completion sequence: the tick of a monitor
    and the end of the [page.evaluate] it may wait for. *)
Definition in_found_sequence (l : Label) : bool :=
  match l with
  | MonitorTick _ => true
  | Resume _ (Evaluated _) => true
  | _ => false
  end.

(** A task is created and its watcher starts; a reload stops the watcher
    and starts a second one, and the monitor of the first start, which
    did not tick while the task had no watcher, is still alive.  The
    detector then signals a link without an href; both monitors tick
    while the first [page.evaluate] is awaited. *)
Definition found_twice : list Label :=
  [PostTask sample_spec 1000 sample_rnd 1000; Resume 0 Launched;
   Resume 0 StartOk;
   ReloadTask "task-1000-k3x"; Resume 0 (Item 0); Resume 0 Resolved;
   Resume 0 StartOk;
   DetectorFound 1 None;
   MonitorTick 0; MonitorTick 1;
   Resume 1 (Evaluated None); Resume 1 (Evaluated None)].

Definition is_found_event (tid : string) (e : Event) : bool :=
  match e with
  | EvFound task => String.eqb (id task) tid
  | _ => false
  end.

Definition is_alarm_event (tid : string) (e : Event) : bool :=
  match e with
  | EvAlarmStarted i _ => String.eqb i tid
  | _ => false
  end.

Definition automation_calls (tr : list Obs) : list nat :=
  omap (fun o => match o with Automation t => Some t | _ => None end) tr.

(** A task is found, then stopped. *)
Definition found_then_stopped : list Label :=
  [Resume 0 Launched; Resume 0 StartOk;
   DetectorFound 0 (Some "https://in.bookmyshow.com/movies/ET00418958"%string);
   MonitorTick 0; Resume 0 Resolved; StopTask "task-B"].

(** A task is found through a link without an href, and the page gives
    none either. *)
Definition found_without_href : list Label :=
  [Resume 0 Launched; Resume 0 StartOk; DetectorFound 0 None; MonitorTick 0;
   Resume 0 (Evaluated None); Resume 0 Resolved].

(** The value [task.watcher.foundHref || task.foundHref || null]. *)
Definition found_href (x : Watcher) (task : Task) : option string :=
  orNull (orElse (w_foundHref x) (foundHref (data task))).

(** What the second half of the found-completion sequence, from the save
    to the stop of the watcher, does to a state [s] in which the task is
    [task]. *)
Definition found_rest_post (t : nat) (task : Task) (s s' : State) : Prop :=
  trace s'
  = trace s
    ++ [Broadcast (EvFound (safeTaskView task));
        Broadcast (EvAlarmStarted (id (data task)) (identifier (data task)))]
    ++ (if automation s then [Automation t] else [])
  /\ theap s' = theap s
  /\ saveTimer s' = match tasksFile s with
                    | Some _ => true
                    | None => saveTimer s
                    end
  /\ lastSavedJson s' = lastSavedJson s
  /\ match watcher task with
     | Some w => pending s' = pending s ++ [KFoundStop t w]
                 /\ wheap s' = alter stopped_watcher w (wheap s)
     | None => pending s' = pending s /\ wheap s' = wheap s
     end.

(** The state reached by a run, for the runs that go through. *)
Definition after (ls : list Label) (s : State) : State :=
  match run ls s with
  | Some s' => s'
  | None => s
  end.

(** The task as the tick of its monitor leaves it when the latch of the
    watcher [x] is set. *)
Definition found_task (x : Watcher) (task : Task) : Task :=
  on_data (fun d => set_foundHref (orNull (orElse (w_foundHref x) (foundHref d)))
                      (set_status "found" d)) task.

Definition sample_href : string :=
  "https://in.bookmyshow.com/movies/ET00418958".

(** ** The steps that save, and how *)

(** The steps of the functions that call [_saveTasksToFileImmediate]:
    the timer callback of the debounced save, [stopTask], [deleteTask],
    [shutdown] and, through [stopAllWatchers], [reloadTask], each from
    its call to the last of its resumptions that comes before the
    save. *)
Definition saves_at_once (l : Label) (s : State) : bool :=
  match l with
  | SaveTimerFires | StopTask _ | DeleteTask _ | ReloadTask _ | Shutdown =>
      true
  | Resume i _ =>
      match pending s !! i with
      | Some (KStop _ _ _) | Some (KDelete _ _ _ _) | Some (KStopAll _ _ _)
      | Some (KShutdown _ _ _) => true
      | _ => false
      end
  | _ => false
  end.

(** The steps that update a task and call [_saveTasksToFile()], the
    debounced save, and nothing else that saves: a task is created, the
    start of a watcher resolves or rejects, the found-completion sequence
    reaches its save, at the tick or after the wait for
    [page.evaluate]. *)
Definition is_update (l : Label) (s : State) : bool :=
  match l with
  | PostTask body _ _ _ => valid_body body
  | Resume i o =>
      match pending s !! i, o with
      | Some (KStart _ _ _ _), StartOk => true
      | Some (KStart _ _ _ _), StartFailed _ _ => true
      | Some (KLaunch _ _ _), StartFailed false _ => true
      | Some (KFoundEval _), Evaluated _ => true
      | _, _ => false
      end
  | MonitorTick m =>
      match monitorTask m s with
      | Some t =>
          match watcherOf s t with
          | Some w =>
              match wheap s !! w, theap s !! t with
              | Some x, Some task =>
                  found x
                  && negb (negb (truthy (found_href x task))
                           && bool_decide (is_Some (page x)))
              | _, _ => false
              end
          | None => false
          end
      | None => false
      end
  | _ => false
  end.

(** A run none of whose steps is of a function that saves at once. *)
Fixpoint debounced_only (ls : list Label) (s : State) : bool :=
  match ls with
  | [] => true
  | l :: ls' =>
      negb (saves_at_once l s)
      && match step l s with
         | Some s1 => debounced_only ls' s1
         | None => true
         end
  end.

(** What the two writers work on: the file, the pending timer, the
    snapshot last written and the writes made so far. *)
Definition persistence (s : State)
  : option string * bool * option (list TaskData) * list (list TaskData) :=
  (tasksFile s, saveTimer s, lastSavedJson s, writes (trace s)).

(** The effect of [_saveTasksToFile()] on it. *)
Definition scheduled
    (p : option string * bool * option (list TaskData)
         * list (list TaskData))
  : option string * bool * option (list TaskData) * list (list TaskData) :=
  let '(file, timer, saved, ws) := p in
  (file, match file with Some _ => true | None => timer end, saved, ws).

(** ** The file system under a crash

    [fs.writeFileSync] truncates the file and then writes the data; a
    process that dies in between leaves a file that holds only a part of
    the data.  [fs.renameSync] replaces the target in one step. *)
Module Fs.

Inductive Op :=
| WriteFileSync (path : string) (data : list TaskData)
| RenameSync (src dst : string).

Inductive File :=
| Whole (data : list TaskData)
| Torn (data : list TaskData).   (* a part of the text of [data] *)

Definition Disk := string -> option File.

Definition put (p : string) (f : option File) (d : Disk) : Disk :=
  fun q => if String.eqb q p then f else d q.

Definition apply (op : Op) (d : Disk) : Disk :=
  match op with
  | WriteFileSync p c => put p (Some (Whole c)) d
  | RenameSync a b => put a None (put b (d a) d)
  end.

(** The disks a crash in the middle of the call can leave. *)
Definition during (op : Op) (d : Disk) : list Disk :=
  match op with
  | WriteFileSync p c => [put p (Some (Torn c)) d]
  | RenameSync _ _ => []
  end.

(** The disks a crash can leave, at any point of a sequence of calls. *)
Fixpoint crashes (ops : list Op) (d : Disk) : list Disk :=
  d :: match ops with
       | [] => []
       | op :: rest => during op d ++ crashes rest (apply op d)
       end.

Definition intact (d : Disk) (p : string) : Prop :=
  match d p with
  | Some (Torn _) => False
  | _ => True
  end.

End Fs.

(** The file system calls behind an effect of the manager. *)
Definition fs_ops (o : Obs) : list Fs.Op :=
  match o with
  | FsWrite p json => [Fs.WriteFileSync p json]
  | _ => []
  end.

(** ** server/storage.js *)
Module Storage.

Definition FILE : string := "tasks.json".

(** [cache], and whether the timer of [scheduleWrite] is pending. *)
Record St := mkSt {
  cache : option (list TaskData);
  timer : bool
}.

(** [write(newData)]: the cache is replaced and [scheduleWrite] clears
    the pending timer and sets a new one of 200 ms. *)
Definition write (newData : list TaskData) (st : St) : St :=
  {| cache := Some newData; timer := true |}.

(** The calls of the timer callback of [scheduleWrite].  The timer is set
    by [write] only, after the cache has been set. *)
Definition flush_ops (data : list TaskData) : list Fs.Op :=
  [Fs.WriteFileSync (FILE ++ ".tmp") data;
   Fs.RenameSync (FILE ++ ".tmp") FILE].

Definition timerFires (st : St) : option (St * list Fs.Op) :=
  if timer st
  then Some ({| cache := cache st; timer := false |},
             match cache st with
             | Some data => flush_ops data
             | None => []
             end)
  else None.

End Storage.

(** A disk that holds a whole snapshot. *)
Definition disk_with (p : string) (data : list TaskData) : Fs.Disk :=
  Fs.put p (Some (Fs.Whole data)) (fun _ => None).

(** ** The event broadcaster: addSseClient and _broadcast

    Here the event is a JavaScript value with its objects in a heap, so
    that handing out a copy and handing out the object itself differ. *)
Module Broadcaster.

Inductive Val :=
| VUndefined
| VNull
| VBool (b : bool)
| VNum (n : Z)
| VStr (s : string)
| VBigInt (n : Z)
| VFunction
| VRef (l : nat).

(** An object or an array; the fields of an array are named by its
    indices. *)
Record Node := mkNode {
  is_array : bool;
  fields : list (string * Val)
}.

Abbreviation Heap := (list Node).

(** A JSON text, as the tree it denotes. *)
#[local] Set Warnings "-register-all".
Inductive Json :=
| JNull
| JBool (b : bool)
| JNum (n : Z)
| JStr (s : string)
| JNode (arr : bool) (members : list (string * Json)).

Inductive Res (A : Type) :=
| Ok (a : A)
| Throws
| OutOfFuel.
Arguments Ok {A} a.
Arguments Throws {A}.
Arguments OutOfFuel {A}.

(** The members of an object or array, [f] being [JSON.stringify] on a
    member: one that is [undefined] or a function is left out of an
    object and becomes [null] in an array. *)
Fixpoint stringify_members (f : Val -> Res (option Json)) (arr : bool)
    (fs : list (string * Val)) : Res (list (string * Json)) :=
  match fs with
  | [] => Ok []
  | (k, v) :: rest =>
      match f v with
      | Ok (Some j) =>
          match stringify_members f arr rest with
          | Ok ms => Ok ((k, j) :: ms)
          | Throws => Throws
          | OutOfFuel => OutOfFuel
          end
      | Ok None =>
          if arr
          then match stringify_members f arr rest with
               | Ok ms => Ok ((k, JNull) :: ms)
               | Throws => Throws
               | OutOfFuel => OutOfFuel
               end
          else stringify_members f arr rest
      | Throws => Throws
      | OutOfFuel => OutOfFuel
      end
  end.

(** [JSON.stringify]: [Ok None] stands for the result [undefined].  A
    BigInt throws, and so does an object met again below itself. *)
Fixpoint stringify (fuel : nat) (h : Heap) (path : list nat) (v : Val)
  : Res (option Json) :=
  match fuel with
  | 0 => OutOfFuel
  | S fuel' =>
      match v with
      | VUndefined | VFunction => Ok None
      | VNull => Ok (Some JNull)
      | VBool b => Ok (Some (JBool b))
      | VNum n => Ok (Some (JNum n))
      | VStr s => Ok (Some (JStr s))
      | VBigInt _ => Throws
      | VRef l =>
          if bool_decide (l ∈ path) then Throws
          else
            match h !! l with
            | None => Throws
            | Some node =>
                match stringify_members (stringify fuel' h (l :: path))
                        (is_array node) (fields node) with
                | Ok ms => Ok (Some (JNode (is_array node) ms))
                | Throws => Throws
                | OutOfFuel => OutOfFuel
                end
            end
      end
  end.

(** The members of a text, [f] being [JSON.parse] on a member. *)
Fixpoint parse_members (f : Json -> Heap -> Heap * Val)
    (ms : list (string * Json)) (h : Heap) : Heap * list (string * Val) :=
  match ms with
  | [] => (h, [])
  | (k, j) :: rest =>
      let '(h1, v) := f j h in
      let '(h2, fs) := parse_members f rest h1 in
      (h2, (k, v) :: fs)
  end.

(** [JSON.parse]: every object and array of the text is a new node, its
    members first. *)
Fixpoint parse (j : Json) (h : Heap) : Heap * Val :=
  match j with
  | JNull => (h, VNull)
  | JBool b => (h, VBool b)
  | JNum n => (h, VNum n)
  | JStr s => (h, VStr s)
  | JNode arr ms =>
      let '(h1, fs) := parse_members parse ms h in
      (h1 ++ [mkNode arr fs], VRef (length h1))
  end.

Definition errorEvent : Json :=
  JNode false [("type", JStr "error");
               ("message", JStr "broadcast serialization failed")].

(** [try { safe = JSON.parse(JSON.stringify(obj)) } catch (e) { ... }] *)
Definition safe_json (h : Heap) (obj : Val) : Json :=
  match stringify (S (length h)) h [] obj with
  | Ok (Some j) => j
  | _ => errorEvent
  end.

(** A subscriber.  Given the heap and the value it is called with, it
    assigns values that are not references to members of the objects it
    reaches from that value, each named by the path to the object and
    the member, and returns or throws. *)
Record Assign := mkAssign {
  a_path : list string;
  a_key : string;
  a_value : Val
}.

Definition Subscriber := Heap -> Val -> list Assign * bool.

Definition is_ref (v : Val) : bool :=
  match v with
  | VRef _ => true
  | _ => false
  end.

Fixpoint get_field (k : string) (fs : list (string * Val)) : option Val :=
  match fs with
  | [] => None
  | (k', v) :: rest => if String.eqb k' k then Some v else get_field k rest
  end.

Fixpoint set_field (k : string) (v : Val) (fs : list (string * Val))
  : list (string * Val) :=
  match fs with
  | [] => [(k, v)]
  | (k', v') :: rest =>
      if String.eqb k' k then (k, v) :: rest
      else (k', v') :: set_field k v rest
  end.

(** The node reached from [v] along a path of member names. *)
Fixpoint follow (h : Heap) (v : Val) (path : list string) : option nat :=
  match v with
  | VRef l =>
      match path with
      | [] => Some l
      | k :: rest =>
          match h !! l with
          | Some node =>
              match get_field k (fields node) with
              | Some v' => follow h v' rest
              | None => None
              end
          | None => None
          end
      end
  | _ => None
  end.

Definition assign (root : Val) (h : Heap) (a : Assign) : Heap :=
  if is_ref (a_value a) then h
  else
    match follow h root (a_path a) with
    | Some l =>
        alter (fun node =>
                 mkNode (is_array node)
                        (set_field (a_key a) (a_value a) (fields node)))
              l h
    | None => h
    end.

(** The manager side: the heap, [this.sseClients] in insertion order,
    and the calls made to the subscribers. *)
Record State := mkState {
  heap : Heap;
  sseClients : list (nat * Subscriber);
  delivered : list (nat * Val)
}.

(** [addSseClient(sendFn)]; the returned function removes it again. *)
Definition addSseClient (cid : nat) (sendFn : Subscriber) (st : State)
  : State :=
  if bool_decide (cid ∈ map fst (sseClients st)) then st
  else mkState (heap st) (sseClients st ++ [(cid, sendFn)]) (delivered st).

Definition unsubscribe (cid : nat) (st : State) : State :=
  mkState (heap st)
          (List.filter (fun c => negb (Nat.eqb (fst c) cid)) (sseClients st))
          (delivered st).

(** [try { s(safe) } catch (e) {}] *)
Definition call (safe : Val) (acc : Heap * list (nat * Val))
    (c : nat * Subscriber) : Heap * list (nat * Val) :=
  let '(h, log) := acc in
  let '(assigns, _) := snd c h safe in
  (foldl (assign safe) h assigns, log ++ [(fst c, safe)]).

Definition _broadcast (obj : Val) (st : State) : State :=
  let '(h1, safe) := parse (safe_json (heap st) obj) (heap st) in
  let '(h2, log) := foldl (call safe) (h1, delivered st) (sseClients st) in
  mkState h2 (sseClients st) log.

(** The heap each subscriber of a broadcast is called in, in order: the
    one the subscribers before it have left. *)
Fixpoint call_heaps (safe : Val) (h : Heap)
    (clients : list (nat * Subscriber)) : list (nat * Heap) :=
  match clients with
  | [] => []
  | c :: rest => (fst c, h) :: call_heaps safe (fst (call safe (h, []) c)) rest
  end.

(** What a subscriber reads in the value it is handed: [res.write] of
    [JSON.stringify(payload)] in the server. *)
Definition reads (h : Heap) (v : Val) : Res (option Json) :=
  stringify (S (length h)) h [] v.

(** The value [v] is, in the heap [h], the tree [j]: a primitive equal to
    it, or an object or array with the members of [j], in their order
    and no other, each of them the tree of its member. *)
Fixpoint tree_members (f : Json -> Val -> bool) (ms : list (string * Json))
    (fs : list (string * Val)) : bool :=
  match ms, fs with
  | [], [] => true
  | (k, j) :: ms', (k', v) :: fs' =>
      String.eqb k k' && f j v && tree_members f ms' fs'
  | _, _ => false
  end.

Fixpoint is_tree (j : Json) (h : Heap) (v : Val) : bool :=
  match j, v with
  | JNull, VNull => true
  | JBool b, VBool b' => Bool.eqb b b'
  | JNum n, VNum n' => Z.eqb n n'
  | JStr s, VStr s' => String.eqb s s'
  | JNode arr ms, VRef l =>
      match h !! l with
      | Some node =>
          Bool.eqb arr (is_array node)
          && tree_members (fun j' v' => is_tree j' h v') ms (fields node)
      | None => false
      end
  | _, _ => false
  end.

Fixpoint size (j : Json) : nat :=
  match j with
  | JNode _ ms => S (list_sum (map (fun km => size (snd km)) ms))
  | _ => 1
  end.

(** Every reference held by a node from [n] on points below the node and
    not below [n]. *)
Definition fresh_from (n : nat) (h : Heap) : Prop :=
  forall l node k l',
    h !! l = Some node -> n <= l -> (k, VRef l') ∈ fields node ->
    n <= l' < l.

(** What [JSON.parse] allocates: the old heap is a prefix of the new one,
    the value is a primitive or a new node, and new nodes refer to new
    nodes below them only. *)
Definition parse_ok (j : Json) : Prop :=
  forall (h : Heap) (n : nat) (h' : Heap) (v : Val),
    n <= length h -> fresh_from n h -> parse j h = (h', v) ->
    (exists ext, h' = h ++ ext) /\ fresh_from n h'
    /\ forall l, v = VRef l -> length h <= l < length h'.

(** Reading back: [JSON.stringify] on what [JSON.parse] made of a text, in
    any later heap and below any nodes allocated after it, gives the text
    again, if it does not run out of fuel. *)
Definition read_back (j : Json) : Prop :=
  forall (h : Heap) (n : nat) (h' : Heap) (v : Val),
    n <= length h -> fresh_from n h -> parse j h = (h', v) ->
    forall (ext : list Node) (fuel : nat) (path : list nat),
      (forall x, x ∈ path -> length h' <= x) ->
      stringify fuel (h' ++ ext) path v = OutOfFuel
      \/ stringify fuel (h' ++ ext) path v = Ok (Some j).

(** A value that is a primitive or a node from [n] on. *)
Definition is_new (n : nat) (v : Val) : Prop :=
  forall l, v = VRef l -> n <= l.

End Broadcaster.

(** ** Seat labels (autoBookBMS.js, the seat scanner run in the page)

    Strings are lists of code units, all below 128 in what follows, and
    numbers are non-negative integers; a double holds them exactly below
    2^53. *)
Module SeatLabels.

Definition code (c : ascii) : N := N_of_ascii c.

Definition fromCharCode (n : N) : ascii := ascii_of_N n.

(** The [while (n > 0)] loop of [toRowLabel].  [n] goes down at every
    turn; [fuel] bounds the number of turns. *)
Fixpoint toRowLabel_loop (fuel : nat) (n : N) (label : list ascii)
  : list ascii :=
  match fuel with
  | 0 => label
  | S fuel' =>
      if (0 <? n)%N
      then let r := ((n - 1) mod 26)%N in
           toRowLabel_loop fuel' ((n - 1) / 26)%N
             (fromCharCode (65 + r) :: label)
      else label
  end.

Definition toRowLabel (num : N) : list ascii :=
  toRowLabel_loop (N.to_nat num) num [].

(** [String(n)] for such a number: its decimal digits. *)
Fixpoint digits_loop (fuel : nat) (n : N) (acc : list ascii) : list ascii :=
  match fuel with
  | 0 => acc
  | S fuel' =>
      if (0 <? n)%N
      then digits_loop fuel' (n / 10)%N (fromCharCode (48 + n mod 10) :: acc)
      else acc
  end.

Definition String_of (n : N) : list ascii :=
  if (n =? 0)%N then ["0"%char] else digits_loop (N.to_nat n) n [].

(** [s.padStart(target, pad)] with a pad of one code unit. *)
Definition padStart (target : nat) (pad : ascii) (s : list ascii)
  : list ascii :=
  repeat pad (target - length s) ++ s.

(** [`${toRowLabel(rowIndex)}${String(colIndex).padStart(2,'0')}`], the
    label under which [findAndClickSeat] records a seat. *)
Definition seatLabel (rowIndex colIndex : N) : list ascii :=
  toRowLabel rowIndex ++ padStart 2 "0"%char (String_of colIndex).

(** White space, for [trim] and for [\s]. *)
Definition is_space (c : ascii) : bool :=
  ((9 <=? code c) && (code c <=? 13) || (code c =? 32))%N.

Definition is_upper (c : ascii) : bool :=
  ((65 <=? code c) && (code c <=? 90))%N.

Definition is_digit (c : ascii) : bool :=
  ((48 <=? code c) && (code c <=? 57))%N.

Definition is_zero (c : ascii) : bool := (code c =? 48)%N.

Definition toUpperCase (s : list ascii) : list ascii :=
  map (fun c => if ((97 <=? code c) && (code c <=? 122))%N
                then fromCharCode (code c - 32) else c) s.

Fixpoint dropWhile (p : ascii -> bool) (s : list ascii) : list ascii :=
  match s with
  | [] => []
  | c :: rest => if p c then dropWhile p rest else s
  end.

Fixpoint span (p : ascii -> bool) (s : list ascii)
  : list ascii * list ascii :=
  match s with
  | [] => ([], [])
  | c :: rest =>
      if p c then let '(a, b) := span p rest in (c :: a, b) else ([], s)
  end.

Definition trim (s : list ascii) : list ascii :=
  rev (dropWhile is_space (rev (dropWhile is_space s))).

(** [s.match(/^([A-Z]+)\s*0*([0-9]+)$/)]: the two groups.  The letters
    and the blanks are taken as far as they go; what is left must be
    digits, one at least; [0*] takes the leading zeros but leaves the last
    one to the second group when there is nothing else. *)
Definition seat_match (s : list ascii)
  : option (list ascii * list ascii) :=
  let '(letters, r1) := span is_upper s in
  let r2 := dropWhile is_space r1 in
  let r3 := dropWhile is_zero r2 in
  match letters, r2 with
  | [], _ | _, [] => None
  | _, _ =>
      if forallb is_digit r2
      then Some (letters, match r3 with
                          | [] => ["0"%char]
                          | _ => r3
                          end)
      else None
  end.

(** [parseInt(digits, 10)] on a string of digits, for a value below 2^53;
    from there on the code gets the nearest double, which this does not
    follow. *)
Definition parseInt10 (digits : list ascii) : N :=
  fold_left (fun n c => (n * 10 + (code c - 48))%N) digits 0%N.

(** [for (...) n = n*26 + (letters.charCodeAt(i) - 64)], with the same
    limit. *)
Definition rowIndexOf (letters : list ascii) : N :=
  fold_left (fun n c => (n * 26 + (code c - 64))%N) letters 0%N.

Record Seat := mkSeat {
  raw : list ascii;
  rowLabel : list ascii;
  rowIndex : N;
  colIndex : N
}.

(** [parseSeatId(id)]; [None] as argument stands for a value that is not
    a string. *)
Definition parseSeatId (id : option (list ascii)) : option Seat :=
  match id with
  | None | Some [] => None
  | Some id =>
      let s := toUpperCase (trim id) in
      match seat_match s with
      | Some (letters, digits) =>
          Some {| raw := s; rowLabel := letters;
                  rowIndex := rowIndexOf letters;
                  colIndex := parseInt10 digits |}
      | None => None
      end
  end.

End SeatLabels.

(** ** The upcoming-movies route (server/index.js)

    The scan of a page and the page itself belong to the browser; what the
    route does with the links found is modelled: the list kept for a page,
    and the list answered for all the pages. *)
Module Upcoming.

(** One link found in a page.  [sourceUrl] is set by the route once the
    page has answered. *)
Record Item := mkItem {
  i_identifier : option string;
  i_href : string;
  i_name : string;
  i_source : string;
  i_sourceUrl : option string
}.

Record Merged := mkMerged {
  m_identifier : string;
  m_name : string;
  m_href : string;
  m_sourceUrl : option string;
  m_sourceHint : string
}.

(** The body of the loop that ends the scan of a page: [seen] is the
    [Set], [unique] the array. *)
Definition unique_step (acc : gset string * list Item) (r : Item)
  : gset string * list Item :=
  match orNull (i_identifier r) with
  | None => acc
  | Some i =>
      if decide (i ∈ fst acc) then acc
      else ({[ i ]} ∪ fst acc, snd acc ++ [r])
  end.

Definition unique (results : list Item) : list Item :=
  snd (foldl unique_step (∅, []) results).

(** The entry answered for an item whose identifier is [i];
    [item.name || ''] and [item.source || ''] are the strings
    themselves. *)
Definition to_merged (i : string) (item : Item) : Merged :=
  {| m_identifier := i; m_name := i_name item; m_href := i_href item;
     m_sourceUrl := i_sourceUrl item; m_sourceHint := i_source item |}.

(** The body of the loop over [collected]. *)
Definition merge_step (acc : gset string * list Merged) (item : Item)
  : gset string * list Merged :=
  match orNull (i_identifier item) with
  | None => acc
  | Some i =>
      if decide (i ∈ fst acc) then acc
      else ({[ i ]} ∪ fst acc, snd acc ++ [to_merged i item])
  end.

Definition merge (collected : list Item) : list Merged :=
  snd (foldl merge_step (∅, []) collected).

Definition set_sourceUrl (url : string) (r : Item) : Item :=
  {| i_identifier := i_identifier r; i_href := i_href r;
     i_name := i_name r; i_source := i_source r; i_sourceUrl := Some url |}.

(** The loop over the urls: what the scan of a page found, or [None] when
    the page failed, in which case nothing is collected for it. *)
Definition collect (pages : list (string * option (list Item)))
  : list Item :=
  flat_map (fun p => match snd p with
                     | Some results =>
                         map (set_sourceUrl (fst p)) (unique results)
                     | None => []
                     end) pages.

(** [results] and [count] of the answer. *)
Definition upcoming (pages : list (string * option (list Item)))
  : list Merged * nat :=
  let merged := merge (collect pages) in
  (merged, length merged).

(** The identifier under which an item counts, if any. *)
Definition key (r : Item) : option string := orNull (i_identifier r).

(** The items of [l] that are the first of their identifier, those of
    [seen] being taken already. *)
Fixpoint kept (seen : gset string) (l : list Item) : list Item :=
  match l with
  | [] => []
  | r :: rest =>
      match key r with
      | None => kept seen rest
      | Some i =>
          if decide (i ∈ seen) then kept seen rest
          else r :: kept ({[ i ]} ∪ seen) rest
      end
  end.

Definition has_key (i : string) (r : Item) : bool :=
  bool_decide (key r = Some i).

Definition merged_of (r : Item) : Merged :=
  to_merged (match key r with
             | Some i => i
             | None => ""
             end) r.

(** What the pages found, before anything is left out. *)
Definition found_in (pages : list (string * option (list Item)))
  : list Item :=
  flat_map (fun p => match snd p with
                     | Some results => map (set_sourceUrl (fst p)) results
                     | None => []
                     end) pages.

End Upcoming.

(** ** What a run of the manager can change *)

(** The statuses the manager assigns. *)
Definition assigned (v : string) : bool :=
  String.eqb v "starting" || String.eqb v "running" || String.eqb v "found"
  || String.eqb v "stopped" || String.eqb v "error".

(** The fields of a task that are set when it is created or loaded. *)
Definition frozen (d : TaskData) :=
  (id d, location d, cinemaName d, cinemaUrl d, identifier d, createdAt d,
   href d, bookingSettings d).

Definition task_evolves (a b : Task) : Prop :=
  frozen (data b) = frozen (data a)
  /\ (status (data b) = status (data a)
      \/ assigned (status (data b)) = true).

(** A task object before and after: still there, or new. *)
Definition slot_evolves (a b : option Task) : Prop :=
  match a, b with
  | Some a, Some b => task_evolves a b
  | None, Some b => assigned (status (data b)) = true
  | None, None => True
  | Some _, None => False
  end.

(** A file write goes to the tasks file. *)
Definition write_ok (file : option string) (o : Obs) : Prop :=
  match o with
  | FsWrite p _ => file = Some p
  | _ => True
  end.

(** [_startTaskWatcher] waiting for the watcher the task had to stop. *)
Definition is_stop_old (k : Cont) : bool :=
  match k with
  | KStartStopOld _ _ _ => true
  | _ => false
  end.

Record Evolves (s s' : State) : Prop := mkEvolves {
  ev_file : tasksFile s' = tasksFile s;
  ev_heap : forall t, slot_evolves (theap s !! t) (theap s' !! t);
  ev_trace :
    exists ext,
      trace s' = trace s ++ ext
      /\ Forall (write_ok (tasksFile s)) ext
      /\ ((lastSavedJson s' = lastSavedJson s /\ writes ext = [])
          \/ exists pre j, lastSavedJson s' = Some j
                           /\ writes ext = pre ++ [j]);
  ev_pending :
    forall k, k ∈ pending s' -> k ∈ pending s \/ is_stop_old k = false
}.

(** The snapshot the tasks file holds after the writes of a trace, [init]
    being what it held before. *)
Definition on_disk (init : option (list TaskData)) (tr : list Obs)
  : option (list TaskData) :=
  match last (writes tr) with
  | Some j => Some j
  | None => init
  end.

(** The array a file holds, if it holds one. *)
Definition content_of (disk : option FileJson) : option (list TaskData) :=
  match disk with
  | Some (JsonArray records) => Some records
  | _ => None
  end.


(** ** Subscribers and deliveries *)

(** The number of calls one broadcast makes to the subscriber [cid]. *)
Definition deliveries_to (cid : nat) (obj : Broadcaster.Val)
    (st : Broadcaster.State) : nat :=
  length (List.filter (fun d => Nat.eqb (fst d) cid)
            (drop (length (Broadcaster.delivered st))
                  (Broadcaster.delivered (Broadcaster._broadcast obj st)))).

(** ** Loading *)

(** A record as the constructor leaves it. *)
Definition loaded (d : TaskData) : TaskData :=
  if needs_resume (status d) then set_status "starting" d else d.

(** * Properties *)

(** ** Lists as heaps *)

Lemma alter_snoc {A} (f : A -> A) (l : list A) (x : A) :
  alter f (length l) (l ++ [x]) = l ++ [f x].
Proof.
  replace (length l) with (length l + 0) by lia.
  now rewrite alter_app_r.
Qed.

Lemma lookup_snoc {A} (l : list A) (x : A) :
  (l ++ [x]) !! length l = Some x.
Proof.
  rewrite lookup_app_r by lia.
  now replace (length l - length l) with 0 by lia.
Qed.

Lemma alter_None {A} (f : A -> A) (l : list A) (i : nat) :
  l !! i = None -> alter f i l = l.
Proof.
  revert i. induction l as [|a l IH]; intros [|i] H; simpl in *;
    try congruence.
  f_equal. now apply IH.
Qed.

(** ** The building blocks as record updates *)

Lemma _saveTasksToFile_nf (s : State) :
  _saveTasksToFile s
  = set_saveTimer (match tasksFile s with
                   | Some _ => true
                   | None => saveTimer s
                   end) s.
Proof. destruct s as [? [p|] ? ? ? ? ? ? ? ? ? ? ? ? ? ? ? ?]; reflexivity. Qed.

Lemma _saveTasksToFileImmediate_nf (s : State) :
  _saveTasksToFileImmediate s
  = set_lastSavedJson (saved_after s) (set_trace (trace s ++ written_now s) s).
Proof.
  unfold _saveTasksToFileImmediate, saved_after, written_now, log.
  destruct s as [? [p|] ? ok ? ? ? ? ? ? ? ? ? ? ? saved ? ?]; simpl.
  - destruct (decide (saved = Some (toSave _))) as [e|n].
    + unfold set_lastSavedJson, set_trace; simpl. now rewrite app_nil_r.
    + destruct ok; unfold set_lastSavedJson, set_trace; simpl;
        now rewrite ?app_nil_r.
  - unfold set_lastSavedJson, set_trace; simpl. now rewrite app_nil_r.
Qed.

Lemma broadcastView_nf (mk : TaskData -> Event) (t : nat) (s : State) :
  broadcastView mk t s
  = set_trace (trace s ++ match theap s !! t with
                          | Some task => [Broadcast (mk (safeTaskView task))]
                          | None => []
                          end) s.
Proof.
  unfold broadcastView, _broadcast, log.
  destruct (theap s !! t); [reflexivity|].
  rewrite app_nil_r. now destruct s.
Qed.

Lemma watcher_stop_nf (w : nat) (s : State) :
  watcher_stop w s
  = set_contexts (match wheap s !! w with
                  | Some x => match page x with
                              | Some c => filter (fun c' => c' ≠ c) (contexts s)
                              | None => contexts s
                              end
                  | None => contexts s
                  end)
      (set_wheap (alter stopped_watcher w (wheap s)) s).
Proof.
  unfold watcher_stop, updWatcher.
  destruct (wheap s !! w) as [x|] eqn:E.
  - destruct (page x); reflexivity.
  - rewrite alter_None by assumption. now destruct s.
Qed.

Lemma delete_snoc {A} (l : list A) (x : A) :
  delete (length l) (l ++ [x]) = l.
Proof. induction l as [|a l IH]; simpl; [reflexivity|now f_equal]. Qed.

Lemma watcherOf_detached (s : State) (t : nat) (l : list Task) :
  l = alter (set_watcher None) t (theap s) ->
  match l !! t with
  | Some task => watcher task
  | None => None
  end = None.
Proof.
  intros ->. rewrite list_lookup_alter_eq.
  now destruct (theap s !! t).
Qed.

(** Unfolds the record plumbing, and nothing else. *)
Ltac fields :=
  cbn [maxPages tasksFile automation diskOk browser nextBrowser contexts
       nextCtx contextBrowser tasks theap wheap monitors nextMonitor
       saveTimer lastSavedJson trace pending set_diskOk set_browser
       set_nextBrowser set_contexts set_nextCtx set_contextBrowser set_tasks
       set_theap set_wheap set_monitors set_nextMonitor set_saveTimer
       set_lastSavedJson set_trace set_pending log suspend updTask
       updWatcher setStatus watcher_stopped add_monitor clearInterval
       _broadcast fst snd] in *.

(** Turns a state built from updates into a record of its fields. *)
Ltac expose :=
  unfold log, suspend, updTask, updWatcher, setStatus, watcher_stopped,
    add_monitor, clearInterval, _broadcast, set_diskOk, set_browser,
    set_nextBrowser, set_contexts, set_nextCtx, set_contextBrowser, set_tasks,
    set_theap, set_wheap, set_monitors, set_nextMonitor, set_saveTimer,
    set_lastSavedJson, set_trace, set_pending;
  cbn [maxPages tasksFile automation diskOk browser nextBrowser contexts
       nextCtx contextBrowser tasks theap wheap monitors nextMonitor
       saveTimer lastSavedJson trace pending fst snd].

Lemma writes_app (a b : list Obs) : writes (a ++ b) = writes a ++ writes b.
Proof. apply omap_app. Qed.

Lemma broadcasts_app (a b : list Obs) :
  broadcasts (a ++ b) = broadcasts a ++ broadcasts b.
Proof. apply omap_app. Qed.

Lemma replies_app (a b : list Obs) :
  replies (a ++ b) = replies a ++ replies b.
Proof. apply omap_app. Qed.

(** ** Saving at once *)

Lemma save_now_post (s : State) (path : string) :
  tasksFile s = Some path -> diskOk s = true ->
  let s' := _saveTasksToFileImmediate s in
  lastSavedJson s' = Some (toSave s)
  /\ writes (trace s')
     = writes (trace s)
       ++ (if decide (lastSavedJson s = Some (toSave s)) then []
           else [toSave s]).
Proof.
  intros Hf Hd. rewrite _saveTasksToFileImmediate_nf.
  unfold saved_after, written_now. rewrite Hf, Hd. fields.
  rewrite writes_app.
  destruct (decide _) as [e|n]; [|now split].
  now rewrite e.
Qed.

Lemma save_now_frame (s : State) :
  let s' := _saveTasksToFileImmediate s in
  tasks s' = tasks s /\ theap s' = theap s /\ wheap s' = wheap s
  /\ pending s' = pending s /\ saveTimer s' = saveTimer s
  /\ tasksFile s' = tasksFile s /\ diskOk s' = diskOk s
  /\ monitors s' = monitors s /\ nextMonitor s' = nextMonitor s
  /\ contexts s' = contexts s /\ browser s' = browser s
  /\ toSave s' = toSave s.
Proof. rewrite _saveTasksToFileImmediate_nf. repeat split. Qed.


(** ** The concurrency ceiling *)

(** C1, at the failing input.  A session request opens a context whatever
    the number of open contexts and whatever [maxPages]; with the default
    ceiling of 6, a burst of 7 task creations ends with 7 contexts open,
    every task running and nothing left waiting. *)
Theorem burst_exceeds_maxPages :
  (forall (b : nat) (s : State),
      contexts (fst (_createIncognitoPageForTask b s))
      = contexts s ++ [nextCtx s]) /\
  exists s : State,
    run (burst 7) default_manager = Some s /\
    maxPages s = 6 /\
    length (contexts s) = 7 /\
    pending s = [] /\
    Forall (fun t => statusOf s t = "running") (tasks s).
Proof.
  split; [reflexivity|].
  eexists. split; [vm_compute; reflexivity|].
  repeat split; try reflexivity.
  repeat constructor.
Qed.

(** ** What leaves [foundHref] and the monitors alone *)

Lemma map_alter_same {A B} (g : A -> B) (f : A -> A) (i : nat) (l : list A) :
  (forall x, g (f x) = g x) -> map g (alter f i l) = map g l.
Proof.
  intros H. revert i. induction l as [|a l IH]; intros [|i]; simpl;
    try reflexivity.
  - now rewrite H.
  - f_equal. apply IH.
Qed.

Lemma core_log o s : core (log o s) = core s.
Proof. reflexivity. Qed.
Lemma core_suspend k s : core (suspend k s) = core s.
Proof. reflexivity. Qed.
Lemma core_set_pending v s : core (set_pending v s) = core s.
Proof. reflexivity. Qed.
Lemma core_set_contexts v s : core (set_contexts v s) = core s.
Proof. reflexivity. Qed.
Lemma core_set_browser v s : core (set_browser v s) = core s.
Proof. reflexivity. Qed.
Lemma core_set_nextBrowser v s : core (set_nextBrowser v s) = core s.
Proof. reflexivity. Qed.
Lemma core_set_contextBrowser v s : core (set_contextBrowser v s) = core s.
Proof. reflexivity. Qed.
Lemma core_set_tasks v s : core (set_tasks v s) = core s.
Proof. reflexivity. Qed.
Lemma core_set_saveTimer v s : core (set_saveTimer v s) = core s.
Proof. reflexivity. Qed.
Lemma core_set_diskOk v s : core (set_diskOk v s) = core s.
Proof. reflexivity. Qed.
Lemma core_set_wheap v s : core (set_wheap v s) = core s.
Proof. reflexivity. Qed.
Lemma core_updWatcher w f s : core (updWatcher w f s) = core s.
Proof. reflexivity. Qed.
Lemma core_broadcast e s : core (_broadcast e s) = core s.
Proof. reflexivity. Qed.
Lemma core_watcher_stopped w s : core (watcher_stopped w s) = core s.
Proof. reflexivity. Qed.

Lemma core_setStatus t v s : core (setStatus t v s) = core s.
Proof.
  unfold core, hrefs, setStatus, updTask. fields.
  now rewrite map_alter_same.
Qed.

Lemma core_set_watcher t v s : core (updTask t (set_watcher v) s) = core s.
Proof.
  unfold core, hrefs, updTask. fields. now rewrite map_alter_same.
Qed.

Lemma core_saveTasksToFile s : core (_saveTasksToFile s) = core s.
Proof. now rewrite _saveTasksToFile_nf. Qed.

Lemma core_saveTasksToFileImmediate s :
  core (_saveTasksToFileImmediate s) = core s.
Proof. now rewrite _saveTasksToFileImmediate_nf. Qed.

Lemma core_broadcastView mk t s : core (broadcastView mk t s) = core s.
Proof. now rewrite broadcastView_nf. Qed.

Lemma core_watcher_stop w s : core (watcher_stop w s) = core s.
Proof. now rewrite watcher_stop_nf. Qed.

Lemma core_watcher_started b w s : core (watcher_started b w s) = core s.
Proof. reflexivity. Qed.

Lemma core_watcher_start_failed a w s :
  core (watcher_start_failed a w s) = core s.
Proof. now destruct a. Qed.

Create Rewrite HintDb core_db.

#[local] Hint Rewrite core_log core_suspend core_set_pending core_set_contexts
  core_set_browser core_set_nextBrowser core_set_contextBrowser
  core_set_tasks core_set_saveTimer core_set_diskOk
  core_set_wheap core_updWatcher core_broadcast core_watcher_stopped
  core_setStatus core_set_watcher core_saveTasksToFile
  core_saveTasksToFileImmediate core_broadcastView core_watcher_stop
  core_watcher_started core_watcher_start_failed : core_db.

(** Case analysis on the tests of a function, then the rewriting. *)
Ltac core_cases :=
  repeat (autorewrite with core_db;
          try match goal with
              | |- context [if ?b then _ else _] => destruct b
              | |- context [match ?x with _ => _ end] => destruct x
              end);
  try reflexivity.

Lemma core_start_new_watcher t c s : core (start_new_watcher t c s) = core s.
Proof. unfold start_new_watcher. core_cases. Qed.
#[local] Hint Rewrite core_start_new_watcher : core_db.

Lemma core_startTaskWatcher t c s : core (_startTaskWatcher t c s) = core s.
Proof. unfold _startTaskWatcher. core_cases. Qed.
#[local] Hint Rewrite core_startTaskWatcher : core_db.

Lemma core_stop_finish tid t s : core (stop_finish tid t s) = core s.
Proof. unfold stop_finish. core_cases. Qed.
#[local] Hint Rewrite core_stop_finish : core_db.

Lemma core_stopTask tid s : core (stopTask tid s) = core s.
Proof. unfold stopTask. core_cases. Qed.

Lemma core_delete_finish tid idx s : core (delete_finish tid idx s) = core s.
Proof. unfold delete_finish. core_cases. Qed.
#[local] Hint Rewrite core_delete_finish : core_db.

Lemma core_deleteTask tid s : core (deleteTask tid s) = core s.
Proof. unfold deleteTask. core_cases. Qed.

Lemma core_foldl {A} (f : State -> A -> State) (l : list A) (s : State) :
  (forall s a, core (f s a) = core s) -> core (foldl f s l) = core s.
Proof.
  intros H. revert s. induction l as [|a l IH]; intros s; simpl;
    [reflexivity|].
  now rewrite IH, H.
Qed.

Lemma core_mark_starting s : core (mark_starting s) = core s.
Proof.
  unfold mark_starting. apply core_foldl. intros s0 t. core_cases.
Qed.

Lemma core_reload_after_stops rid t0 s :
  core (reload_after_stops rid t0 s) = core s.
Proof. unfold reload_after_stops. core_cases. Qed.
#[local] Hint Rewrite core_mark_starting core_reload_after_stops : core_db.

Lemma core_stopAllWatchers rid t0 s : core (stopAllWatchers rid t0 s) = core s.
Proof.
  unfold stopAllWatchers.
  assert (H : core (foldl (fun s p => watcher_stop (snd p) s) s (stop_items s))
              = core s).
  { apply core_foldl. intros. now autorewrite with core_db. }
  destruct (stop_items s); autorewrite with core_db; exact H.
Qed.
#[local] Hint Rewrite core_stopAllWatchers : core_db.

Lemma core_reloadTask rid s : core (reloadTask rid s) = core s.
Proof. unfold reloadTask. core_cases. Qed.

Lemma core_stop_item_done t w s : core (stop_item_done t w s) = core s.
Proof. unfold stop_item_done. core_cases. Qed.

Lemma core_restart_loop rid t0 l s : core (restart_loop rid t0 l s) = core s.
Proof.
  revert s. induction l as [|t l IH]; intros s; simpl.
  - core_cases.
  - destruct (watcherOf s t); [apply IH|]. now autorewrite with core_db.
Qed.
#[local] Hint Rewrite core_stop_item_done core_restart_loop : core_db.

Lemma core_restartAllWatchers rid t0 s :
  core (restartAllWatchers rid t0 s) = core s.
Proof. unfold restartAllWatchers. now autorewrite with core_db. Qed.

Lemma core_found_rest t s : core (found_rest t s) = core s.
Proof. unfold found_rest. core_cases. Qed.

Lemma core_shutdown_finish s : core (shutdown_finish s) = core s.
Proof. unfold shutdown_finish. core_cases. Qed.
#[local] Hint Rewrite core_restartAllWatchers core_found_rest
  core_shutdown_finish : core_db.

Lemma core_shutdown_scan l i s : core (shutdown_scan l i s) = core s.
Proof.
  revert i s. induction l as [|t l IH]; intros i s; simpl.
  - now autorewrite with core_db.
  - destruct (watcherOf s t); [now autorewrite with core_db|].
    now rewrite IH, core_setStatus.
Qed.
#[local] Hint Rewrite core_shutdown_scan : core_db.

Lemma core_after_start_ok c t s : core (after_start_ok c t s) = core s.
Proof. unfold after_start_ok. destruct c; core_cases. Qed.

Lemma core_after_start_failed c t m s :
  core (after_start_failed c t m s) = core s.
Proof. unfold after_start_failed. destruct c; core_cases. Qed.
#[local] Hint Rewrite core_after_start_ok core_after_start_failed : core_db.

Lemma core_detectorFound w h s s' :
  detectorFound w h s = Some s' -> core s' = core s.
Proof.
  unfold detectorFound. intros H.
  destruct (wheap s !! w) as [x|]; [|discriminate].
  destruct (page x); [|discriminate].
  destruct (bool_decide _); [|discriminate].
  destruct (found x); inversion H; reflexivity.
Qed.

Lemma core_saveTimerFires s s' : saveTimerFires s = Some s' -> core s' = core s.
Proof.
  unfold saveTimerFires. destruct (saveTimer s); [|discriminate].
  intros H; inversion H. now autorewrite with core_db.
Qed.

Lemma core_post_api_tasks b now rnd created s :
  core (post_api_tasks b now rnd created s)
  = (hrefs s ++ (if valid_body b then [None] else []),
     monitors s, nextMonitor s).
Proof.
  unfold post_api_tasks, valid_body, createTask.
  destruct (truthy (s_location b)), (truthy (s_cinemaUrl b)),
    (truthy (s_identifier b)); cbn [negb orb andb];
    try (autorewrite with core_db; unfold core; now rewrite app_nil_r).
  autorewrite with core_db. unfold core, hrefs. fields.
  now rewrite map_app.
Qed.

Lemma core_add_monitor t s :
  core (add_monitor t s)
  = (hrefs s, monitors s ++ [(nextMonitor s, t)], S (nextMonitor s)).
Proof. reflexivity. Qed.

Lemma core_clearInterval m s :
  core (clearInterval m s)
  = (hrefs s, filter (fun p => fst p ≠ m) (monitors s), nextMonitor s).
Proof. reflexivity. Qed.

(** Resuming a suspended function: only a resolved start adds a monitor,
    and only the end of a [page.evaluate] writes a [foundHref]. *)
Lemma core_resume k o s s' :
  resume k o s = Some s' ->
  match k, o with
  | KStart t _ _ _, StartOk =>
      core s' = (hrefs s, monitors s ++ [(nextMonitor s, t)],
                 S (nextMonitor s))
  | KFoundEval _, Evaluated _ =>
      monitors s' = monitors s /\ nextMonitor s' = nextMonitor s
  | _, _ => core s' = core s
  end.
Proof.
  intros H. unfold browser_launched in H.
  destruct k, o; cbn [resume] in H; try discriminate;
    try (destruct attached; try discriminate);
    try (inversion H; subst; autorewrite with core_db; reflexivity).
  - destruct (items !! j) as [[t w]|]; [|discriminate].
    destruct (delete j items); inversion H; subst;
      now autorewrite with core_db.
  - inversion H; subst.
    assert (E : core (found_rest t
                        (if truthy maybe
                         then updTask t (on_data (set_foundHref maybe)) s
                         else s))
                = core (if truthy maybe
                        then updTask t (on_data (set_foundHref maybe)) s
                        else s)) by apply core_found_rest.
    unfold core in E. inversion E as [[E1 E2 E3]].
    rewrite E2, E3. now destruct (truthy maybe).
Qed.

Lemma core_monitorTick m s s' :
  monitorTick m s = Some s' ->
  nextMonitor s' = nextMonitor s
  /\ (monitors s' = monitors s
      \/ monitors s' = filter (fun p => fst p ≠ m) (monitors s)).
Proof.
  unfold monitorTick. intros H.
  destruct (monitorTask m s) as [t|]; [|discriminate].
  destruct (watcherOf s t) as [w|].
  - destruct (wheap s !! w) as [x|]; [|discriminate].
    destruct (found x).
    + destruct (theap _ !! t) as [task|]; [|discriminate].
      destruct (_ && _); inversion H; subst.
      * split; [reflexivity|]. right. reflexivity.
      * match goal with
        | |- context [found_rest t ?X] =>
            pose proof (core_found_rest t X) as E
        end.
        unfold core in E. inversion E as [[E1 E2 E3]].
        rewrite E2, E3. split; [reflexivity|]. right. reflexivity.
    + inversion H; subst. split; [reflexivity|]. now left.
  - inversion H; subst. split; [reflexivity|]. now right.
Qed.

(** A step outside the found-completion sequence keeps the [foundHref] of
    every task object; task creation adds an object whose [foundHref] is
    null. *)
Lemma step_hrefs l s s' :
  step l s = Some s' -> in_found_sequence l = false ->
  exists ext, hrefs s' = hrefs s ++ ext.
Proof.
  intros H Hl.
  assert (Hc : core s' = core s -> exists ext, hrefs s' = hrefs s ++ ext).
  { intros E. exists []. unfold core in E. inversion E as [[E1 E2 E3]].
    now rewrite app_nil_r. }
  destruct l; cbn [step in_found_sequence] in *; try discriminate.
  - inversion H; subst.
    pose proof (core_post_api_tasks body now rnd created s) as E.
    unfold core at 1 in E. inversion E as [[E1 E2 E3]]. eauto.
  - inversion H; subst. apply Hc, core_stopTask.
  - inversion H; subst. apply Hc, core_deleteTask.
  - inversion H; subst. apply Hc, core_reloadTask.
  - inversion H; subst. apply Hc. unfold shutdown.
    now autorewrite with core_db.
  - apply Hc. eapply core_saveTimerFires; eassumption.
  - apply Hc. eapply core_detectorFound; eassumption.
  - destruct (pending s !! i) as [k|]; [|discriminate].
    apply core_resume in H.
    destruct k, o; try discriminate;
      try (apply Hc; rewrite H; reflexivity).
    unfold core at 1 in H. inversion H as [[E1 E2 E3]].
    exists []. now rewrite app_nil_r.
  - inversion H; subst. now apply Hc.
Qed.

(** Monitors are only added with a fresh id, or cancelled. *)
Lemma step_monitors l s s' :
  step l s = Some s' ->
  nextMonitor s <= nextMonitor s'
  /\ forall p, p ∈ monitors s' ->
       p ∈ monitors s \/ nextMonitor s <= fst p < nextMonitor s'.
Proof.
  intros H.
  assert (Hc : core s' = core s ->
               nextMonitor s <= nextMonitor s'
               /\ forall p, p ∈ monitors s' ->
                    p ∈ monitors s \/ nextMonitor s <= fst p < nextMonitor s').
  { intros E. unfold core in E. inversion E as [[E1 E2 E3]].
    split; [lia|]. intros p Hp. now left. }
  destruct l; cbn [step] in *.
  - inversion H; subst.
    pose proof (core_post_api_tasks body now rnd created s) as E.
    unfold core at 1 in E. inversion E as [[E1 E2 E3]].
    split; [lia|]. intros p Hp. now left.
  - inversion H; subst. apply Hc, core_stopTask.
  - inversion H; subst. apply Hc, core_deleteTask.
  - inversion H; subst. apply Hc, core_reloadTask.
  - inversion H; subst. apply Hc. unfold shutdown.
    now autorewrite with core_db.
  - apply Hc. eapply core_saveTimerFires; eassumption.
  - apply core_monitorTick in H as [E [E'|E']]; rewrite E, E'.
    + split; [lia|]. intros p Hp. now left.
    + split; [lia|]. intros p Hp. left.
      apply list_elem_of_filter in Hp. tauto.
  - apply Hc. eapply core_detectorFound; eassumption.
  - destruct (pending s !! i) as [k|]; [|discriminate].
    apply core_resume in H.
    destruct k, o; try discriminate;
      try (apply Hc; rewrite H; reflexivity).
    + unfold core at 1 in H. inversion H as [[E1 E2 E3]].
      split; [lia|]. intros p Hp. rewrite E2 in Hp.
      apply elem_of_app in Hp as [Hp|Hp].
      * now left.
      * apply list_elem_of_singleton in Hp. subst p. right.
        simpl. lia.
    + destruct H as [E2 E3]. rewrite E2, E3. fields.
      split; [lia|]. intros p Hp. now left.
  - inversion H; subst. now apply Hc.
Qed.

(** ** foundHref and the status *)

Lemma hrefs_lookup (s : State) (t : nat) :
  hrefs s !! t = (fun task => foundHref (data task)) <$> theap s !! t.
Proof. apply list_lookup_fmap. Qed.

Lemma found_rest_spec (t : nat) (task : Task) (s : State) :
  theap s !! t = Some task -> found_rest_post t task s (found_rest t s).
Proof.
  intros Hlook. unfold found_rest, found_rest_post.
  rewrite broadcastView_nf, _saveTasksToFile_nf. fields.
  rewrite Hlook. fields. unfold watcherOf.
  destruct (automation s); fields; rewrite Hlook;
    destruct (watcher task); rewrite ?watcher_stop_nf;
    fields; rewrite <- ?app_assoc; repeat split.
Qed.

(** C3, as amended.  A step of the manager outside the found-completion
    sequence (a create, stop, delete, reload, shutdown or resume, a save, a
    detector signal) leaves the [foundHref] of every task as it was.  The
    tick of a monitor changes the [foundHref] of its own task only, and
    leaves that task with status [found]; the end of the wait for
    [page.evaluate] changes the [foundHref] of the task being completed
    only, to the href the page gave. *)
Theorem foundHref_written_by_found_only (l : Label) (s s' : State) (t : nat)
    (task : Task) :
  step l s = Some s' -> theap s !! t = Some task ->
  exists task',
    theap s' !! t = Some task' /\
    match l with
    | MonitorTick m =>
        foundHref (data task') = foundHref (data task)
        \/ (status (data task') = "found" /\ monitorTask m s = Some t)
    | Resume i (Evaluated maybe) =>
        foundHref (data task') = foundHref (data task)
        \/ (foundHref (data task') = maybe
            /\ pending s !! i = Some (KFoundEval t))
    | _ => foundHref (data task') = foundHref (data task)
    end.
Proof.
  intros Hstep Hlook.
  assert (Hquiet : in_found_sequence l = false ->
            exists task', theap s' !! t = Some task'
                          /\ foundHref (data task') = foundHref (data task)).
  { intros Hl. destruct (step_hrefs l s s' Hstep Hl) as [ext He].
    assert (Hh : hrefs s' !! t = Some (foundHref (data task))).
    { rewrite He, lookup_app_l.
      - now rewrite hrefs_lookup, Hlook.
      - unfold hrefs. rewrite length_map. eapply lookup_lt_Some; eauto. }
    rewrite hrefs_lookup in Hh.
    destruct (theap s' !! t) as [task'|]; [|discriminate].
    exists task'. split; [reflexivity|]. now inversion Hh. }
  destruct l; try (apply Hquiet; reflexivity).
  - (* the tick of a monitor *)
    cbn [step] in Hstep. unfold monitorTick in Hstep.
    destruct (monitorTask m s) as [t0|] eqn:Hm; [|discriminate].
    destruct (watcherOf s t0) as [w|].
    + destruct (wheap s !! w) as [x|]; [|discriminate].
      destruct (found x).
      * assert (Hheap : theap s'
                  = alter (on_data (fun d =>
                            set_foundHref
                              (orNull (orElse (w_foundHref x) (foundHref d)))
                              (set_status "found" d))) t0 (theap s)).
        { destruct (theap _ !! t0) as [task0|] eqn:H0; [|discriminate].
          destruct (_ && _); inversion Hstep; subst; [reflexivity|].
          destruct (found_rest_spec t0 task0 _ H0) as (_ & Hh & _).
          rewrite Hh. reflexivity. }
        rewrite Hheap. destruct (decide (t = t0)) as [->|Hne].
        -- rewrite list_lookup_alter_eq, Hlook. eexists.
           split; [reflexivity|]. right. split; reflexivity.
        -- rewrite list_lookup_alter_ne by congruence.
           exists task. split; [assumption|]. now left.
      * inversion Hstep; subst. exists task. split; [assumption|]. now left.
    + inversion Hstep; subst. exists task. split; [assumption|]. now left.
  - (* resuming a suspended function *)
    destruct o; try (apply Hquiet; reflexivity).
    cbn [step] in Hstep.
    destruct (pending s !! i) as [k|] eqn:Hk; [|discriminate].
    destruct k; cbn [resume] in Hstep; try discriminate.
    inversion Hstep; subst. clear Hstep.
    set (s0 := set_pending (delete i (pending s)) s).
    assert (Hth : theap s0 = theap s) by reflexivity.
    destruct (truthy maybe) eqn:Hmaybe.
    + destruct (decide (t = t0)) as [->|Hne].
      * assert (Hnew : theap (updTask t0 (on_data (set_foundHref maybe)) s0)
                       !! t0 = Some (on_data (set_foundHref maybe) task)).
        { fields. now rewrite Hth, list_lookup_alter_eq, Hlook. }
        destruct (found_rest_spec t0 _ _ Hnew) as (_ & Hh & _).
        rewrite Hh, Hnew. eexists.
        split; [reflexivity|]. right. split; reflexivity.
      * assert (Hother : theap (updTask t0 (on_data (set_foundHref maybe)) s0)
                         !! t = Some task).
        { fields. now rewrite Hth, list_lookup_alter_ne by congruence. }
        exists task. split; [|now left].
        destruct (theap (updTask t0 (on_data (set_foundHref maybe)) s0) !! t0)
          as [task0|] eqn:H0.
        -- destruct (found_rest_spec t0 task0 _ H0) as (_ & Hh & _).
           now rewrite Hh.
        -- unfold found_rest. rewrite broadcastView_nf, _saveTasksToFile_nf.
           fields. fields. rewrite H0. fields. unfold watcherOf.
           destruct (automation s0); fields; rewrite H0; fields;
             exact Hother.
    + exists task. split; [|now left].
      destruct (theap s0 !! t0) as [task0|] eqn:H0.
      * destruct (found_rest_spec t0 task0 _ H0) as (_ & Hh & _).
        now rewrite Hh.
      * unfold found_rest. rewrite broadcastView_nf, _saveTasksToFile_nf.
        fields. rewrite H0. fields. unfold watcherOf.
        destruct (automation s0); fields; rewrite H0; fields; exact Hlook.
Qed.

Lemma foundHref_written_by_found_only_witness :
  let s := after [Resume 0 Launched; Resume 0 StartOk;
                  DetectorFound 0 (Some sample_href);
                  MonitorTick 0; Resume 0 Resolved]
                 (manager_of [persisted "task-B" "running" None]) in
  step (StopTask "task-B") s = Some (stopTask "task-B" s)
  /\ exists task', theap (stopTask "task-B" s) !! 0 = Some task'
                   /\ foundHref (data task') = Some sample_href.
Proof.
  intros s. split; [reflexivity|].
  exact (foundHref_written_by_found_only (StopTask "task-B") s
           (stopTask "task-B" s) 0
           {| data := persisted "task-B" "found" (Some sample_href);
              watcher := None |} eq_refl eq_refl).
Defined.

(** C3 as stated fails in both directions: a task that was found and is
    then stopped has status [stopped] and keeps its [foundHref]; a task
    found through a link without an href has status [found] and a null
    [foundHref] once the sequence is over, with no watcher and no monitor
    left to change it. *)
Lemma foundHref_without_found_status :
  (exists s : State,
      run found_then_stopped (manager_of [persisted "task-B" "running" None])
      = Some s
      /\ theap s !! 0
         = Some {| data := persisted "task-B" "stopped" (Some sample_href);
                   watcher := None |})
  /\
  (exists s : State,
      run found_without_href (manager_of [persisted "task-B" "running" None])
      = Some s
      /\ theap s !! 0
         = Some {| data := persisted "task-B" "found" None; watcher := None |}
      /\ pending s = [] /\ monitors s = []).
Proof.
  split.
  - eexists. split; [vm_compute; reflexivity|]. reflexivity.
  - eexists. split; [vm_compute; reflexivity|]. repeat split.
Qed.

(** ** The monitor and the found-completion sequence *)

Lemma monitorTask_Some (m t : nat) (s : State) :
  monitorTask m s = Some t -> (m, t) ∈ monitors s.
Proof.
  unfold monitorTask. intros H.
  destruct (List.find _ (monitors s)) as [[m' t']|] eqn:Hf; [|discriminate].
  apply List.find_some in Hf as [Hin Heq]. cbn in *.
  apply Nat.eqb_eq in Heq. inversion H; subst.
  now apply list_elem_of_In.
Qed.

Lemma monitorTask_cancelled (m : nat) (s : State) :
  (forall p, p ∈ monitors s -> fst p <> m) -> monitorTask m s = None.
Proof.
  intros H. unfold monitorTask.
  destruct (List.find _ (monitors s)) as [p|] eqn:Hf; [|reflexivity].
  apply List.find_some in Hf as [Hin Heq].
  apply Nat.eqb_eq in Heq. apply list_elem_of_In in Hin.
  now apply H in Hin.
Qed.

Lemma monitorTick_cancelled (m : nat) (s : State) :
  (forall p, p ∈ monitors s -> fst p <> m) -> monitorTick m s = None.
Proof.
  intros H. unfold monitorTick. now rewrite monitorTask_cancelled.
Qed.

(** Monitor ids are not reused: a cancelled monitor stays cancelled. *)
Lemma cancelled_for_good (m : nat) (ls : list Label) :
  forall s s' : State,
    run ls s = Some s' ->
    (forall p, p ∈ monitors s -> fst p <> m) -> m < nextMonitor s ->
    (forall p, p ∈ monitors s' -> fst p <> m) /\ m < nextMonitor s'.
Proof.
  induction ls as [|l ls IH]; intros s s' Hrun Hdead Hlt; cbn [run] in Hrun.
  - inversion Hrun; subst. now split.
  - destruct (step l s) as [s1|] eqn:Hstep; [|discriminate].
    destruct (step_monitors l s s1 Hstep) as [Hle Hin].
    apply (IH s1 s' Hrun); [|lia].
    intros p Hp. destruct (Hin p Hp) as [Hold|Hnew]; [now apply Hdead|lia].
Qed.

Lemma monitors_fresh_step (l : Label) (s s' : State) :
  step l s = Some s' -> monitors_fresh s -> monitors_fresh s'.
Proof.
  intros Hstep Hfresh. destruct (step_monitors l s s' Hstep) as [Hle Hin].
  unfold monitors_fresh in *. rewrite Forall_forall in *.
  intros p Hp. destruct (Hin p Hp) as [Hold|Hnew]; [|lia].
  specialize (Hfresh p Hold). lia.
Qed.

Lemma monitors_fresh_new (mp : nat) (file : option string) (auto ok : bool)
    (disk : option FileJson) :
  monitors_fresh (new_manager mp file auto ok disk).
Proof.
  assert (H : monitors (new_manager mp file auto ok disk) = []).
  { unfold new_manager, _loadTasksFromFile.
    assert (Hload : forall records s,
               monitors (load_records records s) = monitors s).
    { intros records s. unfold load_records.
      match goal with
      | |- monitors (foldl resume_step ?X ?l) = _ =>
          assert (E : core (foldl resume_step X l) = core X)
      end.
      { apply core_foldl. intros s0 t. unfold resume_step, _resumeTaskWatcher.
        destruct (needs_resume _); [|reflexivity].
        now rewrite core_startTaskWatcher, core_setStatus. }
      unfold core in E. now inversion E. }
    destruct file as [path|]; cbn [tasksFile empty_manager]; [|reflexivity].
    destruct disk as [[records| |]|]; rewrite ?Hload; try reflexivity.
    cbn [diskOk empty_manager]. destruct ok; rewrite ?Hload; reflexivity. }
  unfold monitors_fresh. rewrite H. constructor.
Qed.

(** What one monitor does.  When the tick of a live monitor observes the
    latch of the watcher of its task, whatever the status of the task: the
    monitor is cancelled and never ticks again; the task gets status [found] and
    the href of the watcher, or else its own; then either the sequence
    waits for [page.evaluate], nothing having gone out yet, or it goes on
    at once: the debounced save is scheduled, one [found] and one
    [alarmStarted] event are broadcast, the automation is called once if
    there is one, and the watcher is stopped, which resets its latch, its
    detachment pending.  After the wait the sequence goes on in the same
    way.  A repeated signal of the detector changes nothing. *)
Lemma monitor_runs_sequence_once (s : State) (m t w : nat) (x : Watcher)
    (task : Task) :
  monitors_fresh s ->
  monitorTask m s = Some t -> theap s !! t = Some task ->
  watcher task = Some w -> wheap s !! w = Some x -> found x = true ->
  exists s',
    monitorTick m s = Some s'
    /\ (forall h s1, detectorFound w h s = Some s1 -> s1 = s)
    /\ monitorTask m s' = None
    /\ (forall ls s'', run ls s' = Some s'' -> monitorTick m s'' = None)
    /\ theap s' !! t = Some (found_task x task)
    /\ (if negb (truthy (found_href x task)) && bool_decide (is_Some (page x))
        then trace s' = trace s /\ pending s' = pending s ++ [KFoundEval t]
             /\ wheap s' = wheap s
        else trace s'
             = trace s
               ++ [Broadcast (EvFound (safeTaskView (found_task x task)));
                   Broadcast (EvAlarmStarted (id (data task))
                                             (identifier (data task)))]
               ++ (if automation s then [Automation t] else [])
             /\ pending s' = pending s ++ [KFoundStop t w]
             /\ wheap s' !! w = Some (stopped_watcher x)
             /\ saveTimer s' = match tasksFile s with
                               | Some _ => true
                               | None => saveTimer s
                               end)
    /\ (forall (s1 : State) (task1 : Task) (maybe : option string),
          theap s1 !! t = Some task1 ->
          let task2 := if truthy maybe
                       then on_data (set_foundHref maybe) task1 else task1 in
          exists s2,
            resume (KFoundEval t) (Evaluated maybe) s1 = Some s2
            /\ theap s2 !! t = Some task2
            /\ trace s2
               = trace s1
                 ++ [Broadcast (EvFound (safeTaskView task2));
                     Broadcast (EvAlarmStarted (id (data task1))
                                               (identifier (data task1)))]
                 ++ (if automation s1 then [Automation t] else [])).
Proof.
  intros Hfresh Hm Hlook Hw Hx Hfound.
  assert (Hin : (m, t) ∈ monitors s) by now apply monitorTask_Some.
  assert (Hlt : m < nextMonitor s).
  { unfold monitors_fresh in Hfresh. rewrite Forall_forall in Hfresh.
    exact (Hfresh _ Hin). }
  set (s2 := updTask t (on_data (fun d =>
               set_foundHref (orNull (orElse (w_foundHref x) (foundHref d)))
                 (set_status "found" d))) (clearInterval m s)).
  assert (Hlook2 : theap s2 !! t = Some (found_task x task)).
  { subst s2. fields. now rewrite list_lookup_alter_eq, Hlook. }
  assert (Hdead2 : forall p, p ∈ monitors s2 -> fst p <> m).
  { subst s2. fields. intros p Hp. apply list_elem_of_filter in Hp. tauto. }
  assert (Hgood : forall s' : State,
             monitors s' = monitors s2 -> nextMonitor s' = nextMonitor s2 ->
             monitorTask m s' = None
             /\ forall ls s'', run ls s' = Some s'' ->
                               monitorTick m s'' = None).
  { intros s' Em En. split.
    - apply monitorTask_cancelled. now rewrite Em.
    - intros ls s'' Hrun. apply monitorTick_cancelled.
      eapply cancelled_for_good; [exact Hrun| |].
      + now rewrite Em.
      + rewrite En. exact Hlt. }
  assert (Htick : monitorTick m s
                  = if negb (truthy (found_href x task))
                       && bool_decide (is_Some (page x))
                    then Some (suspend (KFoundEval t) s2)
                    else Some (found_rest t s2)).
  { unfold monitorTick. rewrite Hm. unfold watcherOf.
    rewrite Hlook, Hw, Hx, Hfound. fold s2. rewrite Hlook2. reflexivity. }
  rewrite Htick.
  assert (Hlatch : forall h s1, detectorFound w h s = Some s1 -> s1 = s).
  { intros h s1 H. unfold detectorFound in H. rewrite Hx in H.
    cbv beta iota in H. rewrite Hfound in H.
    destruct (page x) as [c|]; [|discriminate].
    destruct (bool_decide (c ∈ contexts s)); [|discriminate].
    now inversion H. }
  assert (Hlater : forall (s1 : State) (task1 : Task) (maybe : option string),
            theap s1 !! t = Some task1 ->
            let task2 := if truthy maybe
                         then on_data (set_foundHref maybe) task1
                         else task1 in
            exists s3,
              resume (KFoundEval t) (Evaluated maybe) s1 = Some s3
              /\ theap s3 !! t = Some task2
              /\ trace s3
                 = trace s1
                   ++ [Broadcast (EvFound (safeTaskView task2));
                       Broadcast (EvAlarmStarted (id (data task1))
                                                 (identifier (data task1)))]
                   ++ (if automation s1 then [Automation t] else [])).
  { intros s1 task1 maybe H1. cbv zeta. cbn [resume]. eexists.
    split; [reflexivity|].
    destruct (truthy maybe).
    - assert (Hn : theap (updTask t (on_data (set_foundHref maybe)) s1) !! t
                   = Some (on_data (set_foundHref maybe) task1)).
      { fields. now rewrite list_lookup_alter_eq, H1. }
      destruct (found_rest_spec t _ _ Hn) as (Htr & Hh & _).
      rewrite Hh, Hn, Htr. split; reflexivity.
    - destruct (found_rest_spec t _ _ H1) as (Htr & Hh & _).
      rewrite Hh, H1, Htr. split; reflexivity. }
  destruct (negb (truthy (found_href x task))
            && bool_decide (is_Some (page x))).
  - eexists. split; [reflexivity|]. split; [exact Hlatch|].
    destruct (Hgood (suspend (KFoundEval t) s2) eq_refl eq_refl) as [G1 G2].
    split; [exact G1|]. split; [exact G2|]. split; [exact Hlook2|].
    split; [|exact Hlater]. repeat split.
  - destruct (found_rest_spec t _ s2 Hlook2) as (Htr & Hh & Hs & _ & Hp).
    cbn [found_task on_data watcher] in Hp. rewrite Hw in Hp.
    destruct Hp as [Hp Hwh].
    pose proof (core_found_rest t s2) as Hc. unfold core in Hc.
    inversion Hc as [[Eh Em En]].
    destruct (Hgood (found_rest t s2) Em En) as [G1 G2].
    eexists. split; [reflexivity|]. split; [exact Hlatch|].
    split; [exact G1|]. split; [exact G2|].
    split; [now rewrite Hh|]. split; [|exact Hlater].
    split; [exact Htr|]. split; [exact Hp|]. split; [|exact Hs].
    rewrite Hwh. subst s2. fields. now rewrite list_lookup_alter_eq, Hx.
Qed.

Lemma monitor_runs_sequence_once_witness :
  let s := after [Resume 0 Launched; Resume 0 StartOk;
                  DetectorFound 0 (Some sample_href)]
                 (manager_of [persisted "task-B" "running" None]) in
  monitorTask 0 s = Some 0
  /\ exists s', monitorTick 0 s = Some s' /\ monitorTask 0 s' = None
                /\ statusOf s' 0 = "found".
Proof.
  intros s. split; [vm_compute; reflexivity|].
  destruct (monitor_runs_sequence_once s 0 0 0
              {| running := true; found := true;
                 w_foundHref := Some sample_href; page := Some 0;
                 reloadTimer := true; rotateTimer := true |}
              {| data := persisted "task-B" "running" None;
                 watcher := Some 0 |})
    as (s' & Htick & _ & Hdead & _ & Hlook & _).
  - unfold monitors_fresh. vm_compute. repeat constructor.
  - vm_compute; reflexivity.
  - vm_compute; reflexivity.
  - reflexivity.
  - vm_compute; reflexivity.
  - reflexivity.
  - exists s'. split; [exact Htick|]. split; [exact Hdead|].
    unfold statusOf. rewrite Hlook. reflexivity.
Defined.

(** C2, at the failing input.  The monitor of a start is cancelled by its
    own tick only, so it survives a reload and polls the new watcher
    beside the monitor of the restart.  The detector signals once, a link
    without an href.  The first tick sets the status to [found] and waits
    for [page.evaluate]; the tick of the other monitor is not refused,
    though the status is [found] by then: it finds the latch still set
    and runs the sequence again.  The one task gets two [found] events,
    two [alarmStarted] events and two calls of the automation. *)
Theorem found_sequence_runs_twice :
  exists s : State,
    run found_twice default_manager = Some s
    /\ length (List.filter (fun l => match l with
                                     | DetectorFound _ _ => true
                                     | _ => false
                                     end) found_twice) = 1
    /\ statusOf (after (firstn 9 found_twice) default_manager) 0 = "found"
    /\ is_Some (monitorTick 1 (after (firstn 9 found_twice) default_manager))
    /\ length (tasks s) = 1
    /\ statusOf s 0 = "found"
    /\ length (List.filter (is_found_event "task-1000-k3x")
                 (broadcasts (trace s))) = 2
    /\ length (List.filter (is_alarm_event "task-1000-k3x")
                 (broadcasts (trace s))) = 2
    /\ automation_calls (trace s) = [0; 0].
Proof.
  eexists. split; [vm_compute; reflexivity|].
  repeat split; try (vm_compute; reflexivity).
  vm_compute. eexists. reflexivity.
Qed.
(** ** Creating a task *)

Lemma length_substring (n m : nat) (str : string) :
  String.length (substring n m str) <= m
  /\ (n + m <= String.length str -> String.length (substring n m str) = m).
Proof.
  revert n m. induction str as [|c str IH]; intros [|n] [|m];
    cbn [substring String.length]; try (split; lia).
  - destruct (IH 0 m) as [H1 H2]. split; [lia|]. intros H. rewrite H2; lia.
  - destruct (IH n 0) as [H1 H2]. split; [lia|]. intros H. apply H2. lia.
  - destruct (IH n (S m)) as [H1 H2]. split; [lia|]. intros H. apply H2. lia.
Qed.

Lemma get_substring (n m i : nat) (str : string) :
  i < m -> String.get i (substring n m str) = String.get (n + i) str.
Proof.
  revert n m i. induction str as [|c str IH]; intros [|n] [|m] [|i] H;
    cbn [substring String.get Nat.add]; try lia; try reflexivity.
  - apply (IH 0 m i). lia.
  - apply (IH n (S m) 0). lia.
  - apply (IH n (S m) (S i)). lia.
Qed.

(** The id of a new task ends in the characters 2, 3 and 4 of the text of
    the random number, as many as there are: [0.i] gives one and [0]
    none. *)
Lemma task_id_suffix (now : N) (rnd : string) :
  task_id now rnd = ("task-" ++ dec now ++ "-" ++ slice 2 5 rnd)%string
  /\ String.length (slice 2 5 rnd) <= 3
  /\ (5 <= String.length rnd -> String.length (slice 2 5 rnd) = 3)
  /\ (forall i, i < 3 ->
        String.get i (slice 2 5 rnd) = String.get (2 + i) rnd)
  /\ task_id 5 "0.i" = "task-5-i" /\ task_id 5 "0" = "task-5-".
Proof.
  split; [reflexivity|]. unfold slice. cbn [Nat.sub].
  destruct (length_substring 2 3 rnd) as [H1 H2].
  split; [exact H1|]. split; [intros H; apply H2; lia|].
  split; [intros i Hi; now apply get_substring|].
  split; reflexivity.
Qed.

(** C4, as amended.  The route rejects a body whose location, target URL
    or identifier is empty or missing with a 400 reply and leaves the
    manager as it was.  Otherwise [createTask], which checks nothing itself,
    names the task after the clock and at most three characters of the
    text of a random number, appends it with status [starting], its
    optional fields null when they are empty or missing, schedules the
    debounced write (nothing is written yet), broadcasts [taskCreated] and
    returns the id, while the start of the watcher is still pending, on
    the launch of a browser if there is none: no page has been opened. *)
Theorem post_api_tasks_spec (b : TaskSpec) (now : N) (rnd : string)
    (created : N) (s : State) :
  let s' := post_api_tasks b now rnd created s in
  if valid_body b then
    let t := length (theap s) in
    let w := length (wheap s) in
    let task := new_task b now rnd created in
    tasks s' = tasks s ++ [t]
    /\ theap s' = theap s ++ [set_watcher (Some w) task]
    /\ wheap s' = wheap s ++ [starting_watcher]
    /\ id (data task) = ("task-" ++ dec now ++ "-" ++ slice 2 5 rnd)%string
    /\ String.length (slice 2 5 rnd) <= 3
    /\ (forall i, i < 3 ->
          String.get i (slice 2 5 rnd) = String.get (2 + i) rnd)
    /\ status (data task) = "starting"
    /\ createdAt (data task) = created
    /\ foundHref (data task) = None
    /\ href (data task) = s_cinemaUrl b
    /\ Some (identifier (data task)) = s_identifier b
    /\ bookingSettings (data task) = orNull (s_bookingSettings b)
    /\ bookingSettings (safeTaskView task) = orNull (s_bookingSettings b)
    /\ saveTimer s' = match tasksFile s with
                     | Some _ => true
                     | None => saveTimer s
                     end
    /\ lastSavedJson s' = lastSavedJson s
    /\ trace s' = trace s
         ++ [Broadcast (EvTaskCreated (safeTaskView task));
             Returned (HttpCreated (id (data task)))]
    /\ pending s'
       = pending s ++ [match browser s with
                       | Some br => KStart t w FromCreate br
                       | None => KLaunch t w FromCreate
                       end]
    /\ contexts s' = contexts s
    /\ browser s' = browser s
    /\ monitors s' = monitors s
  else s' = log (Returned bad_request) s.
Proof.
  unfold post_api_tasks, valid_body, bad_request.
  destruct (truthy (s_location b)); simpl; [|reflexivity].
  destruct (truthy (s_cinemaUrl b)) eqn:Hu; simpl; [|reflexivity].
  destruct (truthy (s_identifier b)) eqn:Hi; simpl; [|reflexivity].
  destruct (task_id_suffix now rnd) as (_ & Hlen & _ & Hget & _).
  unfold _startTaskWatcher, watcherOf, _broadcast, _saveTasksToFile.
  assert (Hw : forall s0 : State,
             theap s0 = theap s ++ [new_task b now rnd created] ->
             match theap s0 !! length (theap s) with
             | Some task => watcher task
             | None => None
             end = None).
  { intros s0 ->. now rewrite lookup_snoc. }
  assert (Hor : forall x, truthy x = true -> orNull x = x).
  { intros x Hx. unfold orNull. now rewrite Hx. }
  assert (Hid : Some match orNull (s_identifier b) with
                     | Some v => v
                     | None => ""
                     end = s_identifier b).
  { rewrite (Hor _ Hi). destruct (s_identifier b); [reflexivity|discriminate]. }
  assert (Hbs : orNull (orNull (s_bookingSettings b))
                = orNull (s_bookingSettings b)).
  { unfold orNull. destruct (truthy (s_bookingSettings b)) eqn:E;
      [now rewrite E|reflexivity]. }
  destruct (tasksFile s) eqn:Hf; simpl;
    rewrite Hw by (simpl; now rewrite ?Hf);
    unfold start_new_watcher, updTask, updWatcher, suspend; simpl;
    rewrite ?Hf; simpl; rewrite !alter_snoc;
    (destruct (browser s) eqn:Hb; simpl; rewrite ?Hb;
     repeat split; try reflexivity; try assumption;
     try (now rewrite <- app_assoc); try (now apply Hor)).
Qed.

(** C4 as stated fails three ways: a body with a target URL and an
    identifier but no location is rejected; [createTask] itself accepts an
    empty identifier and inserts the task; two creations at the same clock
    value with the same random suffix get the same id. *)
Lemma create_claim_fails :
  (let b := {| s_location := Some ""; s_cinemaName := None;
               s_cinemaUrl := Some "https://in.bookmyshow.com/cinemas/pvr";
               s_identifier := Some "ET00418958";
               s_bookingSettings := None |} in
   truthy (s_cinemaUrl b) = true /\ truthy (s_identifier b) = true /\
   post_api_tasks b 5 sample_rnd 5 default_manager
   = log (Returned bad_request) default_manager)
  /\
  (let b := {| s_location := Some "chennai"; s_cinemaName := None;
               s_cinemaUrl := Some ""; s_identifier := Some "";
               s_bookingSettings := None |} in
   tasks (fst (createTask b 5 sample_rnd 5 default_manager)) = [0] /\
   snd (createTask b 5 sample_rnd 5 default_manager) = "task-5-k3x")
  /\
  (exists s : State,
     run [PostTask sample_spec 5 sample_rnd 5;
          PostTask sample_spec 5 sample_rnd 6]
         default_manager = Some s /\
     map (idOf s) (tasks s) = [Some "task-5-k3x"; Some "task-5-k3x"]).
Proof.
  split; [|split].
  - repeat split; reflexivity.
  - split; reflexivity.
  - eexists. split; [vm_compute; reflexivity|reflexivity].
Qed.

(** ** Removing a task *)

(** [deleteTask] on its own, that is without another request between its
    two halves.  For an id that no task of the registry has, it returns
    [false] and changes nothing.  For a known id it first requests the stop
    of the task's watcher, the task still being in the registry, and once
    the stop has resolved it detaches the watcher, removes the element at
    the index it had found, saves and returns [true]; without a watcher it
    removes the task at once. *)
Lemma deleteTask_alone (tid : string) (s : State) :
  match findTask tid s with
  | None =>
      Forall (fun t => idOf s t <> Some tid) (tasks s)
      /\ deleteTask tid s = log (Returned (DeleteReturned tid false)) s
  | Some (idx, t) =>
      tasks s !! idx = Some t /\ idOf s t = Some tid /\
      match watcherOf s t with
      | None =>
          let s2 := deleteTask tid s in
          tasks s2 = delete idx (tasks s)
          /\ theap s2 = theap s /\ wheap s2 = wheap s
          /\ pending s2 = pending s
          /\ exists W, forallb is_write W = true /\
               trace s2 = trace s ++ W ++ [Broadcast (EvDeleted tid);
                                   Returned (DeleteReturned tid true)]
      | Some w =>
          let s1 := deleteTask tid s in
          tasks s1 = tasks s /\ theap s1 = theap s /\ trace s1 = trace s
          /\ wheap s1 = alter stopped_watcher w (wheap s)
          /\ pending s1 = pending s ++ [KDelete tid idx t w]
          /\ exists s2,
               step (Resume (length (pending s)) Resolved) s1 = Some s2
               /\ tasks s2 = delete idx (tasks s)
               /\ watcherOf s2 t = None
               /\ pending s2 = pending s
               /\ exists W, forallb is_write W = true /\
                    trace s2 = trace s ++ W ++ [Broadcast (EvDeleted tid);
                                        Returned (DeleteReturned tid true)]
      end
  end.
Proof.
  unfold deleteTask.
  destruct (findTask tid s) as [[idx t]|] eqn:Hfind.
  - apply list_find_Some in Hfind as (Hidx & Hid & _).
    split; [assumption|]. split; [assumption|].
    assert (HW : forall s0 : State,
               forallb is_write (written_now s0) = true).
    { intros s0. unfold written_now.
      destruct (tasksFile s0); [|reflexivity].
      destruct (decide _); [reflexivity|]. now destruct (diskOk s0). }
    destruct (watcherOf s t) as [w|] eqn:Hw.
    + cbv zeta. rewrite watcher_stop_nf. simpl.
      repeat (split; [reflexivity|]).
      rewrite lookup_snoc. rewrite delete_snoc.
      unfold resume, delete_finish, watcher_stopped, updTask, updWatcher,
        _broadcast, log.
      rewrite _saveTasksToFileImmediate_nf.
      eexists. split; [reflexivity|]. simpl.
      split; [reflexivity|].
      split; [unfold watcherOf; simpl; now eapply watcherOf_detached|].
      split; [reflexivity|].
      eexists. split; [apply HW|].
      rewrite <- !app_assoc. reflexivity.
    + cbv zeta. unfold delete_finish, _broadcast, log.
      rewrite _saveTasksToFileImmediate_nf. simpl.
      repeat (split; [reflexivity|]).
      eexists. split; [apply HW|].
      rewrite <- !app_assoc. reflexivity.
  - apply list_find_None in Hfind. split; [assumption|reflexivity].
Qed.

(** C5, at the failing input.  The index is taken before the [await] on
    the watcher's stop and used after it.  With three tasks registered,
    the delete of [task-B] waits for its watcher; the delete of [task-A]
    runs meanwhile; when the first one resumes it removes the element at
    index 1, which is now [task-C].  Both calls return [true], [task-B] is
    still registered and [task-C], which nobody asked to remove, is gone. *)
Theorem deleteTask_stale_index :
  exists s : State,
    run overlapping_deletes (manager_of three_tasks) = Some s
    /\ map (idOf s) (tasks s) = [Some "task-B"]
    /\ replies (trace s)
       = [DeleteReturned "task-A" true; DeleteReturned "task-B" true]
    /\ lastSavedJson s = Some [persisted "task-B" "running" None].
Proof.
  eexists. split; [vm_compute; reflexivity|].
  repeat split; vm_compute; reflexivity.
Qed.

(** ** Debounced and immediate saves *)

(** *** What a step does to the writers' state *)

Lemma scheduled_idem p : scheduled (scheduled p) = scheduled p.
Proof. now destruct p as [[[[f|] t] l] w]. Qed.

Lemma pers_saveTasksToFile s :
  persistence (_saveTasksToFile s) = scheduled (persistence s).
Proof. rewrite _saveTasksToFile_nf. reflexivity. Qed.

Lemma pers_log o s :
  is_write o = false -> persistence (log o s) = persistence s.
Proof.
  intros H. unfold persistence. fields. rewrite writes_app.
  destruct o; try discriminate; cbn; now rewrite app_nil_r.
Qed.

Lemma pers_suspend k s : persistence (suspend k s) = persistence s.
Proof. reflexivity. Qed.
Lemma pers_set_pending v s : persistence (set_pending v s) = persistence s.
Proof. reflexivity. Qed.
Lemma pers_set_contexts v s : persistence (set_contexts v s) = persistence s.
Proof. reflexivity. Qed.
Lemma pers_set_browser v s : persistence (set_browser v s) = persistence s.
Proof. reflexivity. Qed.
Lemma pers_set_nextBrowser v s :
  persistence (set_nextBrowser v s) = persistence s.
Proof. reflexivity. Qed.
Lemma pers_set_nextCtx v s : persistence (set_nextCtx v s) = persistence s.
Proof. reflexivity. Qed.
Lemma pers_set_contextBrowser v s :
  persistence (set_contextBrowser v s) = persistence s.
Proof. reflexivity. Qed.
Lemma pers_set_tasks v s : persistence (set_tasks v s) = persistence s.
Proof. reflexivity. Qed.
Lemma pers_set_theap v s : persistence (set_theap v s) = persistence s.
Proof. reflexivity. Qed.
Lemma pers_set_wheap v s : persistence (set_wheap v s) = persistence s.
Proof. reflexivity. Qed.
Lemma pers_set_diskOk v s : persistence (set_diskOk v s) = persistence s.
Proof. reflexivity. Qed.
Lemma pers_updTask t f s : persistence (updTask t f s) = persistence s.
Proof. reflexivity. Qed.
Lemma pers_updWatcher w f s : persistence (updWatcher w f s) = persistence s.
Proof. reflexivity. Qed.
Lemma pers_setStatus t v s : persistence (setStatus t v s) = persistence s.
Proof. reflexivity. Qed.
Lemma pers_add_monitor t s : persistence (add_monitor t s) = persistence s.
Proof. reflexivity. Qed.
Lemma pers_clearInterval m s : persistence (clearInterval m s) = persistence s.
Proof. reflexivity. Qed.
Lemma pers_watcher_stopped w s :
  persistence (watcher_stopped w s) = persistence s.
Proof. reflexivity. Qed.
Lemma pers_watcher_started b w s :
  persistence (watcher_started b w s) = persistence s.
Proof. reflexivity. Qed.
Lemma pers_watcher_start_failed a w s :
  persistence (watcher_start_failed a w s) = persistence s.
Proof. now destruct a. Qed.
Lemma pers_watcher_stop w s : persistence (watcher_stop w s) = persistence s.
Proof. now rewrite watcher_stop_nf. Qed.

Lemma pers_broadcast e s : persistence (_broadcast e s) = persistence s.
Proof. now apply pers_log. Qed.

Lemma pers_broadcastView mk t s :
  persistence (broadcastView mk t s) = persistence s.
Proof.
  unfold broadcastView. destruct (theap s !! t); [apply pers_broadcast|].
  reflexivity.
Qed.

Create Rewrite HintDb pers_db.

#[local] Hint Rewrite pers_saveTasksToFile pers_suspend pers_set_pending
  pers_set_contexts pers_set_browser pers_set_nextBrowser pers_set_nextCtx
  pers_set_contextBrowser pers_set_tasks pers_set_theap pers_set_wheap
  pers_set_diskOk pers_updTask pers_updWatcher pers_setStatus
  pers_add_monitor pers_clearInterval pers_watcher_stopped
  pers_watcher_started pers_watcher_start_failed pers_watcher_stop
  pers_broadcast pers_broadcastView scheduled_idem : pers_db.
#[local] Hint Rewrite pers_log using reflexivity : pers_db.

(** Case analysis on the tests of a function, then the rewriting. *)
Ltac pers_cases :=
  repeat (autorewrite with pers_db;
          try match goal with
              | |- context [if ?b then _ else _] => destruct b
              | |- context [match ?x with _ => _ end] => destruct x
              end);
  try reflexivity.

Lemma pers_start_new_watcher t c s :
  persistence (start_new_watcher t c s) = persistence s.
Proof. unfold start_new_watcher. pers_cases. Qed.
#[local] Hint Rewrite pers_start_new_watcher : pers_db.

Lemma pers_startTaskWatcher t c s :
  persistence (_startTaskWatcher t c s) = persistence s.
Proof. unfold _startTaskWatcher. pers_cases. Qed.
#[local] Hint Rewrite pers_startTaskWatcher : pers_db.

Lemma pers_restart_loop rid t0 l s :
  persistence (restart_loop rid t0 l s) = persistence s.
Proof.
  revert s. induction l as [|t l IH]; intros s; cbn [restart_loop].
  - pers_cases.
  - destruct (watcherOf s t); [apply IH|]. now autorewrite with pers_db.
Qed.

Lemma pers_after_start_ok c t s :
  persistence (after_start_ok c t s) = scheduled (persistence s).
Proof. unfold after_start_ok. destruct c; pers_cases. Qed.

Lemma pers_after_start_failed c t m s :
  persistence (after_start_failed c t m s) = scheduled (persistence s).
Proof. unfold after_start_failed. destruct c; pers_cases. Qed.

Lemma pers_found_rest t s :
  persistence (found_rest t s) = scheduled (persistence s).
Proof. unfold found_rest. pers_cases. Qed.

Lemma pers_post_api_tasks b now rnd created s :
  persistence (post_api_tasks b now rnd created s)
  = if valid_body b then scheduled (persistence s) else persistence s.
Proof.
  unfold post_api_tasks, valid_body, createTask.
  destruct (truthy (s_location b)), (truthy (s_cinemaUrl b)),
    (truthy (s_identifier b)); cbn [negb orb andb]; pers_cases.
Qed.

#[local] Hint Rewrite pers_restart_loop pers_after_start_ok
  pers_after_start_failed pers_found_rest : pers_db.

(** A step that is not of a function that saves at once writes nothing:
    it leaves the writers' state alone or schedules the debounced save;
    an update does the latter. *)
Lemma step_debounced (l : Label) (s s1 : State) :
  step l s = Some s1 -> saves_at_once l s = false ->
  (persistence s1 = persistence s
   \/ persistence s1 = scheduled (persistence s))
  /\ (is_update l s = true -> persistence s1 = scheduled (persistence s)).
Proof.
  intros Hstep Hq.
  destruct l; cbn [step saves_at_once is_update] in *; try discriminate.
  - (* POST /api/tasks *)
    inversion Hstep; subst. rewrite pers_post_api_tasks.
    destruct (valid_body body); split; auto; discriminate.
  - (* the tick of a monitor *)
    unfold monitorTick in Hstep.
    destruct (monitorTask m s) as [t|]; [|discriminate].
    destruct (watcherOf s t) as [w|].
    + destruct (wheap s !! w) as [x|]; [|discriminate].
      destruct (theap s !! t) as [task|] eqn:Ht.
      * assert (Hl : theap (updTask t (on_data (fun d =>
                        set_foundHref
                          (orNull (orElse (w_foundHref x) (foundHref d)))
                          (set_status "found" d))) (clearInterval m s)) !! t
                     = Some (found_task x task)).
        { fields. now rewrite list_lookup_alter_eq, Ht. }
        destruct (found x); cbn [andb].
        -- rewrite Hl in Hstep. cbn [found_task on_data data foundHref
                                      set_foundHref] in Hstep.
           unfold found_href.
           destruct (negb _ && _); inversion Hstep; subst;
             autorewrite with pers_db; split; auto; discriminate.
        -- inversion Hstep; subst. split; auto; discriminate.
      * destruct (found x).
        -- fields. rewrite list_lookup_alter_eq, Ht in Hstep. discriminate.
        -- inversion Hstep; subst. split; auto; discriminate.
    + inversion Hstep; subst. autorewrite with pers_db.
      split; auto; discriminate.
  - (* a signal of the detector *)
    unfold detectorFound in Hstep.
    destruct (wheap s !! w) as [x|]; [|discriminate].
    destruct (page x); [|discriminate].
    destruct (bool_decide _); [|discriminate].
    destruct (found x); inversion Hstep; subst; autorewrite with pers_db;
      split; auto; discriminate.
  - (* a resumption *)
    destruct (pending s !! i) as [k|]; [|discriminate].
    unfold browser_launched in Hstep.
    destruct k, o; cbn [resume] in Hstep; try discriminate;
      try (destruct attached; try discriminate);
      inversion Hstep; subst; unfold restartAllWatchers;
      try (destruct (truthy maybe));
      autorewrite with pers_db; split; auto; discriminate.
  - (* the disk *)
    inversion Hstep; subst. split; auto; discriminate.
Qed.

Lemma run_debounced (ls : list Label) :
  forall s s' : State,
    run ls s = Some s' -> debounced_only ls s = true ->
    persistence s' = persistence s
    \/ persistence s' = scheduled (persistence s).
Proof.
  induction ls as [|l ls IH]; intros s s' Hrun Hq; cbn [run] in Hrun.
  - inversion Hrun; subst. now left.
  - cbn [debounced_only] in Hq.
    destruct (step l s) as [s1|] eqn:Hstep; [|discriminate].
    apply andb_prop in Hq as [Hl Hq]. apply negb_true_iff in Hl.
    destruct (step_debounced l s s1 Hstep Hl) as [H1 _].
    destruct (IH s1 s' Hrun Hq) as [E|E]; rewrite E;
      destruct H1 as [E1|E1]; rewrite E1, ?scheduled_idem; auto.
Qed.

Lemma stop_finish_post (s1 s : State) (tid path : string) (t : nat) :
  tasksFile s = Some path -> diskOk s = true ->
  tasksFile s1 = tasksFile s -> diskOk s1 = diskOk s ->
  saveTimer s1 = saveTimer s -> lastSavedJson s1 = lastSavedJson s ->
  trace s1 = trace s ->
  let s2 := stop_finish tid t s1 in
  saveTimer s2 = saveTimer s
  /\ lastSavedJson s2 = Some (toSave s2)
  /\ writes (trace s2)
     = writes (trace s)
       ++ (if decide (lastSavedJson s = Some (toSave s2)) then []
           else [toSave s2]).
Proof.
  intros Hf Hd Hf1 Hd1 Hs1 Hl1 Ht1. unfold stop_finish.
  set (s1' := setStatus t "stopped" s1).
  destruct (save_now_post s1' path) as (Hl & Hw);
    [subst s1'; fields; congruence..|].
  destruct (save_now_frame s1') as (Htk & Hh & _ & _ & Hs & _).
  rewrite broadcastView_nf. fields. unfold toSave in *. fields.
  rewrite !writes_app, Hw, Htk, Hh, Hs.
  change (lastSavedJson s1') with (lastSavedJson s1).
  change (trace s1') with (trace s1).
  change (saveTimer s1') with (saveTimer s1). rewrite Hl1, Ht1.
  split; [assumption|]. split; [assumption|].
  destruct (theap _ !! t); simpl; now rewrite !app_nil_r.
Qed.

Lemma delete_finish_post (s1 s : State) (tid path : string) (idx : nat) :
  tasksFile s = Some path -> diskOk s = true ->
  tasksFile s1 = tasksFile s -> diskOk s1 = diskOk s ->
  saveTimer s1 = saveTimer s -> lastSavedJson s1 = lastSavedJson s ->
  trace s1 = trace s ->
  let s2 := delete_finish tid idx s1 in
  saveTimer s2 = saveTimer s
  /\ lastSavedJson s2 = Some (toSave s2)
  /\ writes (trace s2)
     = writes (trace s)
       ++ (if decide (lastSavedJson s = Some (toSave s2)) then []
           else [toSave s2]).
Proof.
  intros Hf Hd Hf1 Hd1 Hs1 Hl1 Ht1. unfold delete_finish.
  set (s1' := set_tasks (delete idx (tasks s1)) s1).
  destruct (save_now_post s1' path) as (Hl & Hw);
    [subst s1'; fields; congruence..|].
  destruct (save_now_frame s1') as (Htk & Hh & _ & _ & Hs & _).
  fields. unfold toSave in *. fields.
  rewrite !writes_app, Hw, Htk, Hh, Hs.
  change (lastSavedJson s1') with (lastSavedJson s1).
  change (trace s1') with (trace s1).
  change (saveTimer s1') with (saveTimer s1). rewrite Hl1, Ht1.
  split; [assumption|]. split; [assumption|].
  simpl; now rewrite !app_nil_r.
Qed.

(** C6, as amended.  With a tasks file and a writable disk.  An update
    (a task is created, the start of a watcher resolves or rejects, a
    found completion reaches its save) writes nothing and leaves the
    timer of the debounced save pending.  After an update, any run of
    steps none of which is of a function that saves at once (the timer
    callback, stop, delete, reload, shutdown) writes nothing either and
    leaves the timer pending, however many updates it holds; the firing
    of the timer then makes at most one write, leaves no timer behind
    and, the disk being writable, the snapshot current.  [stopTask] and
    [deleteTask] of a known id, run to their return, do not touch the
    timer: they save at once, so that on return the snapshot last
    written is the registry, and the write is skipped only if that very
    snapshot was the last one written. *)
Theorem persistence_discipline (s : State) (path : string) :
  tasksFile s = Some path -> diskOk s = true ->
  (forall (l : Label) (ls : list Label) (s1 s' : State),
      is_update l s = true -> step l s = Some s1 ->
      run ls s1 = Some s' -> debounced_only ls s1 = true ->
      saves_at_once l s = false
      /\ writes (trace s1) = writes (trace s)
      /\ lastSavedJson s1 = lastSavedJson s /\ saveTimer s1 = true
      /\ writes (trace s') = writes (trace s)
      /\ lastSavedJson s' = lastSavedJson s /\ saveTimer s' = true
      /\ exists s'', saveTimerFires s' = Some s''
           /\ saveTimer s'' = false /\ saveTimerFires s'' = None
           /\ length (writes (trace s'')) <= S (length (writes (trace s)))
           /\ (diskOk s' = true -> lastSavedJson s'' = Some (toSave s')))
  /\
  (forall (tid : string) (idx t : nat),
      findTask tid s = Some (idx, t) ->
      (exists ls s2,
          (ls = [StopTask tid]
           \/ ls = [StopTask tid; Resume (length (pending s)) Resolved])
          /\ run ls s = Some s2
          /\ saveTimer s2 = saveTimer s
          /\ lastSavedJson s2 = Some (toSave s2)
          /\ writes (trace s2)
             = writes (trace s)
               ++ (if decide (lastSavedJson s = Some (toSave s2))
                   then [] else [toSave s2]))
      /\
      (exists ls s2,
          (ls = [DeleteTask tid]
           \/ ls = [DeleteTask tid; Resume (length (pending s)) Resolved])
          /\ run ls s = Some s2
          /\ saveTimer s2 = saveTimer s
          /\ lastSavedJson s2 = Some (toSave s2)
          /\ writes (trace s2)
             = writes (trace s)
               ++ (if decide (lastSavedJson s = Some (toSave s2))
                   then [] else [toSave s2]))).
Proof.
  intros Hf Hd. split.
  - intros l ls s1 s' Hup Hstep Hrun Hq.
    assert (Hl : saves_at_once l s = false).
    { destruct l; cbn [is_update saves_at_once] in *; try discriminate;
        try reflexivity.
      destruct (pending s !! i) as [[]|]; try discriminate; reflexivity. }
    destruct (step_debounced l s s1 Hstep Hl) as [_ H1].
    specialize (H1 Hup).
    assert (H2 : persistence s' = scheduled (persistence s)).
    { destruct (run_debounced ls s1 s' Hrun Hq) as [E|E]; rewrite E, H1;
        now rewrite ?scheduled_idem. }
    unfold persistence, scheduled in H1, H2. rewrite Hf in H1, H2.
    assert (W1 : writes (trace s1) = writes (trace s)) by congruence.
    assert (L1 : lastSavedJson s1 = lastSavedJson s) by congruence.
    assert (T1 : saveTimer s1 = true) by congruence.
    assert (W2 : writes (trace s') = writes (trace s)) by congruence.
    assert (L2 : lastSavedJson s' = lastSavedJson s) by congruence.
    assert (T2 : saveTimer s' = true) by congruence.
    assert (F2 : tasksFile s' = Some path) by congruence.
    clear H1 H2.
    split; [exact Hl|]. repeat (split; [assumption|]).
    unfold saveTimerFires. rewrite T2.
    eexists. split; [reflexivity|].
    set (X := set_saveTimer false s').
    destruct (save_now_frame X) as (_ & _ & _ & _ & Hs2 & _).
    split; [now rewrite Hs2|].
    split; [unfold saveTimerFires; now rewrite Hs2|].
    split.
    + rewrite _saveTasksToFileImmediate_nf. fields. rewrite writes_app.
      subst X. fields. rewrite W2, length_app.
      unfold written_now. fields. rewrite F2.
      destruct (decide _); [simpl; lia|].
      destruct (diskOk s'); simpl; lia.
    + intros Hd'. destruct (save_now_post X path) as (Hl2 & _);
        [subst X; fields; congruence..|]. exact Hl2.
  - intros tid idx t Hfind. split.
    + destruct (watcherOf s t) as [w|] eqn:Hw.
      * exists [StopTask tid; Resume (length (pending s)) Resolved].
        eexists. split; [now right|]. split.
        { simpl. unfold stopTask. rewrite Hfind, Hw, watcher_stop_nf. fields.
          rewrite lookup_snoc, delete_snoc. reflexivity. }
        apply stop_finish_post with (path := path);
          first [assumption | reflexivity].
      * exists [StopTask tid]. eexists. split; [now left|]. split.
        { simpl. unfold stopTask. now rewrite Hfind, Hw. }
        apply stop_finish_post with (path := path);
          first [assumption | reflexivity].
    + destruct (watcherOf s t) as [w|] eqn:Hw.
      * exists [DeleteTask tid; Resume (length (pending s)) Resolved].
        eexists. split; [now right|]. split.
        { simpl. unfold deleteTask. rewrite Hfind, Hw, watcher_stop_nf.
          fields. rewrite lookup_snoc, delete_snoc. reflexivity. }
        apply delete_finish_post with (path := path);
          first [assumption | reflexivity].
      * exists [DeleteTask tid]. eexists. split; [now left|]. split.
        { simpl. unfold deleteTask. now rewrite Hfind, Hw. }
        apply delete_finish_post with (path := path);
          first [assumption | reflexivity].
Qed.

Lemma persistence_discipline_witness :
  let s := manager_of three_tasks in
  let l := PostTask sample_spec 5 sample_rnd 5 in
  let ls := [Resume 0 (StartFailed false "net::ERR");
             PostTask sample_spec 6 sample_rnd 6;
             Resume 0 Launched; Resume 1 StartOk] in
  let s' := after (l :: ls) s in
  tasksFile s = Some "tasks.json" /\ diskOk s = true
  /\ is_update l s = true /\ debounced_only (l :: ls) s = true
  /\ map (statusOf s') (tasks s')
     = ["stopped"; "error"; "stopped"; "running"; "starting"]
  /\ writes (trace s') = writes (trace s) /\ saveTimer s' = true
  /\ exists ls2 s2,
       run ls2 s = Some s2 /\ lastSavedJson s2 = Some (toSave s2).
Proof.
  intros s l ls s'.
  pose proof (persistence_discipline s "tasks.json" eq_refl eq_refl)
    as [Hd Hs].
  split; [reflexivity|]. split; [reflexivity|].
  split; [reflexivity|]. split; [vm_compute; reflexivity|].
  split; [vm_compute; reflexivity|].
  assert (H : is_update l s = true /\ step l s = Some (after [l] s)
              /\ run ls (after [l] s) = Some s'
              /\ debounced_only ls (after [l] s) = true)
    by (split; [|split; [|split]]; vm_compute; reflexivity).
  destruct H as (U & S1 & R & Q).
  destruct (Hd l ls (after [l] s) s' U S1 R Q)
    as (_ & _ & _ & _ & H1 & _ & H3 & _).
  split; [exact H1|]. split; [exact H3|].
  destruct (Hs "task-B" 1 1 eq_refl) as [(ls2 & s2 & _ & Hr & _ & Hl & _) _].
  exists ls2, s2. split; assumption.
Defined.

(** C6 as stated fails: a task is created and deleted before the debounce
    timer has fired; the delete returns [true] and nothing is written,
    neither then nor when the timer fires, since the snapshot is again the
    one last written. *)
Lemma delete_without_write :
  exists s s' : State,
    run create_then_delete default_manager = Some s
    /\ replies (trace s)
       = [HttpCreated "task-5-k3x"; DeleteReturned "task-5-k3x" true]
    /\ writes (trace s) = []
    /\ saveTimer s = true
    /\ step SaveTimerFires s = Some s'
    /\ writes (trace s') = [].
Proof.
  eexists. eexists. split; [vm_compute; reflexivity|].
  repeat split; vm_compute; reflexivity.
Qed.

(** ** Atomicity of the snapshot writes *)

Lemma storage_flush_atomic (data : list TaskData) (d : Fs.Disk) :
  Fs.intact d Storage.FILE ->
  Forall (fun d' => Fs.intact d' Storage.FILE)
         (Fs.crashes (Storage.flush_ops data) d).
Proof.
  intros H. unfold Storage.flush_ops. simpl.
  repeat constructor; unfold Fs.intact, Fs.put in *; simpl; auto.
Qed.

Lemma write_in_place_tears (path : string) (json : list TaskData)
    (d : Fs.Disk) :
  exists d', In d' (Fs.crashes (fs_ops (FsWrite path json)) d)
             /\ ~ Fs.intact d' path.
Proof.
  exists (Fs.put path (Some (Fs.Torn json)) d). split.
  - simpl. right. now left.
  - unfold Fs.intact, Fs.put. rewrite String.eqb_refl. tauto.
Qed.

(** C7, at the failing input.  The timer callback of storage.js writes a
    temporary file and renames it, and no crash leaves [tasks.json] torn.
    The manager does not go through it: stopping the running task of a
    manager that holds one makes a single [fs.writeFileSync] on the
    snapshot file itself, and a crash during that call leaves the file
    with a part of the new text. *)
Theorem manager_save_not_atomic :
  (forall (data : list TaskData) (d : Fs.Disk),
      Fs.intact d Storage.FILE ->
      Forall (fun d' => Fs.intact d' Storage.FILE)
             (Fs.crashes (Storage.flush_ops data) d))
  /\
  exists (s : State) (json : list TaskData) (d' : Fs.Disk),
    let before := [persisted "task-B" "running" None] in
    run [Resume 0 Launched; Resume 0 StartOk; StopTask "task-B";
         Resume 0 Resolved]
        (manager_of before) = Some s
    /\ json = [persisted "task-B" "stopped" None]
    /\ flat_map fs_ops (trace s) = [Fs.WriteFileSync "tasks.json" json]
    /\ In d' (Fs.crashes (flat_map fs_ops (trace s))
                         (disk_with "tasks.json" before))
    /\ d' "tasks.json" = Some (Fs.Torn json).
Proof.
  split; [exact storage_flush_atomic|].
  eexists. eexists.
  exists (Fs.put "tasks.json"
            (Some (Fs.Torn [persisted "task-B" "stopped" None]))
            (disk_with "tasks.json" [persisted "task-B" "running" None])).
  cbv zeta. split; [vm_compute; reflexivity|].
  split; [reflexivity|]. split; [vm_compute; reflexivity|].
  split; [|reflexivity].
  right. left. reflexivity.
Qed.

(** ** The broadcaster *)

Module BroadcasterFacts.
Import Broadcaster.

Lemma Json_nested_ind (P : Json -> Prop) :
  P JNull -> (forall b, P (JBool b)) -> (forall n, P (JNum n)) ->
  (forall s, P (JStr s)) ->
  (forall arr ms, Forall (fun km => P (snd km)) ms -> P (JNode arr ms)) ->
  forall j, P j.
Proof.
  intros Hnull Hbool Hnum Hstr Hnode.
  fix IH 1. intros [|b|n|s|arr ms].
  - exact Hnull.
  - apply Hbool.
  - apply Hnum.
  - apply Hstr.
  - apply Hnode. induction ms as [|[k j] ms IHms]; constructor.
    + exact (IH j).
    + exact IHms.
Qed.

Lemma fresh_from_start (h : Heap) : fresh_from (length h) h.
Proof.
  intros l node k l' Hl Hle _. apply lookup_lt_Some in Hl. lia.
Qed.


Lemma parse_members_ok (ms : list (string * Json)) :
  Forall (fun km => parse_ok (snd km)) ms ->
  forall (h : Heap) (n : nat) (h' : Heap) (fs : list (string * Val)),
    n <= length h -> fresh_from n h -> parse_members parse ms h = (h', fs) ->
    (exists ext, h' = h ++ ext) /\ fresh_from n h'
    /\ forall k l, (k, VRef l) ∈ fs -> length h <= l < length h'.
Proof.
  induction 1 as [|[k j] ms Hj Hms IH]; intros h n h' fs Hn Hfresh Hp;
    cbn [parse_members] in Hp.
  - inversion Hp; subst. split; [exists []; now rewrite app_nil_r|].
    split; [assumption|]. intros k l Hin. inversion Hin.
  - destruct (parse j h) as [h1 v] eqn:E1.
    destruct (parse_members parse ms h1) as [h2 fs'] eqn:E2.
    inversion Hp; subst. clear Hp.
    destruct (Hj h n h1 v Hn Hfresh E1) as ([ext1 ->] & Hf1 & Hv).
    assert (Hn1 : n <= length (h ++ ext1)) by (rewrite length_app; lia).
    destruct (IH (h ++ ext1) n h' fs' Hn1 Hf1 E2) as ([ext2 ->] & Hf2 & Hfs).
    split; [exists (ext1 ++ ext2); now rewrite app_assoc|].
    split; [assumption|].
    intros k' l Hin. apply elem_of_cons in Hin as [Heq|Hin].
    + inversion Heq; subst. specialize (Hv l eq_refl).
      rewrite !length_app in *. lia.
    + specialize (Hfs k' l Hin). rewrite !length_app in *. lia.
Qed.

Lemma parse_spec (j : Json) : parse_ok j.
Proof.
  induction j as [|b|z|s|arr ms Hms] using Json_nested_ind;
    intros h n h' v Hn Hfresh Hp; cbn [parse] in Hp;
    try (inversion Hp; subst; split; [exists []; now rewrite app_nil_r|];
         split; [assumption|]; intros l Hl; discriminate).
  destruct (parse_members parse ms h) as [h1 fs] eqn:E.
  inversion Hp; subst. clear Hp.
  destruct (parse_members_ok ms Hms h n h1 fs Hn Hfresh E)
    as ([ext ->] & Hf1 & Hfs).
  split; [exists (ext ++ [mkNode arr fs]); now rewrite app_assoc|].
  split.
  - intros l node k l' Hl Hle Hin.
    destruct (decide (l < length (h ++ ext))) as [Hlt|Hge].
    + rewrite lookup_app_l in Hl by assumption.
      exact (Hf1 l node k l' Hl Hle Hin).
    + assert (Hlen : l < length ((h ++ ext) ++ [mkNode arr fs]))
        by (eapply lookup_lt_Some; eauto).
      rewrite length_app in Hlen. cbn [length] in Hlen.
      assert (l = length (h ++ ext)) as -> by lia.
      rewrite lookup_snoc in Hl. inversion Hl; subst. cbn [fields] in Hin.
      specialize (Hfs k l' Hin). lia.
  - intros l Hl. inversion Hl; subst.
    rewrite !length_app. cbn [length]. lia.
Qed.

(** Following member names from a new node stays among the new nodes. *)
Lemma get_field_elem_of (k : string) (fs : list (string * Val)) (v : Val) :
  get_field k fs = Some v -> exists k', (k', v) ∈ fs.
Proof.
  induction fs as [|[k' v'] fs IH]; cbn [get_field]; [discriminate|].
  destruct (String.eqb k' k).
  - intros [= ->]. exists k'. left.
  - intros H. destruct (IH H) as [k'' Hin]. exists k''. now right.
Qed.

Lemma follow_fresh (n : nat) (h : Heap) (path : list string) :
  fresh_from n h ->
  forall l0 l, n <= l0 -> follow h (VRef l0) path = Some l -> n <= l.
Proof.
  intros Hfresh. induction path as [|k path IH]; intros l0 l Hle Hf;
    cbn [follow] in Hf.
  - inversion Hf; subst. assumption.
  - destruct (h !! l0) as [node|] eqn:Hl0; [|discriminate].
    destruct (get_field k (fields node)) as [v|] eqn:Hg; [|discriminate].
    destruct v; try (destruct path; discriminate).
    apply get_field_elem_of in Hg as [k' Hin].
    destruct (Hfresh l0 node k' l1 Hl0 Hle Hin) as [Hge _].
    exact (IH l1 l Hge Hf).
Qed.

Lemma set_field_refs (k : string) (v : Val) (fs : list (string * Val))
    (k' : string) (l' : nat) :
  is_ref v = false -> (k', VRef l') ∈ set_field k v fs ->
  exists k'', (k'', VRef l') ∈ fs.
Proof.
  intros Hv. induction fs as [|[k0 v0] fs IH]; cbn [set_field]; intros Hin.
  - apply list_elem_of_singleton in Hin. inversion Hin; subst. discriminate.
  - destruct (String.eqb k0 k).
    + apply elem_of_cons in Hin as [Heq|Hin].
      * inversion Heq; subst. discriminate.
      * exists k'. now right.
    + apply elem_of_cons in Hin as [Heq|Hin].
      * inversion Heq; subst. exists k0. left.
      * destruct (IH Hin) as [k'' H']. exists k''. now right.
Qed.

(** An assignment through a value that is a primitive or a new node
    touches new nodes only. *)
Lemma assign_spec (n : nat) (root : Val) (h : Heap) (a : Assign) :
  is_new n root -> fresh_from n h ->
  let h' := assign root h a in
  length h' = length h /\ fresh_from n h'
  /\ forall l, l < n -> h' !! l = h !! l.
Proof.
  intros Hroot Hfresh. unfold assign.
  destruct (is_ref (a_value a)) eqn:Hv; [cbv zeta; auto|].
  destruct (follow h root (a_path a)) as [l0|] eqn:Hf; [|cbv zeta; auto].
  assert (Hl0 : n <= l0).
  { destruct root; try (destruct (a_path a); discriminate).
    eapply follow_fresh; [exact Hfresh| |exact Hf]. now apply Hroot. }
  split; [apply length_alter|]. split.
  - intros l node k l' Hl Hle Hin.
    destruct (decide (l = l0)) as [->|Hne].
    + rewrite list_lookup_alter_eq in Hl.
      destruct (h !! l0) as [node0|] eqn:H0; [|discriminate].
      inversion Hl; subst. cbn [fields] in Hin.
      apply set_field_refs in Hin as [k'' Hin]; [|assumption].
      exact (Hfresh l0 node0 k'' l' H0 Hle Hin).
    + rewrite list_lookup_alter_ne in Hl by congruence.
      exact (Hfresh l node k l' Hl Hle Hin).
  - intros l Hl. apply list_lookup_alter_ne. lia.
Qed.

Lemma assigns_spec (n : nat) (root : Val) (assigns : list Assign) :
  is_new n root ->
  forall h : Heap,
    fresh_from n h ->
    let h' := foldl (assign root) h assigns in
    length h' = length h /\ fresh_from n h'
    /\ forall l, l < n -> h' !! l = h !! l.
Proof.
  intros Hroot. induction assigns as [|a assigns IH]; intros h Hfresh;
    cbn [foldl].
  - auto.
  - destruct (assign_spec n root h a Hroot Hfresh) as (Hlen & Hf & Hold).
    destruct (IH _ Hf) as (Hlen' & Hf' & Hold').
    split; [congruence|]. split; [assumption|].
    intros l Hl. rewrite Hold' by assumption. now apply Hold.
Qed.

(** The calls of the subscribers, in the order of the set, whether they
    throw or not. *)
Lemma calls_spec (n : nat) (safe : Val) (clients : list (nat * Subscriber)) :
  is_new n safe ->
  forall (h : Heap) (log : list (nat * Val)),
    fresh_from n h ->
    let '(h', log') := foldl (call safe) (h, log) clients in
    log' = log ++ map (fun c => (fst c, safe)) clients
    /\ length h' = length h /\ fresh_from n h'
    /\ forall l, l < n -> h' !! l = h !! l.
Proof.
  intros Hsafe. induction clients as [|c clients IH]; intros h log Hfresh;
    cbn [foldl map].
  - rewrite app_nil_r. auto.
  - unfold call at 2. destruct (snd c h safe) as [assigns thrown].
    destruct (assigns_spec n safe assigns Hsafe h Hfresh)
      as (Hlen & Hf & Hold).
    specialize (IH (foldl (assign safe) h assigns) (log ++ [(fst c, safe)]) Hf).
    destruct (foldl (call safe) _ clients) as [h' log'].
    destruct IH as (Hlog & Hlen' & Hf' & Hold').
    split; [now rewrite Hlog, <- app_assoc|].
    split; [congruence|]. split; [assumption|].
    intros l Hl. rewrite Hold' by assumption. now apply Hold.
Qed.

(** [JSON.stringify] with fuel above the size of the heap never runs out
    of it: the path holds distinct nodes of the heap. *)
Lemma path_length (h : Heap) (path : list nat) :
  NoDup path -> (forall x, x ∈ path -> x < length h) ->
  length path <= length h.
Proof.
  intros Hnd Hlt.
  assert (E : length (seq 0 (length h)) = length h) by apply length_seq.
  rewrite <- E.
  apply submseteq_length, NoDup_submseteq; [assumption|].
  intros x Hx. apply elem_of_seq. specialize (Hlt x Hx). lia.
Qed.

Lemma stringify_members_fuel (f : Val -> Res (option Json)) (arr : bool)
    (fs : list (string * Val)) :
  (forall v, f v <> OutOfFuel) -> stringify_members f arr fs <> OutOfFuel.
Proof.
  intros Hf. induction fs as [|[k v] fs IH]; cbn [stringify_members];
    [discriminate|].
  specialize (Hf v).
  destruct (f v) as [[j|]| |]; try discriminate; try contradiction.
  - destruct (stringify_members f arr fs); try discriminate. contradiction.
  - destruct arr; [|assumption].
    destruct (stringify_members f true fs); try discriminate. contradiction.
Qed.

Lemma stringify_fuel (fuel : nat) :
  forall (h : Heap) (path : list nat) (v : Val),
    NoDup path -> (forall x, x ∈ path -> x < length h) ->
    length h < fuel + length path ->
    stringify fuel h path v <> OutOfFuel.
Proof.
  induction fuel as [|fuel IH]; intros h path v Hnd Hlt Hfuel.
  - pose proof (path_length h path Hnd Hlt). lia.
  - cbn [stringify]. destruct v; try discriminate.
    destruct (bool_decide (l ∈ path)) eqn:Hin; [discriminate|].
    apply bool_decide_eq_false in Hin.
    destruct (h !! l) as [node|] eqn:Hl; [|discriminate].
    assert (Hm : stringify_members (stringify fuel h (l :: path))
                   (is_array node) (fields node) <> OutOfFuel).
    { apply stringify_members_fuel. intros v. apply IH.
      - now constructor.
      - intros x Hx. apply elem_of_cons in Hx as [->|Hx]; [|now apply Hlt].
        eapply lookup_lt_Some; eauto.
      - cbn [length]. lia. }
    destruct (stringify_members _ _ _); try discriminate. contradiction.
Qed.

(** Reading a parsed text back gives the text. *)
Lemma stringify_members_parse (ms : list (string * Json)) :
  Forall (fun km => read_back (snd km)) ms ->
  forall (h : Heap) (n : nat) (h' : Heap) (fs : list (string * Val)),
    n <= length h -> fresh_from n h -> parse_members parse ms h = (h', fs) ->
    forall (ext : list Node) (fuel : nat) (path : list nat) (arr : bool),
      (forall x, x ∈ path -> length h' <= x) ->
      stringify_members (stringify fuel (h' ++ ext) path) arr fs = OutOfFuel
      \/ stringify_members (stringify fuel (h' ++ ext) path) arr fs = Ok ms.
Proof.
  induction 1 as [|[k j] ms Hj Hms IH]; intros h n h' fs Hn Hfresh Hp ext
    fuel path arr Hpath; cbn [parse_members] in Hp.
  - inversion Hp; subst. now right.
  - destruct (parse j h) as [h1 v] eqn:E1.
    destruct (parse_members parse ms h1) as [h2 fs'] eqn:E2.
    inversion Hp; subst. clear Hp.
    destruct (parse_spec j h n h1 v Hn Hfresh E1) as ([ext1 ->] & Hf1 & _).
    assert (Hn1 : n <= length (h ++ ext1)) by (rewrite length_app; lia).
    destruct (parse_members_ok ms (Forall_impl _ _ _ Hms
                 (fun km _ => parse_spec (snd km)))
                (h ++ ext1) n h' fs' Hn1 Hf1 E2) as ([ext2 ->] & _ & _).
    cbn [stringify_members].
    destruct (Hj h n (h ++ ext1) v Hn Hfresh E1 (ext2 ++ ext) fuel path)
      as [Ho|Ho].
    + intros x Hx. specialize (Hpath x Hx). rewrite !length_app in *. lia.
    + left. rewrite <- app_assoc. now rewrite Ho.
    + rewrite <- app_assoc, Ho.
      destruct (IH (h ++ ext1) n ((h ++ ext1) ++ ext2) fs' Hn1 Hf1 E2 ext fuel
                  path arr Hpath) as [Hm|Hm].
      * left. rewrite <- app_assoc in Hm. now rewrite Hm.
      * right. rewrite <- app_assoc in Hm. now rewrite Hm.
Qed.

Lemma stringify_parse (j : Json) : read_back j.
Proof.
  induction j as [|b|z|s|arr ms Hms] using Json_nested_ind;
    intros h n h' v Hn Hfresh Hp ext fuel path Hpath; cbn [parse] in Hp;
    try (inversion Hp; subst; destruct fuel; [now left|now right]).
  destruct (parse_members parse ms h) as [h1 fs] eqn:E.
  inversion Hp; subst. clear Hp.
  destruct fuel as [|fuel]; [now left|]. cbn [stringify].
  assert (Hnot : bool_decide (length h1 ∈ path) = false).
  { apply bool_decide_eq_false. intros Hin. specialize (Hpath _ Hin).
    rewrite length_app in Hpath. cbn [length] in Hpath. lia. }
  rewrite Hnot.
  rewrite <- app_assoc. rewrite lookup_app_r by lia.
  replace (length h1 - length h1) with 0 by lia. cbn [lookup list_lookup app].
  cbn [is_array fields].
  destruct (stringify_members_parse ms Hms h n h1 fs Hn Hfresh E
              ([mkNode arr fs] ++ ext) fuel (length h1 :: path) arr) as [Hm|Hm].
  - intros x Hx. apply elem_of_cons in Hx as [->|Hx]; [lia|].
    specialize (Hpath x Hx). rewrite length_app in Hpath. lia.
  - left. cbn [app] in Hm. now rewrite Hm.
  - right. cbn [app] in Hm. now rewrite Hm.
Qed.

Lemma tree_members_pointwise (f g : Json -> Val -> bool)
    (ms : list (string * Json)) (fs : list (string * Val)) :
  Forall (fun km => forall v, f (snd km) v = true -> g (snd km) v = true) ms ->
  tree_members f ms fs = true -> tree_members g ms fs = true.
Proof.
  intros H. revert fs. induction H as [|[k j] ms Hj _ IH]; intros [|[k' v] fs];
    cbn [tree_members]; try discriminate; try reflexivity.
  intros [[Hk Hf]%andb_true_iff Hm]%andb_true_iff. cbn [snd] in Hj.
  rewrite Hk, (Hj v Hf), (IH fs Hm). reflexivity.
Qed.

(** A tree stays one when nodes are added to the heap. *)
Lemma is_tree_app (j : Json) :
  forall (h ext : Heap) (v : Val),
    is_tree j h v = true -> is_tree j (h ++ ext) v = true.
Proof.
  induction j as [|b|z|s|arr ms Hms] using Json_nested_ind; intros h ext v;
    destruct v; cbn [is_tree]; try discriminate; try (intros H; exact H).
  destruct (h !! l) as [node|] eqn:Hl; [|discriminate].
  rewrite (lookup_app_l_Some _ _ _ _ Hl).
  intros [Ha Hm]%andb_true_iff. rewrite Ha. cbn [andb].
  eapply tree_members_pointwise; [|exact Hm].
  eapply Forall_impl; [exact Hms|]. intros [k j] IH v. cbn [snd] in *.
  apply IH.
Qed.

(** A value is the tree of one text at most. *)
Lemma tree_members_unique (f : Json -> Val -> bool)
    (ms ms' : list (string * Json)) (fs : list (string * Val)) :
  Forall (fun km => forall j' v, f (snd km) v = true -> f j' v = true ->
                                 snd km = j') ms ->
  tree_members f ms fs = true -> tree_members f ms' fs = true -> ms = ms'.
Proof.
  intros H. revert ms' fs.
  induction H as [|[k j] ms Hj _ IH]; intros [|[k2 j2] ms'] [|[k' v] fs];
    cbn [tree_members]; try discriminate; try reflexivity.
  intros [[Hk Hf]%andb_true_iff Hm]%andb_true_iff
         [[Hk2 Hf2]%andb_true_iff Hm2]%andb_true_iff.
  apply String.eqb_eq in Hk, Hk2. subst k k2.
  cbn [snd] in Hj. rewrite (Hj j2 v Hf Hf2). f_equal. exact (IH ms' fs Hm Hm2).
Qed.

Lemma is_tree_unique (j : Json) :
  forall (j' : Json) (h : Heap) (v : Val),
    is_tree j h v = true -> is_tree j' h v = true -> j = j'.
Proof.
  induction j as [|b|z|s|arr ms Hms] using Json_nested_ind;
    intros j' h v; destruct v, j'; cbn [is_tree]; try discriminate;
    try reflexivity.
  - intros H1 H2. apply Bool.eqb_prop in H1, H2. congruence.
  - intros H1 H2. apply Z.eqb_eq in H1, H2. congruence.
  - intros H1 H2. apply String.eqb_eq in H1, H2. congruence.
  - destruct (h !! l) as [node|]; [|discriminate].
    intros [Ha Hm]%andb_true_iff [Ha' Hm']%andb_true_iff.
    apply Bool.eqb_prop in Ha, Ha'. f_equal; [congruence|].
    eapply tree_members_unique; [|exact Hm|exact Hm'].
    eapply Forall_impl; [exact Hms|]. intros [k j] IH j2 v. cbn [snd] in *.
    apply IH.
Qed.

Lemma size_member (arr : bool) (ms : list (string * Json)) (k : string)
    (j : Json) :
  (k, j) ∈ ms -> size j < size (JNode arr ms).
Proof.
  intros Hin. cbn [size]. induction ms as [|[k' j'] ms IH];
    [inversion Hin|].
  simpl. apply elem_of_cons in Hin as [Heq|Hin].
  - inversion Heq; subst. lia.
  - specialize (IH Hin). simpl in IH. lia.
Qed.

Lemma stringify_members_tree (f : Val -> Res (option Json)) (arr : bool)
    (g : Json -> Val -> bool) (ms : list (string * Json))
    (fs : list (string * Val)) :
  (forall k j v, (k, j) ∈ ms -> g j v = true ->
                 f v = OutOfFuel \/ f v = Ok (Some j)) ->
  tree_members g ms fs = true ->
  stringify_members f arr fs = OutOfFuel
  \/ stringify_members f arr fs = Ok ms.
Proof.
  revert fs. induction ms as [|[k j] ms IH]; intros [|[k' v] fs] Hf;
    cbn [tree_members stringify_members]; try discriminate.
  - now right.
  - intros [[Hk Hg]%andb_true_iff Hm]%andb_true_iff.
    apply String.eqb_eq in Hk. subst k'.
    destruct (Hf k j v (list_elem_of_here _ _) Hg) as [E|E]; rewrite E;
      [now left|].
    destruct (IH fs) as [E'|E'];
      [intros k0 j0 v0 Hin; apply (Hf k0); now right|exact Hm| |];
      rewrite E'; auto.
Qed.

(** The text of a tree is that tree. *)
Lemma stringify_tree (j : Json) :
  forall (h : Heap) (v : Val) (fuel : nat) (path : list nat),
    is_tree j h v = true ->
    (forall x, x ∈ path ->
       exists jx, is_tree jx h (VRef x) = true /\ size j < size jx) ->
    stringify fuel h path v = OutOfFuel
    \/ stringify fuel h path v = Ok (Some j).
Proof.
  induction j as [|b|z|s|arr ms Hms] using Json_nested_ind;
    intros h v fuel path; destruct v; cbn [is_tree]; try discriminate;
    intros Ht Hpath; (destruct fuel as [|fuel]; [now left|]);
    cbn [stringify].
  - now right.
  - apply Bool.eqb_prop in Ht. subst. now right.
  - apply Z.eqb_eq in Ht. subst. now right.
  - apply String.eqb_eq in Ht. subst. now right.
  - destruct (h !! l) as [node|] eqn:Hl; [|discriminate].
    apply andb_true_iff in Ht as [Ha Hm]. apply Bool.eqb_prop in Ha.
    assert (Hself : is_tree (JNode arr ms) h (VRef l) = true).
    { cbn [is_tree]. rewrite Hl, Hm, Ha. now rewrite Bool.eqb_reflx. }
    destruct (bool_decide (l ∈ path)) eqn:Hin.
    + apply bool_decide_eq_true in Hin.
      destruct (Hpath l Hin) as (jx & Hx & Hlt).
      pose proof (is_tree_unique _ _ _ _ Hself Hx) as Hu. subst jx. lia.
    + destruct (stringify_members_tree (stringify fuel h (l :: path))
                  (is_array node) (fun j' v' => is_tree j' h v') ms
                  (fields node)) as [E|E]; [|exact Hm| |].
      * intros k j v Hin' Hg. rewrite Forall_forall in Hms.
        apply (Hms (k, j) Hin' h v fuel (l :: path) Hg).
        intros x Hx. apply elem_of_cons in Hx as [->|Hx].
        -- exists (JNode arr ms). split; [exact Hself|].
           eapply size_member; eauto.
        -- destruct (Hpath x Hx) as (jx & H1 & H2). exists jx.
           split; [exact H1|].
           pose proof (size_member arr ms k j Hin'). cbn [snd]. lia.
      * left. now rewrite E.
      * right. rewrite E. now subst arr.
Qed.

Lemma safe_json_tree (j : Json) (h : Heap) (obj : Val) :
  is_tree j h obj = true -> safe_json h obj = j.
Proof.
  intros Ht. unfold safe_json.
  destruct (stringify_tree j h obj (S (length h)) [] Ht) as [E|E].
  - intros x Hx. inversion Hx.
  - exfalso. apply (stringify_fuel (S (length h)) h [] obj NoDup_nil_2);
      [intros x Hx; inversion Hx|cbn [length]; lia|exact E].
  - now rewrite E.
Qed.

Lemma parse_members_tree (ms : list (string * Json)) :
  Forall (fun km => forall h h' v,
            parse (snd km) h = (h', v) -> is_tree (snd km) h' v = true) ms ->
  forall (h h' : Heap) (fs : list (string * Val)) (ext : list Node),
    parse_members parse ms h = (h', fs) ->
    tree_members (fun j v => is_tree j (h' ++ ext) v) ms fs = true.
Proof.
  induction 1 as [|[k j] ms Hj Hms IH]; intros h h' fs ext Hp;
    cbn [parse_members] in Hp.
  - inversion Hp; subst. reflexivity.
  - destruct (parse j h) as [h1 v] eqn:E1.
    destruct (parse_members parse ms h1) as [h2 fs'] eqn:E2.
    inversion Hp; subst. clear Hp. cbn [tree_members].
    rewrite String.eqb_refl. cbn [andb].
    destruct (parse_spec j h (length h) h1 v (le_n _) (fresh_from_start _) E1)
      as ([ext1 ->] & Hf1 & _).
    assert (Hn1 : length h <= length (h ++ ext1))
      by (rewrite length_app; lia).
    destruct (parse_members_ok ms (Forall_impl _ _ _ Hms
                 (fun km _ => parse_spec (snd km)))
                (h ++ ext1) (length h) h' fs' Hn1 Hf1 E2)
      as ([ext2 ->] & _ & _).
    rewrite (IH _ _ _ ext E2), andb_true_r.
    rewrite <- app_assoc. apply is_tree_app. exact (Hj _ _ _ E1).
Qed.

(** What [JSON.parse] makes of a text is the tree of that text. *)
Lemma parse_tree (j : Json) :
  forall (h h' : Heap) (v : Val),
    parse j h = (h', v) -> is_tree j h' v = true.
Proof.
  induction j as [|b|z|s|arr ms Hms] using Json_nested_ind;
    intros h h' v Hp; cbn [parse] in Hp.
  - inversion Hp; subst. reflexivity.
  - inversion Hp; subst. cbn. apply Bool.eqb_reflx.
  - inversion Hp; subst. cbn. apply Z.eqb_refl.
  - inversion Hp; subst. cbn. apply String.eqb_refl.
  - destruct (parse_members parse ms h) as [h1 fs] eqn:E.
    inversion Hp; subst. clear Hp. cbn [is_tree].
    rewrite lookup_snoc. cbn [is_array fields].
    rewrite Bool.eqb_reflx. cbn [andb].
    exact (parse_members_tree ms Hms h h1 fs [mkNode arr fs] E).
Qed.

(** *** The subscribers, one after the other *)

Lemma call_heap (safe : Val) (h : Heap) (log : list (nat * Val))
    (c : nat * Subscriber) :
  fst (call safe (h, log) c) = foldl (assign safe) h (fst (snd c h safe)).
Proof. unfold call. now destruct (snd c h safe). Qed.

Lemma call_heaps_ids (safe : Val) (clients : list (nat * Subscriber)) :
  forall h : Heap, map fst (call_heaps safe h clients) = map fst clients.
Proof.
  induction clients as [|c clients IH]; intros h; cbn [call_heaps map fst];
    [reflexivity|]. now rewrite IH.
Qed.

(** The heap a subscriber is called in: the nodes that were there before
    the broadcast are as they were, and it is the heap [JSON.parse] left
    if the subscribers before it assigned nothing. *)
Lemma call_heaps_spec (n : nat) (safe : Val)
    (clients : list (nat * Subscriber)) :
  is_new n safe ->
  forall (h : Heap) (k cid : nat) (hk : Heap),
    fresh_from n h ->
    call_heaps safe h clients !! k = Some (cid, hk) ->
    length hk = length h /\ fresh_from n hk
    /\ (forall l, l < n -> hk !! l = h !! l)
    /\ ((forall (c : nat * Subscriber) (h' : Heap),
           c ∈ take k clients -> fst (snd c h' safe) = []) ->
        hk = h).
Proof.
  intros Hsafe. induction clients as [|c clients IH]; intros h k cid hk Hf Hk;
    cbn [call_heaps] in Hk; [destruct k; discriminate|].
  destruct k as [|k].
  - change (Some (fst c, h) = Some (cid, hk)) in Hk.
    inversion Hk; subst. auto.
  - change (call_heaps safe (fst (call safe (h, []) c)) clients !! k
            = Some (cid, hk)) in Hk.
    rewrite call_heap in Hk.
    destruct (assigns_spec n safe (fst (snd c h safe)) Hsafe h Hf)
      as (Hlen & Hf' & Hold).
    destruct (IH _ k cid hk Hf' Hk) as (L & F & O & E).
    split; [congruence|]. split; [exact F|]. split.
    + intros l Hl. rewrite O by assumption. now apply Hold.
    + intros Hnone. rewrite E.
      * rewrite (Hnone c h); [reflexivity|]. cbn [take]. left.
      * intros c' h' Hin. apply Hnone. cbn [take]. now right.
Qed.

(** C8, as amended.  [_broadcast] never throws and never runs out of fuel.
    It makes one value, what [JSON.parse] makes of the text of the event,
    or of the generic error event when [JSON.stringify] throws or gives
    [undefined]; when the event is the tree of a text, that text is the
    one, and the value is the tree of it again.  The value is a primitive
    or a new node and reads as the text.  That one value is handed to
    every subscriber of the set, in order and whether earlier ones threw
    or not.  Whatever the subscribers assign through it, every node that
    existed before the call is as it was, at each call and at the end;
    a subscriber reads the text if those before it assigned nothing, and
    what they left otherwise.  The set of subscribers is unchanged. *)
Theorem broadcast_spec (obj : Val) (st : State) :
  let h := heap st in
  let st' := _broadcast obj st in
  exists (h1 : Heap) (safe : Val),
    parse (safe_json h obj) h = (h1, safe)
    /\ match stringify (S (length h)) h [] obj with
       | Ok (Some j) => safe_json h obj = j
       | Ok None | Throws => safe_json h obj = errorEvent
       | OutOfFuel => False
       end
    /\ (forall j, is_tree j h obj = true ->
          safe_json h obj = j /\ is_tree j h1 safe = true)
    /\ is_new (length h) safe
    /\ reads h1 safe = Ok (Some (safe_json h obj))
    /\ delivered st'
       = delivered st ++ map (fun c => (fst c, safe)) (sseClients st)
    /\ sseClients st' = sseClients st
    /\ (forall l, l < length h -> heap st' !! l = h !! l)
    /\ map fst (call_heaps safe h1 (sseClients st))
       = map fst (sseClients st)
    /\ forall k cid hk,
         call_heaps safe h1 (sseClients st) !! k = Some (cid, hk) ->
         (forall l, l < length h -> hk !! l = h !! l)
         /\ reads hk safe <> OutOfFuel
         /\ ((forall (c : nat * Subscriber) (h' : Heap),
                c ∈ take k (sseClients st) -> fst (snd c h' safe) = []) ->
             reads hk safe = Ok (Some (safe_json h obj))).
Proof.
  cbv zeta. unfold _broadcast.
  destruct (parse (safe_json (heap st) obj) (heap st)) as [h1 safe] eqn:Hp.
  exists h1, safe. split; [reflexivity|].
  destruct (parse_spec _ (heap st) (length (heap st)) h1 safe (le_n _)
              (fresh_from_start _) Hp) as ([ext Hext] & Hfresh & Hsafe).
  assert (Hnew : is_new (length (heap st)) safe).
  { intros l Hl. specialize (Hsafe l Hl). lia. }
  assert (Hfuel : forall hk : Heap, reads hk safe <> OutOfFuel).
  { intros hk. apply stringify_fuel; [apply NoDup_nil_2| |cbn [length]; lia].
    intros x Hx. inversion Hx. }
  assert (Hread : reads h1 safe = Ok (Some (safe_json (heap st) obj))).
  { destruct (stringify_parse _ (heap st) (length (heap st)) h1 safe (le_n _)
                (fresh_from_start _) Hp [] (S (length h1)) [])
      as [Ho|Ho].
    - intros x Hx. inversion Hx.
    - exfalso. rewrite app_nil_r in Ho. exact (Hfuel h1 Ho).
    - now rewrite app_nil_r in Ho. }
  split.
  { pose proof (stringify_fuel (S (length (heap st))) (heap st) [] obj
                  (NoDup_nil_2) ) as Hfuel0.
    unfold safe_json.
    destruct (stringify (S (length (heap st))) (heap st) [] obj)
      as [[j|]| |]; try reflexivity.
    apply Hfuel0; [intros x Hx; inversion Hx|cbn [length]; lia|reflexivity]. }
  split.
  { intros j Ht. pose proof (safe_json_tree j _ _ Ht) as Ej.
    split; [exact Ej|]. rewrite Ej in Hp. exact (parse_tree j _ _ _ Hp). }
  split; [exact Hnew|]. split; [exact Hread|].
  pose proof (calls_spec (length (heap st)) safe (sseClients st) Hnew h1
                (delivered st) Hfresh) as Hcalls.
  destruct (foldl (call safe) (h1, delivered st) (sseClients st))
    as [h2 log].
  destruct Hcalls as (Hlog & _ & _ & Hold).
  cbn [delivered sseClients heap].
  split; [exact Hlog|]. split; [reflexivity|].
  split.
  { intros l Hl. rewrite Hold by assumption.
    rewrite Hext. now apply lookup_app_l. }
  split; [apply call_heaps_ids|].
  intros k cid hk Hk.
  destruct (call_heaps_spec (length (heap st)) safe (sseClients st) Hnew
              h1 k cid hk Hfresh Hk) as (_ & _ & Ho & He).
  split.
  { intros l Hl. rewrite Ho by assumption.
    rewrite Hext. now apply lookup_app_l. }
  split; [apply Hfuel|].
  intros Hnone. now rewrite (He Hnone).
Qed.

(** C8 as stated fails for the subscribers after the first: the copy is
    made once and shared.  The first of two subscribers assigns to a
    member of what it is handed; the second is handed the same object
    and reads the changed member, not the one of the event, which itself
    is as it was. *)
Lemma copy_is_shared :
  let event := JNode false [("type", JStr "found")] in
  let h := [mkNode false [("type", VStr "found")]] in
  let first : Subscriber :=
    fun _ _ => ([mkAssign [] "type" (VStr "changed")], false) in
  let second : Subscriber := fun _ _ => ([], false) in
  let st := mkState h [(1, first); (2, second)] [] in
  let st' := _broadcast (VRef 0) st in
  is_tree event h (VRef 0) = true
  /\ exists safe h1 h2,
       parse (safe_json h (VRef 0)) h = (h1, safe)
       /\ delivered st' = [(1, safe); (2, safe)]
       /\ call_heaps safe h1 (sseClients st) = [(1, h1); (2, h2)]
       /\ reads h1 safe = Ok (Some event)
       /\ reads h2 safe = Ok (Some (JNode false [("type", JStr "changed")]))
       /\ reads (heap st') (VRef 0) = Ok (Some event).
Proof.
  cbv zeta. split; [reflexivity|].
  eexists. eexists. eexists. split; [reflexivity|].
  repeat split; vm_compute; reflexivity.
Qed.

End BroadcasterFacts.

(** ** Resuming the persisted tasks *)

Lemma _resumeTaskWatcher_nf (t : nat) (s : State) :
  watcherOf s t = None -> browser s = None ->
  _resumeTaskWatcher t s
  = set_pending (pending s ++ [KLaunch t (length (wheap s)) FromResume])
      (set_wheap (wheap s ++ [starting_watcher])
         (set_theap
            (alter (set_watcher (Some (length (wheap s)))) t
               (alter (on_data (set_status "starting")) t (theap s))) s)).
Proof.
  intros Hw Hb. unfold _resumeTaskWatcher, _startTaskWatcher.
  assert (Hw' : watcherOf (setStatus t "starting" s) t = None).
  { unfold watcherOf in *. fields. rewrite list_lookup_alter_eq.
    destruct (theap s !! t); simpl in *; auto. }
  rewrite Hw'. unfold start_new_watcher. expose. expose. rewrite Hb.
  now rewrite alter_snoc.
Qed.

(** The loop of [_loadTasksFromFile] over the tasks [l], none of which has
    a watcher yet, no browser having been launched. *)
Lemma resume_loop (l : list nat) (s : State) :
  NoDup l -> (forall t, t ∈ l -> watcherOf s t = None) ->
  browser s = None ->
  let s' := foldl resume_step s l in
  (forall t, t ∉ l -> theap s' !! t = theap s !! t)
  /\ (forall t task, t ∈ l -> theap s !! t = Some task ->
        if needs_resume (status (data task))
        then exists w,
            theap s' !! t
            = Some {| data := set_status "starting" (data task);
                      watcher := Some w |}
            /\ wheap s' !! w = Some starting_watcher
            /\ KLaunch t w FromResume ∈ pending s'
        else theap s' !! t = Some task)
  /\ (exists ext, wheap s' = wheap s ++ ext)
  /\ (exists ext, pending s' = pending s ++ ext
        /\ forall k, k ∈ ext ->
             exists t w, k = KLaunch t w FromResume /\ t ∈ l
                         /\ needs_resume (statusOf s t) = true)
  /\ tasks s' = tasks s /\ trace s' = trace s
  /\ lastSavedJson s' = lastSavedJson s /\ browser s' = None.
Proof.
  revert s. induction l as [|t l IH]; intros s Hnd Hnow Hbr; cbn [foldl].
  - split; [auto|]. split; [intros ? ? H; inversion H|].
    split; [exists []; now rewrite app_nil_r|].
    split; [|auto].
    exists []. split; [now rewrite app_nil_r|]. intros ? H; inversion H.
  - apply NoDup_cons in Hnd as [Hnotin Hnd].
    assert (Ht : watcherOf s t = None) by (apply Hnow; left).
    remember (resume_step s t) as s1 eqn:Es1.
    assert (Hother : forall t', t' <> t -> theap s1 !! t' = theap s !! t').
    { intros t' Hne. subst s1. unfold resume_step.
      destruct (needs_resume _); [|reflexivity].
      rewrite _resumeTaskWatcher_nf by assumption. fields.
      now rewrite !list_lookup_alter_ne by congruence. }
    assert (Hnow1 : forall t', t' ∈ l -> watcherOf s1 t' = None).
    { intros t' Hin. unfold watcherOf. rewrite Hother.
      - apply Hnow. now right.
      - intros ->. contradiction. }
    assert (Hbr1 : browser s1 = None).
    { subst s1. unfold resume_step.
      destruct (needs_resume _); [|assumption].
      now rewrite _resumeTaskWatcher_nf by assumption. }
    destruct (IH s1 Hnd Hnow1 Hbr1)
      as (Ha & Hb & (extw & Hw) & (extp & Hp & Hk) & Htk & Htr & Hls & Hbs).
    split; [|split; [|split; [|split]]].
    + intros t' Hn. rewrite Ha by (intros H; apply Hn; now right).
      apply Hother. intros ->. apply Hn. left.
    + intros t' task Hin Hlook. apply elem_of_cons in Hin as [->|Hin].
      * rewrite Ha by assumption.
        destruct (needs_resume (status (data task))) eqn:Hneed.
        -- assert (Hs1 : s1 = _resumeTaskWatcher t s).
           { subst s1. unfold resume_step, statusOf. now rewrite Hlook, Hneed. }
           rewrite _resumeTaskWatcher_nf in Hs1 by assumption.
           exists (length (wheap s)). rewrite Hw, Hp, Hs1. fields.
           rewrite list_lookup_alter_eq, list_lookup_alter_eq, Hlook.
           split; [reflexivity|]. split.
           ++ rewrite lookup_app_l by (rewrite length_app; simpl; lia).
              apply lookup_snoc.
           ++ apply elem_of_app. left. apply elem_of_app. right. left.
        -- subst s1. unfold resume_step, statusOf.
           now rewrite Hlook, Hneed.
      * specialize (Hb t' task Hin).
        rewrite Hother in Hb by (intros ->; contradiction).
        apply Hb. assumption.
    + destruct (needs_resume (statusOf s t)) eqn:Hneed.
      * assert (Hs1 : s1 = _resumeTaskWatcher t s)
          by (subst s1; unfold resume_step; now rewrite Hneed).
        rewrite _resumeTaskWatcher_nf in Hs1 by assumption.
        rewrite Hs1 in Hw |- *. fields. rewrite <- app_assoc in Hw.
        eexists. exact Hw.
      * assert (Hs1 : s1 = s)
          by (subst s1; unfold resume_step; now rewrite Hneed).
        rewrite Hs1 in Hw |- *. eexists. exact Hw.
    + assert (Hst : forall t', t' ∈ l -> statusOf s1 t' = statusOf s t').
      { intros t' Hin. unfold statusOf. rewrite Hother; [reflexivity|].
        intros ->. contradiction. }
      destruct (needs_resume (statusOf s t)) eqn:Hneed.
      * assert (Hs1 : s1 = _resumeTaskWatcher t s)
          by (subst s1; unfold resume_step; now rewrite Hneed).
        rewrite _resumeTaskWatcher_nf in Hs1 by assumption.
        rewrite Hs1 in Hp, Hk, Hst |- *. fields. rewrite <- app_assoc in Hp.
        eexists. split; [exact Hp|].
        intros k Hin. apply elem_of_app in Hin as [Hin|Hin].
        -- apply list_elem_of_singleton in Hin as ->.
           exists t, (length (wheap s)).
           split; [reflexivity|]. split; [left|assumption].
        -- destruct (Hk k Hin) as (t' & w & -> & Hin' & Hn').
           exists t', w. split; [reflexivity|]. split; [now right|].
           now rewrite <- Hst.
      * assert (Hs1 : s1 = s)
          by (subst s1; unfold resume_step; now rewrite Hneed).
        rewrite Hs1 in Hp, Hk |- *. exists extp. split; [assumption|].
        intros k Hin. destruct (Hk k Hin) as (t' & w & -> & Hin' & Hn').
        exists t', w. split; [reflexivity|]. split; [now right|].
        assumption.
    + destruct (needs_resume (statusOf s t)) eqn:Hneed.
      * assert (Hs1 : s1 = _resumeTaskWatcher t s)
          by (subst s1; unfold resume_step; now rewrite Hneed).
        rewrite _resumeTaskWatcher_nf in Hs1 by assumption.
        rewrite Hs1 in Htk, Htr, Hls, Hbs |- *. fields. auto.
      * assert (Hs1 : s1 = s)
          by (subst s1; unfold resume_step; now rewrite Hneed).
        rewrite Hs1 in Htk, Htr, Hls, Hbs |- *. auto.
Qed.




(** *** Every watcher is of one task *)







(** ** shutdown *)

Lemma run_app (a b : list Label) (s : State) :
  run (a ++ b) s = match run a s with
                   | Some s' => run b s'
                   | None => None
                   end.
Proof.
  revert s. induction a as [|l a IH]; intros s; simpl; [reflexivity|].
  destruct (step l s); [apply IH|reflexivity].
Qed.

Lemma repeat_succ {A} (x : A) (k : nat) : repeat x (S k) = [x] ++ repeat x k.
Proof. reflexivity. Qed.

(** The end of [shutdown]: the immediate save, the close of the browser
    if there is one, the return. *)
Lemma shutdown_finish_run (s : State) :
  exists k s',
    run (repeat (Resume (length (pending s)) Resolved) k) (shutdown_finish s)
    = Some s'
    /\ tasks s' = tasks s /\ theap s' = theap s /\ pending s' = pending s
    /\ saveTimer s' = saveTimer s /\ browser s' = None
    /\ lastSavedJson s' = saved_after s
    /\ trace s' = trace s ++ written_now s ++ [Returned ShutdownReturned].
Proof.
  unfold shutdown_finish. rewrite _saveTasksToFileImmediate_nf. fields.
  destruct (browser s) eqn:Hb.
  - exists 1. eexists. split.
    + cbn [repeat run step]. fields. rewrite lookup_snoc, delete_snoc.
      reflexivity.
    + fields. rewrite <- app_assoc. repeat split.
  - exists 0. eexists. split; [reflexivity|].
    fields. rewrite <- app_assoc. repeat split. assumption.
Qed.

(** The loop of [shutdown] from position [i] on, each wait being resumed
    at once. *)
Lemma shutdown_scan_run (l : list nat) :
  forall (i : nat) (s : State),
    drop i (tasks s) = l ->
    exists k s' X,
      run (repeat (Resume (length (pending s)) Resolved) k)
          (shutdown_scan l i s) = Some s'
      /\ tasks s' = tasks s /\ pending s' = pending s
      /\ saveTimer s' = saveTimer s /\ browser s' = None
      /\ (forall t task, t ∈ l -> theap s !! t = Some task ->
            theap s' !! t = Some (on_data (set_status "stopped") task))
      /\ (forall t, t ∉ l -> theap s' !! t = theap s !! t)
      /\ theap X = theap s' /\ tasks X = tasks s
      /\ lastSavedJson X = lastSavedJson s /\ tasksFile X = tasksFile s
      /\ diskOk X = diskOk s
      /\ lastSavedJson s' = saved_after X
      /\ trace s' = trace s ++ written_now X ++ [Returned ShutdownReturned].
Proof.
  induction l as [|t l IH]; intros i s Hdrop; cbn [shutdown_scan].
  - destruct (shutdown_finish_run s) as (k & s' & Hrun & Htk & Hh & Hp & Hs
                                          & Hb & Hl & Htr).
    exists k, s', s. rewrite Hh. repeat split; try assumption.
    intros t task Hin. inversion Hin.
  - assert (Hnext : forall s1, tasks s1 = tasks s ->
                               drop (S i) (tasks s1) = l).
    { intros s1 ->. replace (S i) with (i + 1) by lia.
      rewrite <- drop_drop, Hdrop. reflexivity. }
    assert (Hstep : forall s1 : State,
               tasks s1 = tasks s -> pending s1 = pending s ->
               saveTimer s1 = saveTimer s ->
               lastSavedJson s1 = lastSavedJson s ->
               tasksFile s1 = tasksFile s -> diskOk s1 = diskOk s ->
               trace s1 = trace s ->
               theap s1 = alter (on_data (set_status "stopped")) t (theap s) ->
               forall k s' X,
                 run (repeat (Resume (length (pending s)) Resolved) k)
                     (shutdown_scan l (S i) s1) = Some s' ->
                 tasks s' = tasks s1 /\ pending s' = pending s1
                 /\ saveTimer s' = saveTimer s1 /\ browser s' = None
                 /\ (forall t task, t ∈ l -> theap s1 !! t = Some task ->
                       theap s' !! t
                       = Some (on_data (set_status "stopped") task))
                 /\ (forall t, t ∉ l -> theap s' !! t = theap s1 !! t)
                 /\ theap X = theap s' /\ tasks X = tasks s1
                 /\ lastSavedJson X = lastSavedJson s1
                 /\ tasksFile X = tasksFile s1
                 /\ diskOk X = diskOk s1
                 /\ lastSavedJson s' = saved_after X
                 /\ trace s' = trace s1 ++ written_now X
                                ++ [Returned ShutdownReturned] ->
                 tasks s' = tasks s /\ pending s' = pending s
                 /\ saveTimer s' = saveTimer s /\ browser s' = None
                 /\ (forall t0 task, t0 ∈ t :: l -> theap s !! t0 = Some task ->
                       theap s' !! t0
                       = Some (on_data (set_status "stopped") task))
                 /\ (forall t0, t0 ∉ t :: l -> theap s' !! t0 = theap s !! t0)
                 /\ theap X = theap s' /\ tasks X = tasks s
                 /\ lastSavedJson X = lastSavedJson s
                 /\ tasksFile X = tasksFile s
                 /\ diskOk X = diskOk s
                 /\ lastSavedJson s' = saved_after X
                 /\ trace s' = trace s ++ written_now X
                                ++ [Returned ShutdownReturned]).
    { intros s1 E1 E2 E3 E4 E5 E6 E7 E8 k s' X _
        (P1 & P2 & P3 & P4 & P5 & P6 & P7 & P8 & P9 & P10 & P11 & P12 & P13).
      rewrite E1 in *. rewrite E2 in *. rewrite E3 in *. rewrite E4 in *.
      rewrite E5 in *. rewrite E6 in *. rewrite E7 in *.
      repeat (split; [assumption|]).
      split; [|split; [|repeat split; assumption]].
      - intros t0 task Hin Hlook.
        destruct (decide (t0 ∈ l)) as [Hl|Hl].
        + destruct (decide (t0 = t)) as [->|Hne].
          * rewrite (P5 t (on_data (set_status "stopped") task) Hl);
              [reflexivity|].
            rewrite E8, list_lookup_alter_eq, Hlook. reflexivity.
          * apply P5; [assumption|].
            rewrite E8, list_lookup_alter_ne by congruence. assumption.
        + apply elem_of_cons in Hin as [->|Hin]; [|contradiction].
          rewrite P6 by assumption.
          rewrite E8, list_lookup_alter_eq, Hlook. reflexivity.
      - intros t0 Hn. rewrite P6 by (intros H; apply Hn; now right).
        rewrite E8, list_lookup_alter_ne; [reflexivity|].
        intros ->. apply Hn. left. }
    destruct (watcherOf s t) as [w|] eqn:Hw.
    + set (s1 := setStatus t "stopped"
                   (watcher_stopped w
                      (set_pending (pending s)
                         (suspend (KShutdown i t w) (watcher_stop w s))))).
      assert (Htk1 : tasks s1 = tasks s)
        by (subst s1; rewrite watcher_stop_nf; reflexivity).
      destruct (IH (S i) s1 (Hnext s1 Htk1)) as (k & s' & X & Hrun & HP).
      assert (Hp1 : pending s1 = pending s)
        by (subst s1; rewrite watcher_stop_nf; reflexivity).
      rewrite Hp1 in Hrun.
      exists (S k), s', X. split.
      * rewrite repeat_succ, run_app. cbn [run step].
        assert (Hlk : pending (suspend (KShutdown i t w) (watcher_stop w s))
                      !! length (pending s) = Some (KShutdown i t w)).
        { rewrite watcher_stop_nf. fields. apply lookup_snoc. }
        assert (Hdel : delete (length (pending s))
                         (pending (suspend (KShutdown i t w)
                                     (watcher_stop w s))) = pending s).
        { rewrite watcher_stop_nf. fields. apply delete_snoc. }
        rewrite Hlk, Hdel. cbn [resume]. fold s1.
        rewrite (Hnext s1 Htk1). exact Hrun.
      * eapply (Hstep s1); try eassumption;
          subst s1; rewrite watcher_stop_nf; reflexivity.
    + set (s1 := setStatus t "stopped" s).
      destruct (IH (S i) s1 (Hnext s1 eq_refl)) as (k & s' & X & Hrun & HP).
      exists k, s', X. split; [exact Hrun|].
      eapply (Hstep s1); try eassumption; reflexivity.
Qed.

(** C10, as amended.  [shutdown], run to its end with nothing else in
    between, leaves the registry as it was but for the status of its
    tasks: every task of the registry, whatever its status, has status
    [stopped] and all its other fields, [foundHref] and the watcher handle
    included, as before; no other task object changes.  Then it saves at
    once, without the timer: with a tasks file and a writable disk the
    snapshot last written is the final registry on return, the write being
    skipped only if that snapshot was already the last one written. *)
Theorem shutdown_stops_all (s : State) (path : string) :
  tasksFile s = Some path -> diskOk s = true ->
  exists k s',
    run (shutdown_alone (length (pending s)) k) s = Some s'
    /\ tasks s' = tasks s
    /\ (forall t task, t ∈ tasks s -> theap s !! t = Some task ->
          theap s' !! t
          = Some {| data := set_status "stopped" (data task);
                    watcher := watcher task |})
    /\ (forall t, t ∉ tasks s -> theap s' !! t = theap s !! t)
    /\ saveTimer s' = saveTimer s /\ pending s' = pending s
    /\ lastSavedJson s' = Some (toSave s')
    /\ trace s'
       = trace s
         ++ (if decide (lastSavedJson s = Some (toSave s')) then []
             else [FsWrite path (toSave s')])
         ++ [Returned ShutdownReturned].
Proof.
  intros Hf Hd.
  destruct (shutdown_scan_run (tasks s) 0 s eq_refl)
    as (k & s' & X & Hrun & Htk & Hp & Hs & _ & Hin & Hout & HX & HXt & HXl
        & HXf & HXd & Hl & Htr).
  exists k, s'. split; [exact Hrun|].
  assert (HtoSave : toSave X = toSave s').
  { unfold toSave. now rewrite HX, HXt, Htk. }
  repeat (split; [assumption|]).
  split.
  - rewrite Hl. unfold saved_after. rewrite HXf, Hf, HXd, Hd, HtoSave.
    destruct (decide _) as [e|n]; [|reflexivity]. now rewrite e.
  - rewrite Htr. unfold written_now.
    rewrite HXf, Hf, HXd, Hd, HtoSave, HXl. reflexivity.
Qed.

Lemma shutdown_stops_all_witness :
  let s := manager_of three_tasks in
  tasksFile s = Some "tasks.json" /\ diskOk s = true
  /\ exists k s', run (shutdown_alone (length (pending s)) k) s = Some s'
                  /\ tasks s' = tasks s.
Proof.
  split; [reflexivity|]. split; [reflexivity|].
  destruct (shutdown_stops_all (manager_of three_tasks) "tasks.json"
              eq_refl eq_refl) as (k & s' & Hrun & Htk & _).
  exists k, s'. split; assumption.
Defined.

(** C10 as stated fails: with a registry whose tasks are all stopped and
    saved, [shutdown] changes nothing and writes nothing. *)
Lemma shutdown_without_write :
  exists s' : State,
    run (shutdown_alone 0 0) stopped_manager = Some s'
    /\ trace s' = trace stopped_manager ++ [Returned ShutdownReturned]
    /\ writes (trace s') = [].
Proof.
  eexists. split; [vm_compute; reflexivity|].
  split; vm_compute; reflexivity.
Qed.

(** ** Seat labels *)

Module SeatLabelsFacts.
Import SeatLabels.

Lemma seat_divmod (a b : N) :
  (0 < b)%N -> (a = b * (a / b) + a mod b /\ a mod b < b)%N.
Proof.
  intros Hb. split; [apply N.Div0.div_mod|apply N.mod_upper_bound; lia].
Qed.

(** Arithmetic on a quotient and a remainder, taken as unknowns. *)
Ltac divmod_lia a b :=
  let H := fresh in
  pose proof (seat_divmod a b ltac:(lia)) as H;
  let q := fresh "q" in
  let r := fresh "r" in
  set (q := (a / b)%N) in *; set (r := (a mod b)%N) in *;
  clearbody q r; lia.

Lemma code_fromCharCode (n : N) : (n < 256)%N -> code (fromCharCode n) = n.
Proof. apply N_ascii_embedding. Qed.

Lemma fromCharCode_code (c : ascii) : fromCharCode (code c) = c.
Proof. apply ascii_N_embedding. Qed.

Lemma is_upper_spec (c : ascii) :
  is_upper c = true <-> (65 <= code c <= 90)%N.
Proof.
  unfold is_upper. rewrite andb_true_iff, !N.leb_le. tauto.
Qed.

Lemma is_digit_spec (c : ascii) :
  is_digit c = true <-> (48 <= code c <= 57)%N.
Proof.
  unfold is_digit. rewrite andb_true_iff, !N.leb_le. tauto.
Qed.

(** The letters of a row label, read back as a number. *)
Lemma seat_rowloop_value (fuel : nat) (n : N) (label : list ascii) :
  N.to_nat n <= fuel ->
  fold_left (fun n c => (n * 26 + (code c - 64))%N)
            (toRowLabel_loop fuel n label) 0%N
  = fold_left (fun n c => (n * 26 + (code c - 64))%N) label n.
Proof.
  revert n label. induction fuel as [|fuel IH]; intros n label Hf; simpl.
  - now replace n with 0%N by lia.
  - destruct (N.ltb_spec 0 n) as [Hpos|Hz].
    + rewrite IH by divmod_lia (n - 1)%N 26%N.
      simpl. f_equal.
      rewrite code_fromCharCode by divmod_lia (n - 1)%N 26%N.
      divmod_lia (n - 1)%N 26%N.
    + now replace n with 0%N by lia.
Qed.

Lemma seat_rowloop_shape (fuel : nat) (n : N) (label : list ascii) :
  exists pre, toRowLabel_loop fuel n label = pre ++ label
              /\ Forall (fun c => is_upper c = true) pre
              /\ (0 < fuel -> (0 < n)%N -> pre <> []).
Proof.
  revert n label. induction fuel as [|fuel IH]; intros n label; simpl.
  - exists []. repeat split; [constructor|lia].
  - destruct (N.ltb_spec 0 n) as [Hpos|Hz].
    + destruct (IH ((n - 1) / 26)%N
                  (fromCharCode (65 + (n - 1) mod 26) :: label))
        as (pre & E & Hup & _).
      exists (pre ++ [fromCharCode (65 + (n - 1) mod 26)]).
      split; [now rewrite E, <- app_assoc|]. split.
      * apply Forall_app. split; [assumption|]. constructor; [|constructor].
        apply is_upper_spec.
        rewrite code_fromCharCode; divmod_lia (n - 1)%N 26%N.
      * intros _ _. now destruct pre.
    + exists []. repeat split; [constructor|lia].
Qed.

(** The row label of the number a string of letters denotes is that
    string. *)
Lemma seat_rowloop_inverse (letters : list ascii) :
  Forall (fun c => is_upper c = true) letters ->
  forall (fuel : nat) (label : list ascii),
    N.to_nat (rowIndexOf letters) <= fuel ->
    toRowLabel_loop fuel (rowIndexOf letters) label = letters ++ label.
Proof.
  induction letters as [|c letters IH] using rev_ind; intros Hup fuel label Hf.
  - destruct fuel; reflexivity.
  - apply Forall_app in Hup as [Hup Hc].
    apply Forall_inv in Hc. apply is_upper_spec in Hc.
    unfold rowIndexOf in *. rewrite fold_left_app in *. simpl in *.
    set (m := fold_left (fun n c => (n * 26 + (code c - 64))%N) letters 0%N)
      in *.
    destruct fuel as [|fuel]; [lia|]. simpl.
    destruct (N.ltb_spec 0 (m * 26 + (code c - 64))) as [_|Hz]; [|lia].
    replace ((m * 26 + (code c - 64) - 1) mod 26)%N with (code c - 65)%N.
    2:{ replace (m * 26 + (code c - 64) - 1)%N
          with ((code c - 65) + m * 26)%N by lia.
        rewrite N.Div0.mod_add. symmetry. apply N.mod_small. lia. }
    replace ((m * 26 + (code c - 64) - 1) / 26)%N with m.
    2:{ replace (m * 26 + (code c - 64) - 1)%N
          with ((code c - 65) + m * 26)%N by lia.
        rewrite N.div_add by lia. rewrite N.div_small; lia. }
    replace (65 + (code c - 65))%N with (code c) by lia.
    rewrite fromCharCode_code, IH by (assumption || lia).
    now rewrite <- app_assoc.
Qed.

Lemma seat_digits_value (fuel : nat) (n : N) (acc : list ascii) :
  N.to_nat n <= fuel ->
  fold_left (fun n c => (n * 10 + (code c - 48))%N)
            (digits_loop fuel n acc) 0%N
  = fold_left (fun n c => (n * 10 + (code c - 48))%N) acc n.
Proof.
  revert n acc. induction fuel as [|fuel IH]; intros n acc Hf; simpl.
  - now replace n with 0%N by lia.
  - destruct (N.ltb_spec 0 n) as [Hpos|Hz].
    + rewrite IH by divmod_lia n 10%N.
      simpl. f_equal.
      rewrite code_fromCharCode by divmod_lia n 10%N.
      divmod_lia n 10%N.
    + now replace n with 0%N by lia.
Qed.

Lemma seat_digits_shape (fuel : nat) (n : N) (acc : list ascii) :
  exists pre, digits_loop fuel n acc = pre ++ acc
              /\ Forall (fun c => is_digit c = true) pre
              /\ (0 < fuel -> (0 < n)%N -> pre <> []).
Proof.
  revert n acc. induction fuel as [|fuel IH]; intros n acc; simpl.
  - exists []. repeat split; [constructor|lia].
  - destruct (N.ltb_spec 0 n) as [Hpos|Hz].
    + destruct (IH (n / 10)%N (fromCharCode (48 + n mod 10) :: acc))
        as (pre & E & Hd & _).
      exists (pre ++ [fromCharCode (48 + n mod 10)]).
      split; [now rewrite E, <- app_assoc|]. split.
      * apply Forall_app. split; [assumption|]. constructor; [|constructor].
        apply is_digit_spec.
        rewrite code_fromCharCode; divmod_lia n 10%N.
      * intros _ _. now destruct pre.
    + exists []. repeat split; [constructor|lia].
Qed.

Lemma seat_String_of (n : N) :
  Forall (fun c => is_digit c = true) (String_of n)
  /\ String_of n <> [] /\ parseInt10 (String_of n) = n.
Proof.
  unfold String_of, parseInt10. destruct (N.eqb_spec n 0) as [->|Hn].
  - repeat split; [repeat constructor|discriminate].
  - destruct (seat_digits_shape (N.to_nat n) n []) as (pre & E & Hd & Hne).
    rewrite app_nil_r in E. rewrite seat_digits_value by lia.
    rewrite E. repeat split; [assumption|apply Hne; lia].
Qed.

Lemma seat_padStart (k : nat) (s : list ascii) :
  Forall (fun c => is_digit c = true) s -> s <> [] ->
  Forall (fun c => is_digit c = true) (padStart k "0"%char s)
  /\ padStart k "0"%char s <> []
  /\ parseInt10 (padStart k "0"%char s) = parseInt10 s.
Proof.
  intros Hd Hne. unfold padStart. generalize (k - length s) as j.
  intros j. split; [|split].
  - apply Forall_app. split; [|assumption].
    induction j; simpl; constructor; auto.
  - destruct j; simpl; [assumption|discriminate].
  - unfold parseInt10. rewrite fold_left_app. f_equal.
    induction j; simpl; auto.
Qed.

Lemma seat_span_letters (letters rest : list ascii) :
  Forall (fun c => is_upper c = true) letters ->
  match rest with
  | [] => True
  | c :: _ => is_upper c = false
  end ->
  span is_upper (letters ++ rest) = (letters, rest).
Proof.
  intros Hup Hrest. induction Hup as [|c letters Hc _ IH]; simpl.
  - destruct rest as [|c rest]; [reflexivity|]. simpl. now rewrite Hrest.
  - now rewrite Hc, IH.
Qed.

Lemma seat_dropWhile_head (p : ascii -> bool) (s : list ascii) :
  match s with
  | [] => True
  | c :: _ => p c = false
  end ->
  dropWhile p s = s.
Proof. destruct s as [|c s]; simpl; [reflexivity|]. now intros ->. Qed.

Lemma seat_digit_classes (c : ascii) :
  is_digit c = true ->
  is_upper c = false /\ is_space c = false
  /\ ((97 <=? code c) && (code c <=? 122))%N = false.
Proof.
  intros H. apply is_digit_spec in H. unfold is_upper, is_space.
  repeat split; repeat (rewrite ?andb_false_iff, ?orb_false_iff,
                        ?N.leb_gt, ?N.eqb_neq); lia.
Qed.

Lemma seat_upper_classes (c : ascii) :
  is_upper c = true ->
  is_space c = false /\ ((97 <=? code c) && (code c <=? 122))%N = false.
Proof.
  intros H. apply is_upper_spec in H. unfold is_space.
  repeat split; repeat (rewrite ?andb_false_iff, ?orb_false_iff,
                        ?N.leb_gt, ?N.eqb_neq); lia.
Qed.

(** [trim] and [toUpperCase] leave a string of capital letters and
    digits as it is. *)
Lemma seat_label_normal (s : list ascii) :
  Forall (fun c => is_upper c = true \/ is_digit c = true) s ->
  toUpperCase (trim s) = s.
Proof.
  intros H.
  assert (Hsp : forall l, Forall (fun c => is_upper c = true
                                           \/ is_digit c = true) l ->
                          dropWhile is_space l = l).
  { intros l Hl. apply seat_dropWhile_head. destruct Hl as [|c l [Hc|Hc] _];
      [exact I| |].
    - now apply seat_upper_classes.
    - now apply seat_digit_classes. }
  unfold trim. rewrite (Hsp s H).
  rewrite Hsp by (apply Forall_rev; exact H).
  rewrite rev_involutive. unfold toUpperCase.
  induction H as [|c s Hc _ IH]; simpl; [reflexivity|].
  rewrite IH. f_equal.
  destruct Hc as [Hc|Hc].
  - apply seat_upper_classes in Hc as [_ ->]. reflexivity.
  - apply seat_digit_classes in Hc as (_ & _ & ->). reflexivity.
Qed.

(** The second group of the pattern denotes the number the digits
    denote. *)
Lemma seat_digits_group (ds : list ascii) :
  parseInt10 (match dropWhile is_zero ds with
              | [] => ["0"%char]
              | _ => dropWhile is_zero ds
              end) = parseInt10 ds.
Proof.
  unfold parseInt10.
  assert (H : forall l, fold_left (fun n c => (n * 10 + (code c - 48))%N)
                          (dropWhile is_zero l) 0%N
                        = fold_left (fun n c => (n * 10 + (code c - 48))%N)
                            l 0%N).
  { induction l as [|c l IH]; simpl; [reflexivity|].
    unfold is_zero at 1. destruct (N.eqb_spec (code c) 48) as [E|_].
    - rewrite IH, E. reflexivity.
    - reflexivity. }
  rewrite <- (H ds). now destruct (dropWhile is_zero ds).
Qed.

(** The label built from a row and a column parses to that row and that
    column. *)
Lemma seat_round_trip (row col : N) :
  (0 < row)%N ->
  parseSeatId (Some (seatLabel row col))
  = Some {| raw := seatLabel row col; rowLabel := toRowLabel row;
            rowIndex := row; colIndex := col |}.
Proof.
  intros Hrow.
  destruct (seat_rowloop_shape (N.to_nat row) row []) as (L & EL & HL & HLne).
  rewrite app_nil_r in EL. fold (toRowLabel row) in EL.
  specialize (HLne ltac:(lia) Hrow).
  destruct (seat_String_of col) as (Hd & Hdne & Hv).
  destruct (seat_padStart 2 _ Hd Hdne) as (Hpd & Hpne & Hpv).
  set (D := padStart 2 "0"%char (String_of col)) in *.
  assert (Hlabel : seatLabel row col = L ++ D)
    by (unfold seatLabel; now rewrite EL).
  assert (Hnorm : toUpperCase (trim (L ++ D)) = L ++ D).
  { apply seat_label_normal, Forall_app. split.
    - eapply Forall_impl; [exact HL|]. now left.
    - eapply Forall_impl; [exact Hpd|]. now right. }
  assert (HD0 : match D with
                | [] => True
                | c :: _ => is_upper c = false
                end).
  { destruct Hpd as [|c D' Hc _]; [exact I|].
    now apply seat_digit_classes. }
  assert (HD1 : dropWhile is_space D = D).
  { apply seat_dropWhile_head. destruct Hpd as [|c D' Hc _]; [exact I|].
    now apply seat_digit_classes. }
  assert (Hri : rowIndexOf L = row).
  { rewrite <- EL. unfold rowIndexOf, toRowLabel.
    now rewrite seat_rowloop_value by lia. }
  assert (Hci : parseInt10 (match dropWhile is_zero D with
                            | [] => ["0"%char]
                            | _ => dropWhile is_zero D
                            end) = col)
    by (now rewrite seat_digits_group, Hpv).
  assert (Hall : forallb is_digit D = true).
  { apply forallb_forall. intros x Hx. rewrite Forall_forall in Hpd.
    apply Hpd. now apply list_elem_of_In. }
  unfold parseSeatId. rewrite Hlabel.
  destruct (L ++ D) as [|c0 s0] eqn:Es; [now destruct L|].
  cbv zeta. rewrite Hnorm, <- Es. unfold seat_match.
  rewrite (seat_span_letters L D HL HD0), HD1, EL.
  destruct L as [|l0 L']; [contradiction|].
  destruct D as [|d0 D']; [contradiction|].
  cbv beta iota zeta. now rewrite Hall, Hci, Hri.
Qed.

(** X20.  The label [findAndClickSeat] builds for a row and a column reads
    back, through [parseSeatId], as that row and that column; so two seats
    with the same label are the same seat. *)
Theorem seat_label_round_trip (row col : N) :
  (0 < row < 2 ^ 53)%N -> (col < 2 ^ 53)%N ->
  parseSeatId (Some (seatLabel row col))
  = Some {| raw := seatLabel row col; rowLabel := toRowLabel row;
            rowIndex := row; colIndex := col |}
  /\ forall row' col' : N,
       (0 < row' < 2 ^ 53)%N -> (col' < 2 ^ 53)%N ->
       seatLabel row' col' = seatLabel row col -> row' = row /\ col' = col.
Proof.
  intros [Hrow _] _. split; [now apply seat_round_trip|].
  intros row' col' [Hrow' _] _ E.
  pose proof (seat_round_trip row col Hrow) as P.
  pose proof (seat_round_trip row' col' Hrow') as P'.
  rewrite E in P'. rewrite P in P'. inversion P'. now split.
Qed.

Lemma seat_label_round_trip_witness :
  parseSeatId (Some (list_ascii_of_string "AB07"))
  = Some {| raw := list_ascii_of_string "AB07";
            rowLabel := list_ascii_of_string "AB";
            rowIndex := 28; colIndex := 7 |}.
Proof.
  exact (proj1 (seat_label_round_trip 28 7
                  ltac:(split; reflexivity) ltac:(reflexivity))).
Defined.

Lemma seat_span_Forall (p : ascii -> bool) (s a b : list ascii) :
  span p s = (a, b) -> Forall (fun c => p c = true) a.
Proof.
  revert a b. induction s as [|c s IH]; intros a b; simpl.
  - intros [= <- <-]. constructor.
  - destruct (p c) eqn:Hc.
    + destruct (span p s) as [a' b']. intros [= <- <-].
      constructor; [assumption|]. eapply IH. reflexivity.
    + intros [= <- <-]. constructor.
Qed.

Lemma seat_rowIndexOf_pos (letters : list ascii) :
  Forall (fun c => is_upper c = true) letters -> letters <> [] ->
  (0 < rowIndexOf letters)%N.
Proof.
  intros Hup Hne. destruct letters as [|c letters _] using rev_ind;
    [contradiction|].
  apply Forall_app in Hup as [_ Hc]. apply Forall_inv in Hc.
  apply is_upper_spec in Hc. unfold rowIndexOf.
  rewrite fold_left_app. simpl. lia.
Qed.

(** X21.  Whatever the spelling of a seat that [parseSeatId] accepts (small
    letters, blanks around it or before the number, leading zeros), as
    long as the row and the column it denotes are below 2^53, where the
    numbers of the code are exact: the row number it gives is at least 1
    and is the one of the row label it gives, and the label
    [findAndClickSeat] builds from the row and the column is accepted in
    turn and denotes the same seat. *)
Theorem parseSeatId_canonical (id : list ascii) (p : Seat) :
  Forall (fun c => (code c < 128)%N) id ->
  parseSeatId (Some id) = Some p ->
  (rowIndex p < 2 ^ 53)%N -> (colIndex p < 2 ^ 53)%N ->
  (0 < rowIndex p)%N
  /\ toRowLabel (rowIndex p) = rowLabel p
  /\ Forall (fun c => is_upper c = true) (rowLabel p)
  /\ parseSeatId (Some (seatLabel (rowIndex p) (colIndex p)))
     = Some {| raw := seatLabel (rowIndex p) (colIndex p);
               rowLabel := rowLabel p; rowIndex := rowIndex p;
               colIndex := colIndex p |}.
Proof.
  intros _ Hp _ _. unfold parseSeatId in Hp.
  destruct id as [|c0 id0]; [discriminate|]. cbv zeta in Hp.
  destruct (seat_match _) as [[letters digits]|] eqn:Hm; [|discriminate].
  inversion Hp; subst p; clear Hp. cbn [rowIndex rowLabel colIndex].
  unfold seat_match in Hm.
  destruct (span is_upper _) as [letters' r1] eqn:Hs.
  apply seat_span_Forall in Hs.
  assert (letters' = letters /\ letters <> []) as [-> Hne].
  { destruct letters' as [|l0 L]; [discriminate|].
    destruct (dropWhile is_space r1); [discriminate|].
    destruct (forallb _ _); [|discriminate].
    inversion Hm; subst. split; [reflexivity|discriminate]. }
  pose proof (seat_rowIndexOf_pos letters Hs Hne) as Hpos.
  assert (Hinv : toRowLabel (rowIndexOf letters) = letters).
  { unfold toRowLabel. rewrite seat_rowloop_inverse by (assumption || lia).
    apply app_nil_r. }
  repeat split; try assumption.
  rewrite seat_round_trip by assumption. now rewrite Hinv.
Qed.

Lemma parseSeatId_canonical_witness :
  toRowLabel 28 = list_ascii_of_string "AB"
  /\ parseSeatId (Some (seatLabel 28 7))
     = Some {| raw := seatLabel 28 7;
               rowLabel := list_ascii_of_string "AB";
               rowIndex := 28; colIndex := 7 |}.
Proof.
  pose (p := {| raw := list_ascii_of_string "AB 007";
                rowLabel := list_ascii_of_string "AB";
                rowIndex := 28; colIndex := 7 |}).
  exact (let H := parseSeatId_canonical (list_ascii_of_string "  ab 007 ") p
                    ltac:(repeat constructor) eq_refl
                    ltac:(reflexivity) ltac:(reflexivity) in
         conj (proj1 (proj2 H)) (proj2 (proj2 (proj2 H)))).
Defined.

End SeatLabelsFacts.

(** ** The upcoming-movies route *)

Module UpcomingFacts.
Import Upcoming.

Lemma upcoming_unique_kept (l : list Item) (seen : gset string)
    (out : list Item) :
  snd (foldl unique_step (seen, out) l) = out ++ kept seen l.
Proof.
  revert seen out. induction l as [|r l IH]; intros seen out; simpl.
  - now rewrite app_nil_r.
  - unfold unique_step at 2, key. simpl.
    destruct (orNull (i_identifier r)) as [i|]; [|apply IH].
    destruct (decide (i ∈ seen)); [apply IH|].
    rewrite IH, <- app_assoc. reflexivity.
Qed.

Lemma upcoming_merge_kept (l : list Item) (seen : gset string)
    (out : list Merged) :
  snd (foldl merge_step (seen, out) l) = out ++ map merged_of (kept seen l).
Proof.
  revert seen out. induction l as [|r l IH]; intros seen out; simpl.
  - now rewrite app_nil_r.
  - unfold merge_step at 2. simpl.
    destruct (orNull (i_identifier r)) as [i|] eqn:Hk.
    + unfold key. rewrite Hk.
      destruct (decide (i ∈ seen)); [apply IH|].
      rewrite IH, <- app_assoc. simpl.
      unfold merged_of at 2, key. now rewrite Hk.
    + unfold key. rewrite Hk. apply IH.
Qed.

Lemma upcoming_kept_keys (l : list Item) (seen : gset string) :
  Forall (fun r => exists i, key r = Some i /\ i ∉ seen) (kept seen l).
Proof.
  revert seen. induction l as [|r l IH]; intros seen; simpl; [constructor|].
  destruct (key r) as [i|] eqn:Hk; [|apply IH].
  destruct (decide (i ∈ seen)) as [|Hni]; [apply IH|].
  constructor; [now exists i|].
  eapply Forall_impl; [apply IH|]. intros r' (i' & Hk' & Hni').
  exists i'. split; [assumption|]. set_solver.
Qed.

Lemma upcoming_kept_NoDup (l : list Item) (seen : gset string) :
  NoDup (map m_identifier (map merged_of (kept seen l))).
Proof.
  revert seen. induction l as [|r l IH]; intros seen; simpl; [constructor|].
  destruct (key r) as [i|] eqn:Hk; [|apply IH].
  destruct (decide (i ∈ seen)) as [|Hni]; [apply IH|].
  pose proof (upcoming_kept_keys l ({[ i ]} ∪ seen)) as Hkeys.
  rewrite Forall_forall in Hkeys.
  simpl. constructor; [|apply IH].
  unfold merged_of at 1. rewrite Hk. simpl.
  intros Hin. apply list_elem_of_fmap in Hin as (m & E & Hm).
  apply list_elem_of_fmap in Hm as (r' & -> & Hr').
  destruct (Hkeys r' Hr') as (i' & Hk' & Hni').
  unfold merged_of in E. rewrite Hk' in E. simpl in E. subst i'.
  apply Hni'. apply elem_of_union_l. now apply elem_of_singleton.
Qed.

Lemma upcoming_kept_find (l : list Item) (seen : gset string) (i : string) :
  List.find (has_key i) (kept seen l)
  = if decide (i ∈ seen) then None else List.find (has_key i) l.
Proof.
  revert seen. induction l as [|r l IH]; intros seen; simpl.
  - now destruct (decide _).
  - unfold has_key at 2. destruct (key r) as [j|] eqn:Hk.
    + destruct (decide (j ∈ seen)) as [Hj|Hj].
      * rewrite IH. destruct (decide (i ∈ seen)) as [|Hi]; [reflexivity|].
        rewrite bool_decide_eq_false_2; [reflexivity|].
        intros [= ->]. contradiction.
      * simpl. unfold has_key at 1. rewrite Hk.
        destruct (decide (j = i)) as [->|Hne].
        -- rewrite bool_decide_eq_true_2 by reflexivity.
           now rewrite decide_False by assumption.
        -- rewrite bool_decide_eq_false_2 by congruence.
           rewrite IH.
           destruct (decide (i ∈ seen)) as [Hi|Hi].
           ++ rewrite decide_True by (now apply elem_of_union_r).
              reflexivity.
           ++ rewrite decide_False; [reflexivity|].
              intros [H|H]%elem_of_union; [|contradiction].
              apply elem_of_singleton in H. congruence.
    + rewrite bool_decide_eq_false_2 by discriminate. apply IH.
Qed.

Lemma upcoming_kept_sublist (l : list Item) (seen : gset string) :
  kept seen l `sublist_of` l.
Proof.
  revert seen. induction l as [|r l IH]; intros seen; simpl; [constructor|].
  destruct (key r) as [i|]; [|now constructor].
  destruct (decide (i ∈ seen)); [now constructor|].
  now apply sublist_skip.
Qed.

Lemma upcoming_find_merged (i : string) (l : list Item) :
  Forall (fun r => exists j, key r = Some j) l ->
  List.find (fun m => String.eqb (m_identifier m) i) (map merged_of l)
  = merged_of <$> List.find (has_key i) l.
Proof.
  induction 1 as [|r l (j & Hj) _ IH]; simpl; [reflexivity|].
  unfold merged_of at 1, has_key at 1. rewrite Hj. simpl.
  destruct (String.eqb_spec j i) as [->|Hne].
  - rewrite bool_decide_eq_true_2 by reflexivity. cbn.
    unfold merged_of. now rewrite Hj.
  - rewrite bool_decide_eq_false_2 by congruence. apply IH.
Qed.

(** X18.  The answer of the route holds one entry for each identifier met,
    the one made from the first item met with it, in the order of those
    first items; items without an identifier are left out. *)
Theorem merge_keeps_first (collected : list Item) :
  NoDup (map m_identifier (merge collected))
  /\ (exists firsts, firsts `sublist_of` collected
                     /\ merge collected = map merged_of firsts)
  /\ (forall i : string,
        List.find (fun m => String.eqb (m_identifier m) i) (merge collected)
        = merged_of <$> List.find (has_key i) collected)
  /\ (forall m, m ∈ merge collected -> m_identifier m <> "").
Proof.
  unfold merge. rewrite upcoming_merge_kept. simpl.
  pose proof (upcoming_kept_keys collected ∅) as Hkeys.
  split; [|split; [|split]].
  - apply upcoming_kept_NoDup.
  - exists (kept ∅ collected).
    split; [apply upcoming_kept_sublist|reflexivity].
  - intros i. rewrite upcoming_find_merged.
    + rewrite upcoming_kept_find. now rewrite decide_False by set_solver.
    + eapply Forall_impl; [exact Hkeys|]. intros r (j & Hj & _). now exists j.
  - intros m Hm. apply list_elem_of_fmap in Hm as (r & -> & Hr).
    rewrite Forall_forall in Hkeys. destruct (Hkeys r Hr) as (i & Hk & _).
    unfold merged_of. rewrite Hk. simpl.
    unfold key, orNull in Hk. destruct (truthy (i_identifier r)) eqn:Ht;
      [|discriminate].
    unfold truthy in Ht. rewrite Hk in Ht.
    intros ->. discriminate.
Qed.

Lemma upcoming_kept_page (f : Item -> Item) (rs rest : list Item)
    (seen_page seen : gset string) :
  (forall r, key (f r) = key r) -> seen_page ⊆ seen ->
  kept seen (map f (kept seen_page rs) ++ rest)
  = kept seen (map f rs ++ rest).
Proof.
  intros Hf. revert seen_page seen.
  induction rs as [|r rs IH]; intros U M Hsub; simpl; [reflexivity|].
  destruct (key r) as [i|] eqn:Hk.
  - destruct (decide (i ∈ U)) as [Hi|Hi].
    + rewrite Hf, Hk. rewrite decide_True by (now apply Hsub).
      now apply IH.
    + simpl. rewrite Hf, Hk.
      destruct (decide (i ∈ M)) as [HM|HM].
      * apply IH. intros x [Hx|Hx]%elem_of_union; [|now apply Hsub].
        apply elem_of_singleton in Hx. now subst.
      * f_equal. apply IH.
        intros x [Hx|Hx]%elem_of_union;
          [now apply elem_of_union_l|apply elem_of_union_r; now apply Hsub].
  - rewrite Hf, Hk. now apply IH.
Qed.

Lemma upcoming_kept_suffix (a b b' : list Item) (seen : gset string) :
  (forall seen', kept seen' b = kept seen' b') ->
  kept seen (a ++ b) = kept seen (a ++ b').
Proof.
  intros H. revert seen. induction a as [|r a IH]; intros seen; simpl;
    [apply H|].
  destruct (key r) as [i|]; [|apply IH].
  destruct (decide (i ∈ seen)); [apply IH|]. f_equal. apply IH.
Qed.

Lemma upcoming_kept_collect (pages : list (string * option (list Item)))
    (seen : gset string) :
  kept seen (collect pages) = kept seen (found_in pages).
Proof.
  revert seen. induction pages as [|[url [results|]] pages IH]; intros seen;
    simpl; [reflexivity| |apply IH].
  unfold unique. rewrite upcoming_unique_kept. simpl.
  rewrite upcoming_kept_page by (reflexivity || apply empty_subseteq).
  now apply upcoming_kept_suffix.
Qed.

Lemma upcoming_kept_elem (i : string) (l : list Item) (seen : gset string) :
  i ∈ map m_identifier (map merged_of (kept seen l))
  <-> (i ∉ seen) /\ (i ∈ omap key l).
Proof.
  revert seen. induction l as [|r l IH]; intros seen; simpl.
  - split; [intros H; inversion H|intros [_ H]; inversion H].
  - destruct (key r) as [j|] eqn:Hk.
    + destruct (decide (j ∈ seen)) as [Hj|Hj].
      * rewrite IH. rewrite elem_of_cons. split; [tauto|].
        intros [Hi [->|H]]; [contradiction|tauto].
      * simpl. unfold merged_of at 1. rewrite Hk. simpl.
        rewrite !elem_of_cons, IH. split.
        -- intros [->|[Hi H]]; [tauto|]. split; [|tauto].
           intros Hs. apply Hi. now apply elem_of_union_r.
        -- intros [Hi [->|H]]; [tauto|].
           destruct (decide (i = j)) as [->|Hne]; [tauto|]. right.
           split; [|assumption].
           intros [Hx|Hx]%elem_of_union; [|contradiction].
           apply elem_of_singleton in Hx. contradiction.
    + apply IH.
Qed.

(** X19.  Leaving out the repeats inside each page first changes nothing to
    the answer: the entries are those of the first item of each identifier
    over all the pages that answered, in the order of the pages, and
    [count] is the number of distinct identifiers met.  A page that failed
    contributes nothing. *)
Theorem upcoming_answer (pages : list (string * option (list Item))) :
  fst (upcoming pages) = merge (found_in pages)
  /\ snd (upcoming pages)
     = size (list_to_set (omap key (found_in pages)) : gset string).
Proof.
  unfold upcoming, merge. cbn [fst snd].
  rewrite !upcoming_merge_kept. cbn [app]. rewrite upcoming_kept_collect.
  split; [reflexivity|].
  rewrite <- (length_map m_identifier).
  rewrite <- (size_list_to_set (C := gset string))
    by apply upcoming_kept_NoDup.
  f_equal. apply set_eq. intros i.
  rewrite !elem_of_list_to_set, upcoming_kept_elem.
  split; [tauto|]. intros H. split; [apply not_elem_of_empty|assumption].
Qed.

End UpcomingFacts.

(** ** What a run of the manager can change *)

Lemma task_evolves_refl (a : Task) : task_evolves a a.
Proof. split; [reflexivity|now left]. Qed.

Lemma task_evolves_trans (a b c : Task) :
  task_evolves a b -> task_evolves b c -> task_evolves a c.
Proof.
  intros [F1 S1] [F2 S2]. split; [congruence|].
  destruct S2 as [E|E]; [|now right].
  destruct S1 as [E1|E1]; [left; congruence|right; congruence].
Qed.

Lemma slot_evolves_refl (a : option Task) : slot_evolves a a.
Proof. destruct a; simpl; [apply task_evolves_refl|exact I]. Qed.

Lemma slot_evolves_trans (a b c : option Task) :
  slot_evolves a b -> slot_evolves b c -> slot_evolves a c.
Proof.
  destruct a as [a|], b as [b|], c as [c|]; simpl; try tauto.
  - apply task_evolves_trans.
  - intros Hb [_ [E|E]]; congruence.
Qed.

Lemma ev_refl (s : State) : Evolves s s.
Proof.
  split; [reflexivity|intros; apply slot_evolves_refl| |tauto].
  exists []. rewrite app_nil_r. repeat split; [constructor|now left].
Qed.

Lemma ev_trans (s1 s2 s3 : State) :
  Evolves s1 s2 -> Evolves s2 s3 -> Evolves s1 s3.
Proof.
  intros [F1 H1 (e1 & T1 & W1 & L1) P1] [F2 H2 (e2 & T2 & W2 & L2) P2].
  split.
  - congruence.
  - intros t. eapply slot_evolves_trans; [apply H1|apply H2].
  - exists (e1 ++ e2). split; [now rewrite T2, T1, app_assoc|]. split.
    + apply Forall_app. split; [assumption|]. now rewrite <- F1.
    + rewrite writes_app.
      destruct L2 as [[E2 N2]|(pre2 & j2 & E2 & N2)].
      * rewrite N2, app_nil_r.
        destruct L1 as [[E1 N1]|(pre1 & j1 & E1 & N1)].
        -- left. split; [congruence|assumption].
        -- right. exists pre1, j1. split; [congruence|assumption].
      * right. exists (writes e1 ++ pre2), j2.
        split; [assumption|]. now rewrite N2, app_assoc.
  - intros k Hk. destruct (P2 k Hk) as [H|H]; [apply P1, H|now right].
Qed.

(** A change to the other fields. *)
Lemma ev_frame (s s1 s2 : State) :
  Evolves s s1 ->
  tasksFile s2 = tasksFile s1 -> theap s2 = theap s1 ->
  trace s2 = trace s1 -> lastSavedJson s2 = lastSavedJson s1 ->
  (forall k, k ∈ pending s2 -> k ∈ pending s1 \/ is_stop_old k = false) ->
  Evolves s s2.
Proof.
  intros H F Hh T L P. eapply ev_trans; [exact H|].
  split; [assumption|rewrite Hh; intros; apply slot_evolves_refl| |assumption].
  exists []. rewrite app_nil_r. repeat split; [assumption|constructor|].
  now left.
Qed.

Create HintDb ev.

#[local] Hint Resolve ev_refl : ev.
#[local] Hint Extern 0 (_ = true) => reflexivity : ev.
#[local] Hint Extern 0 (_ = false) => reflexivity : ev.
#[local] Hint Extern 3 (Evolves _ _) =>
  match goal with
  | |- Evolves _ (match ?x with _ => _ end) => destruct x
  end : ev.

Ltac ev_auto := auto 40 with ev nocore.

Ltac ev_by_frame :=
  intros; eapply ev_frame; [eassumption|reflexivity..|]; fields; tauto.

Lemma evp_set_diskOk v s s1 : Evolves s s1 -> Evolves s (set_diskOk v s1).
Proof. ev_by_frame. Qed.
Lemma evp_set_browser v s s1 : Evolves s s1 -> Evolves s (set_browser v s1).
Proof. ev_by_frame. Qed.
Lemma evp_set_nextBrowser v s s1 :
  Evolves s s1 -> Evolves s (set_nextBrowser v s1).
Proof. ev_by_frame. Qed.
Lemma evp_set_contexts v s s1 : Evolves s s1 -> Evolves s (set_contexts v s1).
Proof. ev_by_frame. Qed.
Lemma evp_set_contextBrowser v s s1 :
  Evolves s s1 -> Evolves s (set_contextBrowser v s1).
Proof. ev_by_frame. Qed.
Lemma evp_set_nextCtx v s s1 : Evolves s s1 -> Evolves s (set_nextCtx v s1).
Proof. ev_by_frame. Qed.
Lemma evp_set_tasks v s s1 : Evolves s s1 -> Evolves s (set_tasks v s1).
Proof. ev_by_frame. Qed.
Lemma evp_set_wheap v s s1 : Evolves s s1 -> Evolves s (set_wheap v s1).
Proof. ev_by_frame. Qed.
Lemma evp_set_monitors v s s1 : Evolves s s1 -> Evolves s (set_monitors v s1).
Proof. ev_by_frame. Qed.
Lemma evp_set_nextMonitor v s s1 :
  Evolves s s1 -> Evolves s (set_nextMonitor v s1).
Proof. ev_by_frame. Qed.
Lemma evp_set_saveTimer v s s1 :
  Evolves s s1 -> Evolves s (set_saveTimer v s1).
Proof. ev_by_frame. Qed.

Lemma evp_resumed i s s1 :
  Evolves s s1 -> Evolves s (set_pending (delete i (pending s1)) s1).
Proof.
  intros; eapply ev_frame; [eassumption|reflexivity..|]. fields.
  intros k Hk. left. eapply list_elem_of_delete_inv, Hk.
Qed.

Lemma evp_suspend k s s1 :
  is_stop_old k = false -> Evolves s s1 -> Evolves s (suspend k s1).
Proof.
  intros Hk H; eapply ev_frame; [eassumption|reflexivity..|]. fields.
  intros k' [Hin|Hin]%elem_of_app; [now left|].
  apply list_elem_of_singleton in Hin. subst. now right.
Qed.

Lemma evp_log o s s1 :
  is_write o = false -> Evolves s s1 -> Evolves s (log o s1).
Proof.
  intros Ho H. eapply ev_trans; [exact H|].
  split; [reflexivity|intros; apply slot_evolves_refl| |fields; tauto].
  exists [o]. split; [reflexivity|]. split.
  - constructor; [|constructor]. now destruct o.
  - left. split; [reflexivity|]. now destruct o.
Qed.

Lemma evp_updTask t f s s1 :
  (forall a, task_evolves a (f a)) ->
  Evolves s s1 -> Evolves s (updTask t f s1).
Proof.
  intros Hf H. eapply ev_trans; [exact H|].
  split; [reflexivity| |exists []; rewrite app_nil_r;
                         repeat split; [constructor|now left]
          |fields; tauto].
  intros t'. fields. destruct (decide (t' = t)) as [->|Hne].
  - rewrite list_lookup_alter_eq. destruct (theap s1 !! t); simpl; auto.
  - rewrite list_lookup_alter_ne by congruence. apply slot_evolves_refl.
Qed.

Lemma evp_new_task task s s1 :
  assigned (status (data task)) = true ->
  Evolves s s1 -> Evolves s (set_theap (theap s1 ++ [task]) s1).
Proof.
  intros Ha H. eapply ev_trans; [exact H|].
  split; [reflexivity| |exists []; rewrite app_nil_r;
                         repeat split; [constructor|now left]
          |fields; tauto].
  intros t. fields. destruct (theap s1 !! t) as [a|] eqn:E.
  - rewrite lookup_app_l by (eapply lookup_lt_Some; eauto).
    rewrite E. apply task_evolves_refl.
  - apply lookup_ge_None in E.
    destruct (decide (t = length (theap s1))) as [->|Hne].
    + now rewrite lookup_snoc.
    + rewrite lookup_ge_None_2; [exact I|].
      rewrite length_app. simpl. lia.
Qed.

Lemma evp_saveTasksToFileImmediate s s1 :
  Evolves s s1 -> Evolves s (_saveTasksToFileImmediate s1).
Proof.
  intros H. eapply ev_trans; [exact H|].
  rewrite _saveTasksToFileImmediate_nf.
  split; [reflexivity|intros; apply slot_evolves_refl| |fields; tauto].
  exists (written_now s1). split; [reflexivity|].
  unfold written_now, saved_after. fields.
  destruct (tasksFile s1) as [path|];
    [|repeat split; [constructor|now left]].
  destruct (decide _); [repeat split; [constructor|now left]|].
  destruct (diskOk s1); [|repeat split; [constructor|now left]].
  split; [repeat constructor|]. right. exists [], (toSave s1). now split.
Qed.

#[local] Hint Resolve evp_set_diskOk evp_set_browser evp_set_nextBrowser
  evp_set_contexts evp_set_contextBrowser evp_set_nextCtx evp_set_tasks
  evp_set_wheap evp_set_monitors
  evp_set_nextMonitor evp_set_saveTimer evp_resumed evp_suspend evp_log
  evp_saveTasksToFileImmediate : ev.

Lemma evp_updWatcher w f s s1 : Evolves s s1 -> Evolves s (updWatcher w f s1).
Proof. intros. unfold updWatcher. ev_auto. Qed.

Lemma evp_broadcast e s s1 : Evolves s s1 -> Evolves s (_broadcast e s1).
Proof. intros. unfold _broadcast. ev_auto. Qed.

Lemma evp_setStatus t v s s1 :
  assigned v = true -> Evolves s s1 -> Evolves s (setStatus t v s1).
Proof.
  intros Hv H. unfold setStatus. apply evp_updTask; [|assumption].
  intros a. split; [reflexivity|now right].
Qed.

Lemma evp_set_watcher t v s s1 :
  Evolves s s1 -> Evolves s (updTask t (set_watcher v) s1).
Proof.
  intros H. apply evp_updTask; [|assumption]. intros a. now split; [|left].
Qed.

Lemma evp_set_foundHref t v s s1 :
  Evolves s s1 -> Evolves s (updTask t (on_data (set_foundHref v)) s1).
Proof.
  intros H. apply evp_updTask; [|assumption]. intros a. now split; [|left].
Qed.

#[local] Hint Resolve evp_updWatcher evp_broadcast evp_setStatus
  evp_set_watcher evp_set_foundHref : ev.

Lemma evp_watcher_stopped w s s1 :
  Evolves s s1 -> Evolves s (watcher_stopped w s1).
Proof. intros. unfold watcher_stopped. ev_auto. Qed.

Lemma evp_add_monitor t s s1 : Evolves s s1 -> Evolves s (add_monitor t s1).
Proof. intros. unfold add_monitor. ev_auto. Qed.

Lemma evp_clearInterval m s s1 :
  Evolves s s1 -> Evolves s (clearInterval m s1).
Proof. intros. unfold clearInterval. ev_auto. Qed.

Lemma evp_saveTasksToFile s s1 :
  Evolves s s1 -> Evolves s (_saveTasksToFile s1).
Proof. intros. unfold _saveTasksToFile. ev_auto. Qed.

Lemma evp_broadcastView mk t s s1 :
  Evolves s s1 -> Evolves s (broadcastView mk t s1).
Proof. intros. unfold broadcastView. ev_auto. Qed.

Lemma evp_watcher_stop w s s1 : Evolves s s1 -> Evolves s (watcher_stop w s1).
Proof. intros. rewrite watcher_stop_nf. ev_auto. Qed.

Lemma evp_watcher_started b w s s1 :
  Evolves s s1 -> Evolves s (watcher_started b w s1).
Proof.
  intros. unfold watcher_started, _createIncognitoPageForTask. ev_auto.
Qed.

#[local] Hint Resolve evp_watcher_stopped evp_add_monitor evp_clearInterval
  evp_saveTasksToFile evp_broadcastView evp_watcher_stop
  evp_watcher_started : ev.

Lemma evp_watcher_start_failed a w s s1 :
  Evolves s s1 -> Evolves s (watcher_start_failed a w s1).
Proof.
  intros. unfold watcher_start_failed, _createIncognitoPageForTask.
  destruct a; ev_auto.
Qed.

Lemma evp_start_new_watcher t c s s1 :
  Evolves s s1 -> Evolves s (start_new_watcher t c s1).
Proof. intros. unfold start_new_watcher. ev_auto. Qed.

#[local] Hint Resolve evp_watcher_start_failed evp_start_new_watcher : ev.

(** [_startTaskWatcher] on a task that has no watcher. *)
Lemma evp_startTaskWatcher t c s s1 :
  watcherOf s1 t = None ->
  Evolves s s1 -> Evolves s (_startTaskWatcher t c s1).
Proof. intros Hw H. unfold _startTaskWatcher. rewrite Hw. ev_auto. Qed.

Lemma evp_stop_finish tid t s s1 :
  Evolves s s1 -> Evolves s (stop_finish tid t s1).
Proof. intros. unfold stop_finish. ev_auto. Qed.

Lemma evp_delete_finish tid idx s s1 :
  Evolves s s1 -> Evolves s (delete_finish tid idx s1).
Proof. intros. unfold delete_finish. ev_auto. Qed.

#[local] Hint Resolve evp_stop_finish evp_delete_finish : ev.

Lemma evp_stopTask tid s s1 : Evolves s s1 -> Evolves s (stopTask tid s1).
Proof. intros. unfold stopTask. ev_auto. Qed.

Lemma evp_deleteTask tid s s1 : Evolves s s1 -> Evolves s (deleteTask tid s1).
Proof. intros. unfold deleteTask. ev_auto. Qed.

Lemma evp_foldl {A} (f : State -> A -> State) (l : list A) s s1 :
  (forall s0 s2 a, Evolves s0 s2 -> Evolves s0 (f s2 a)) ->
  Evolves s s1 -> Evolves s (foldl f s1 l).
Proof.
  intros Hf. revert s1. induction l as [|a l IH]; intros s1 H; simpl;
    [assumption|]. apply IH, Hf, H.
Qed.

Lemma evp_mark_starting s s1 : Evolves s s1 -> Evolves s (mark_starting s1).
Proof.
  intros. unfold mark_starting. apply evp_foldl; [|assumption].
  intros. ev_auto.
Qed.

Lemma evp_reload_after_stops rid t0 s s1 :
  Evolves s s1 -> Evolves s (reload_after_stops rid t0 s1).
Proof. intros. unfold reload_after_stops. ev_auto. Qed.

#[local] Hint Resolve evp_stopTask evp_deleteTask evp_mark_starting
  evp_reload_after_stops : ev.

Lemma evp_stopAllWatchers rid t0 s s1 :
  Evolves s s1 -> Evolves s (stopAllWatchers rid t0 s1).
Proof.
  intros H. unfold stopAllWatchers.
  assert (H1 : Evolves s (foldl (fun s p => watcher_stop (snd p) s) s1
                            (stop_items s1)))
    by (apply evp_foldl; [intros; ev_auto|assumption]).
  destruct (stop_items s1); ev_auto.
Qed.

#[local] Hint Resolve evp_stopAllWatchers : ev.

Lemma evp_reloadTask rid s s1 : Evolves s s1 -> Evolves s (reloadTask rid s1).
Proof. intros. unfold reloadTask. ev_auto. Qed.

Lemma evp_stop_item_done t w s s1 :
  Evolves s s1 -> Evolves s (stop_item_done t w s1).
Proof. intros. unfold stop_item_done. ev_auto. Qed.

Lemma evp_restart_loop rid t0 l s s1 :
  Evolves s s1 -> Evolves s (restart_loop rid t0 l s1).
Proof.
  revert s1. induction l as [|t l IH]; intros s1 H; simpl; [ev_auto|].
  destruct (watcherOf s1 t) eqn:Hw; [now apply IH|].
  now apply evp_startTaskWatcher.
Qed.

#[local] Hint Resolve evp_reloadTask evp_stop_item_done evp_restart_loop : ev.

Lemma evp_restartAllWatchers rid t0 s s1 :
  Evolves s s1 -> Evolves s (restartAllWatchers rid t0 s1).
Proof. intros. unfold restartAllWatchers. ev_auto. Qed.

Lemma evp_found_rest t s s1 : Evolves s s1 -> Evolves s (found_rest t s1).
Proof. intros. unfold found_rest. ev_auto. Qed.

Lemma evp_shutdown_finish s s1 :
  Evolves s s1 -> Evolves s (shutdown_finish s1).
Proof. intros. unfold shutdown_finish. ev_auto. Qed.

#[local] Hint Resolve evp_restartAllWatchers evp_found_rest
  evp_shutdown_finish : ev.

Lemma evp_shutdown_scan l i s s1 :
  Evolves s s1 -> Evolves s (shutdown_scan l i s1).
Proof.
  revert i s1. induction l as [|t l IH]; intros i s1 H; simpl; [ev_auto|].
  destruct (watcherOf s1 t); [ev_auto|]. apply IH. ev_auto.
Qed.

Lemma evp_after_start_ok c t s s1 :
  Evolves s s1 -> Evolves s (after_start_ok c t s1).
Proof. intros. unfold after_start_ok. destruct c; ev_auto. Qed.

Lemma evp_after_start_failed c t m s s1 :
  Evolves s s1 -> Evolves s (after_start_failed c t m s1).
Proof. intros. unfold after_start_failed. destruct c; ev_auto. Qed.

#[local] Hint Resolve evp_shutdown_scan evp_after_start_ok
  evp_after_start_failed : ev.

Lemma evp_post_api_tasks b now rnd created s s1 :
  Evolves s s1 -> Evolves s (post_api_tasks b now rnd created s1).
Proof.
  intros H. unfold post_api_tasks.
  destruct (_ || _); [ev_auto|].
  unfold createTask. cbv zeta. apply evp_log; [reflexivity|].
  apply evp_startTaskWatcher.
  - unfold watcherOf, _broadcast. rewrite _saveTasksToFile_nf. fields.
    now rewrite lookup_snoc.
  - apply evp_broadcast, evp_saveTasksToFile, evp_set_tasks, evp_new_task;
      [reflexivity|assumption].
Qed.

Lemma evp_resume k o s s1 s2 :
  resume k o s1 = Some s2 -> Evolves s s1 -> Evolves s s2.
Proof.
  intros Hr H. unfold browser_launched in Hr.
  destruct k, o; simpl in Hr; try discriminate;
    try (destruct attached; try discriminate);
    try (inversion Hr; subst; clear Hr; ev_auto; fail).
  (* one promise of Promise.all *)
  destruct (items !! j) as [[t w]|]; [|discriminate].
  destruct (delete j items); inversion Hr; subst; ev_auto.
Qed.

Lemma evp_monitorTick m s s1 s2 :
  monitorTick m s1 = Some s2 -> Evolves s s1 -> Evolves s s2.
Proof.
  unfold monitorTick. intros Hm H.
  destruct (monitorTask m s1) as [t|]; [|discriminate].
  destruct (watcherOf s1 t) as [w|]; [|inversion Hm; ev_auto].
  destruct (wheap s1 !! w) as [x|]; [|discriminate].
  destruct (found x); [|inversion Hm; subst; assumption].
  set (s3 := updTask t _ _) in Hm.
  assert (H3 : Evolves s s3).
  { subst s3. apply evp_updTask; [|ev_auto].
    intros a. split; [reflexivity|now right]. }
  destruct (theap s3 !! t); [|discriminate].
  destruct (_ && _); inversion Hm; subst; ev_auto.
Qed.

Lemma step_evolves (l : Label) (s s' : State) :
  step l s = Some s' -> Evolves s s'.
Proof.
  pose proof (ev_refl s) as H0.
  destruct l; simpl; intros H.
  - inversion H. now apply evp_post_api_tasks.
  - inversion H. ev_auto.
  - inversion H. ev_auto.
  - inversion H. ev_auto.
  - inversion H. unfold shutdown. ev_auto.
  - unfold saveTimerFires in H. destruct (saveTimer s); [|discriminate].
    inversion H. ev_auto.
  - eapply evp_monitorTick; eauto.
  - unfold detectorFound in H.
    destruct (wheap s !! w) as [x|]; [|discriminate].
    destruct (page x); [|discriminate].
    destruct (bool_decide _); [|discriminate].
    destruct (found x); inversion H; ev_auto.
  - destruct (pending s !! i) as [k|]; [|discriminate].
    eapply evp_resume; [exact H|]. ev_auto.
  - inversion H. ev_auto.
Qed.

Lemma run_evolves (ls : list Label) (s s' : State) :
  run ls s = Some s' -> Evolves s s'.
Proof.
  revert s. induction ls as [|l ls IH]; intros s; simpl.
  - intros [= ->]. apply ev_refl.
  - destruct (step l s) as [s1|] eqn:Hs; [|discriminate].
    intros Hr. eapply ev_trans; [eapply step_evolves; exact Hs|now apply IH].
Qed.

(** ** The state a manager starts from *)

Lemma omap_seq_lookup {A B} (f : A -> B) (l : list A) :
  omap (fun t => match l !! t with
                 | Some a => Some (f a)
                 | None => None
                 end) (seq 0 (length l)) = map f l.
Proof.
  induction l as [|x l IH] using rev_ind; [reflexivity|].
  rewrite length_app, seq_app, omap_app, map_app. simpl.
  rewrite lookup_snoc. f_equal.
  rewrite <- IH. clear IH.
  assert (H : forall n, n <= length l ->
            omap (fun t => match (l ++ [x]) !! t with
                           | Some a => Some (f a)
                           | None => None
                           end) (seq 0 n)
            = omap (fun t => match l !! t with
                             | Some a => Some (f a)
                             | None => None
                             end) (seq 0 n)).
  { induction n as [|n IHn]; intros Hn; [reflexivity|].
    replace (S n) with (n + 1) by lia.
    rewrite seq_app, !omap_app, IHn by lia. simpl.
    now rewrite lookup_app_l by lia. }
  now apply H.
Qed.

Lemma load_records_start (records : list TaskData) (s : State) :
  browser s = None ->
  let s' := load_records records s in
  trace s' = trace s /\ lastSavedJson s' = Some records
  /\ tasksFile s' = tasksFile s
  /\ exists ext, pending s' = pending s ++ ext
                 /\ forall k, k ∈ ext -> is_stop_old k = false.
Proof.
  intros Hbr. unfold load_records.
  set (s1 := set_tasks _ _).
  assert (Hsave : toSave s1 = records).
  { subst s1. unfold toSave. fields.
    rewrite <- (length_map (fun d => {| data := d; watcher := None |})).
    rewrite omap_seq_lookup, map_map. simpl. apply map_id. }
  rewrite Hsave.
  set (s2 := set_lastSavedJson _ _).
  destruct (resume_loop (tasks s2) s2) as (_ & _ & _ & (ext & Hp & Hk) & _
                                         & Ht & Hl & _).
  - subst s2 s1. fields. apply NoDup_seq.
  - intros t _. subst s2 s1. unfold watcherOf. fields.
    rewrite list_lookup_fmap. now destruct (records !! t).
  - exact Hbr.
  - cbv zeta. rewrite Ht, Hl. repeat split.
    + assert (Hf : forall l s0, tasksFile (foldl resume_step s0 l)
                                = tasksFile s0).
      { induction l as [|t l IH]; intros s0; simpl; [reflexivity|].
        rewrite IH. unfold resume_step.
        destruct (needs_resume _); [|reflexivity].
        pose proof (ev_file _ _ (evp_start_new_watcher t FromResume _ _
                                   (ev_refl (setStatus t "starting" s0)))).
        unfold _resumeTaskWatcher, _startTaskWatcher.
        destruct (watcherOf _ t); [|assumption].
        now rewrite watcher_stop_nf. }
      now rewrite Hf.
    + exists ext. split; [exact Hp|].
      intros k Hin. destruct (Hk k Hin) as (t & w & -> & _). reflexivity.
Qed.

Lemma new_manager_start (mp : nat) (file : option string) (auto ok : bool)
    (disk : option FileJson) :
  let s0 := new_manager mp file auto ok disk in
  tasksFile s0 = file
  /\ (forall k, k ∈ pending s0 -> is_stop_old k = false)
  /\ (disk <> Some JsonOther ->
      forall j, lastSavedJson s0 = Some j ->
                on_disk (content_of disk) (trace s0) = Some j).
Proof.
  unfold new_manager, _loadTasksFromFile.
  cbn [tasksFile empty_manager].
  destruct file as [path|];
    [|repeat split; [intros k Hk; inversion Hk|discriminate]].
  destruct disk as [[records| |]|].
  - destruct (load_records_start records
                (empty_manager mp (Some path) auto ok) eq_refl)
      as (Ht & Hl & Hf & ext & Hp & Hk).
    split; [exact Hf|]. split.
    + intros k. rewrite Hp. simpl. apply Hk.
    + intros _ j. rewrite Hl, Ht. simpl. now intros [= ->].
  - repeat split; [intros k Hk; inversion Hk|]. now intros H.
  - repeat split; [intros k Hk; inversion Hk|discriminate].
  - destruct ok; cbn [diskOk empty_manager].
    + set (s1 := set_lastSavedJson _ _).
      destruct (load_records_start [] s1 eq_refl)
        as (Ht & Hl & Hf & ext & Hp & Hk).
      split; [exact Hf|]. split.
      * intros k. rewrite Hp. simpl. apply Hk.
      * intros _ j. rewrite Hl, Ht. now intros [= <-].
    + repeat split; [intros k Hk; inversion Hk|discriminate].
Qed.

Lemma writes_none (ext : list Obs) :
  Forall (write_ok None) ext -> writes ext = [].
Proof.
  induction 1 as [|o ext Ho _ IH]; [reflexivity|].
  destruct o; simpl in *; try assumption. discriminate.
Qed.

Lemma on_disk_app (init : option (list TaskData)) (tr ext : list Obs) :
  on_disk init (tr ++ ext)
  = match last (writes ext) with
    | Some j => Some j
    | None => on_disk init tr
    end.
Proof.
  unfold on_disk. rewrite writes_app.
  destruct (writes ext) as [|j js] using rev_ind.
  - now rewrite app_nil_r.
  - now rewrite app_assoc, !last_snoc.
Qed.

(** ** Invariants of the runs *)

(** X1.  Whatever the requests, timers and outcomes, every file the manager
    writes is its tasks file, which stays the one it was configured with;
    without one it writes nothing. *)
Theorem writes_go_to_tasksFile (ls : list Label) (s s' : State) :
  run ls s = Some s' ->
  tasksFile s' = tasksFile s
  /\ exists ext,
       trace s' = trace s ++ ext
       /\ (forall p json, FsWrite p json ∈ ext -> tasksFile s = Some p)
       /\ (tasksFile s = None -> writes ext = []).
Proof.
  intros Hrun.
  destruct (run_evolves _ _ _ Hrun) as [Hf _ (ext & Ht & Hw & _) _].
  split; [exact Hf|]. exists ext. split; [exact Ht|]. split.
  - intros p json Hin. rewrite Forall_forall in Hw. exact (Hw _ Hin).
  - intros Hnone. rewrite Hnone in Hw. now apply writes_none.
Qed.

Lemma writes_go_to_tasksFile_witness :
  let ls := [PostTask sample_spec 5 sample_rnd 5; Resume 0 Launched;
             Resume 0 StartOk; SaveTimerFires; StopTask "task-5-k3x";
             Resume 0 Resolved] in
  tasksFile (after ls default_manager) = Some "tasks.json"
  /\ exists ext,
       trace (after ls default_manager) = trace default_manager ++ ext
       /\ (forall p json, FsWrite p json ∈ ext ->
                          tasksFile default_manager = Some p)
       /\ (tasksFile default_manager = None -> writes ext = []).
Proof.
  intros ls.
  exact (writes_go_to_tasksFile ls default_manager (after ls default_manager)
           ltac:(vm_compute; reflexivity)).
Defined.

(** X2.  The snapshot the manager takes for saved is the one the file
    holds: for a manager started on a missing file, an unreadable one or
    one that holds an array, and as long as every write that returns has
    written the whole text, [_lastSavedJson], when set, is the content of
    the tasks file.  So a save skipped because the snapshot has not changed
    loses nothing. *)
Theorem lastSavedJson_is_on_disk (mp : nat) (path : string) (auto ok : bool)
    (disk : option FileJson) (ls : list Label) (s' : State)
    (j : list TaskData) :
  disk <> Some JsonOther ->
  run ls (new_manager mp (Some path) auto ok disk) = Some s' ->
  lastSavedJson s' = Some j ->
  on_disk (content_of disk) (trace s') = Some j.
Proof.
  intros Hd Hrun Hj.
  destruct (new_manager_start mp (Some path) auto ok disk) as (_ & _ & H0).
  specialize (H0 Hd).
  destruct (run_evolves _ _ _ Hrun) as [_ _ (ext & Ht & _ & Hl) _].
  rewrite Ht, on_disk_app.
  destruct Hl as [[El Ew]|(pre & j' & El & Ew)].
  - rewrite Ew. simpl. apply H0. congruence.
  - rewrite Ew, last_snoc. congruence.
Qed.

Lemma lastSavedJson_is_on_disk_witness :
  let ls := [StopTask "task-B"; Resume 1 Resolved] in
  let s0 := manager_of [persisted "task-B" "running" None] in
  on_disk (Some [persisted "task-B" "running" None]) (trace (after ls s0))
  = Some [persisted "task-B" "stopped" None].
Proof.
  intros ls s0.
  exact (lastSavedJson_is_on_disk 6 "tasks.json" true true
           (Some (JsonArray [persisted "task-B" "running" None])) ls
           (after ls s0) [persisted "task-B" "stopped" None]
           ltac:(discriminate) ltac:(vm_compute; reflexivity)
           ltac:(vm_compute; reflexivity)).
Defined.

(** X3.  The statuses the manager gives are [starting], [running], [found],
    [stopped] and [error], and no other: after any run, a task has one of
    these or the status it had at the start. *)
Theorem statuses_assigned (ls : list Label) (s s' : State) (t : nat)
    (task' : Task) :
  run ls s = Some s' -> theap s' !! t = Some task' ->
  assigned (status (data task')) = true
  \/ exists task, theap s !! t = Some task
                  /\ status (data task') = status (data task).
Proof.
  intros Hrun Hlook. destruct (run_evolves _ _ _ Hrun) as [_ Hh _ _].
  specialize (Hh t). rewrite Hlook in Hh.
  destruct (theap s !! t) as [task|]; simpl in Hh; [|now left].
  destruct Hh as [_ [E|E]]; [right; now exists task|now left].
Qed.

Lemma statuses_assigned_witness :
  let ls := [Resume 0 Launched; Resume 0 (StartFailed true "net::ERR");
             Shutdown; Resume 0 Resolved] in
  let s0 := manager_of [persisted "task-B" "running" None] in
  assigned "stopped" = true
  \/ exists task, theap s0 !! 0 = Some task
                  /\ "stopped" = status (data task).
Proof.
  intros ls s0.
  exact (statuses_assigned ls s0 (after ls s0) 0
           {| data := persisted "task-B" "stopped" None; watcher := Some 0 |}
           ltac:(vm_compute; reflexivity) ltac:(vm_compute; reflexivity)).
Defined.

(** X4.  Once a task exists, the manager never changes its id, location,
    cinema name, cinema url, identifier, creation time, href or booking
    settings, whatever happens to it, and its object stays the same one:
    only the status, [foundHref] and the watcher handle are written. *)
Theorem task_identity_is_stable (ls : list Label) (s s' : State) (t : nat)
    (task : Task) :
  run ls s = Some s' -> theap s !! t = Some task ->
  exists task', theap s' !! t = Some task'
                /\ frozen (data task') = frozen (data task).
Proof.
  intros Hrun Hlook. destruct (run_evolves _ _ _ Hrun) as [_ Hh _ _].
  specialize (Hh t). rewrite Hlook in Hh.
  destruct (theap s' !! t) as [task'|]; simpl in Hh; [|contradiction].
  exists task'. split; [reflexivity|apply Hh].
Qed.

Lemma task_identity_is_stable_witness :
  let s0 := manager_of [persisted "task-B" "running" None] in
  exists task', theap (after found_then_stopped s0) !! 0 = Some task'
                /\ frozen (data task')
                   = frozen (persisted "task-B" "running" None).
Proof.
  intros s0.
  exact (task_identity_is_stable found_then_stopped s0
           (after found_then_stopped s0) 0
           {| data := set_status "starting" (persisted "task-B" "running" None);
              watcher := Some 0 |}
           ltac:(vm_compute; reflexivity) ltac:(vm_compute; reflexivity)).
Defined.

(** X5.  [_startTaskWatcher] is only ever called for a task that has no
    watcher: in no run of a manager does it have to stop an old watcher
    first, so a watcher is attached to a task only when the task has none. *)
Theorem start_never_replaces_a_watcher (mp : nat) (file : option string)
    (auto ok : bool) (disk : option FileJson) (ls : list Label) (s' : State) :
  run ls (new_manager mp file auto ok disk) = Some s' ->
  forall t w c, KStartStopOld t w c ∉ pending s'.
Proof.
  intros Hrun t w c Hin.
  destruct (new_manager_start mp file auto ok disk) as (_ & H0 & _).
  destruct (run_evolves _ _ _ Hrun) as [_ _ _ Hp].
  destruct (Hp _ Hin) as [H|H]; [|discriminate].
  specialize (H0 _ H). discriminate.
Qed.

Lemma start_never_replaces_a_watcher_witness :
  KStartStopOld 0 0 (FromRestart "task-1000-k3x" 0 [])
  ∉ pending (after (firstn 7 found_twice) default_manager).
Proof.
  exact (start_never_replaces_a_watcher 6 (Some "tasks.json") true true
           (Some (JsonArray [])) (firstn 7 found_twice)
           (after (firstn 7 found_twice) default_manager)
           ltac:(vm_compute; reflexivity)
           0 0 (FromRestart "task-1000-k3x" 0 [])).
Defined.
(** ** Saving *)

Lemma save_now_cases (s : State) :
  _saveTasksToFileImmediate s = s
  \/ exists path,
       tasksFile s = Some path /\ diskOk s = true
       /\ lastSavedJson s <> Some (toSave s)
       /\ _saveTasksToFileImmediate s
          = set_lastSavedJson (Some (toSave s))
              (log (FsWrite path (toSave s)) s).
Proof.
  unfold _saveTasksToFileImmediate.
  destruct (tasksFile s) as [path|]; [|now left].
  destruct (decide _) as [e|n]; [now left|].
  destruct (diskOk s); [|now left].
  right. now exists path.
Qed.

Lemma save_now_saved (s : State) (path : string) :
  tasksFile s = Some path -> lastSavedJson s = Some (toSave s) ->
  _saveTasksToFileImmediate s = s /\ written_now s = [].
Proof.
  intros Hf Hl. unfold _saveTasksToFileImmediate, written_now.
  rewrite Hf. destruct (decide _) as [_|n]; [now split|contradiction].
Qed.

(** X8.  Saving twice in a row is saving once: the second call finds the
    snapshot it would write already written, or meets the same failure, and
    changes nothing. *)
Theorem save_is_idempotent (s : State) :
  _saveTasksToFileImmediate (_saveTasksToFileImmediate s)
  = _saveTasksToFileImmediate s
  /\ (diskOk s = true ->
      written_now (_saveTasksToFileImmediate s) = []).
Proof.
  destruct (save_now_cases s) as [E|(path & Hf & Hd & Hn & E)].
  - rewrite !E. split; [reflexivity|]. intros Hd.
    unfold written_now. unfold _saveTasksToFileImmediate in E.
    destruct (tasksFile s); [|reflexivity].
    destruct (decide _); [reflexivity|].
    rewrite Hd in *.
    apply (f_equal trace) in E. revert E. fields. intros E.
    apply (f_equal (@length Obs)) in E. rewrite length_app in E.
    simpl in E. lia.
  - rewrite E.
    destruct (save_now_saved
                (set_lastSavedJson (Some (toSave s))
                   (log (FsWrite path (toSave s)) s)) path)
      as [E1 E2]; [assumption|reflexivity|].
    rewrite E1. split; [reflexivity|]. intros _. exact E2.
Qed.

Lemma save_is_idempotent_witness :
  written_now (_saveTasksToFileImmediate
                 (after [PostTask sample_spec 5 sample_rnd 5] default_manager))
  = [].
Proof.
  exact (proj2 (save_is_idempotent
                  (after [PostTask sample_spec 5 sample_rnd 5] default_manager))
               eq_refl).
Defined.

(** X9.  A write that fails is swallowed and leaves no trace: nothing is
    written, nothing is taken for saved, and after the debounce timer has
    fired on a failing disk no timer is pending, so nothing tries again by
    itself.  The next save, whenever it comes, writes the snapshot of that
    moment. *)
Theorem failed_write_is_not_recorded (s : State) (path : string) :
  tasksFile s = Some path -> diskOk s = false ->
  lastSavedJson s <> Some (toSave s) ->
  _saveTasksToFileImmediate s = s
  /\ (saveTimer s = true ->
      step SaveTimerFires s = Some (set_saveTimer false s)
      /\ step SaveTimerFires (set_saveTimer false s) = None)
  /\ trace (_saveTasksToFileImmediate (set_diskOk true s))
     = trace s ++ [FsWrite path (toSave s)].
Proof.
  intros Hf Hd Hn. split; [|split].
  - unfold _saveTasksToFileImmediate. rewrite Hf, Hd.
    destruct (decide _) as [e|_]; [contradiction|reflexivity].
  - intros Ht. cbn [step]. unfold saveTimerFires. rewrite Ht.
    split; [|reflexivity]. f_equal.
    unfold _saveTasksToFileImmediate.
    cbn [tasksFile set_saveTimer lastSavedJson diskOk].
    rewrite Hf, Hd.
    change (toSave (set_saveTimer false s)) with (toSave s).
    destruct (decide _) as [e|_]; [contradiction|reflexivity].
  - unfold _saveTasksToFileImmediate.
    cbn [tasksFile set_diskOk lastSavedJson diskOk].
    rewrite Hf. change (toSave (set_diskOk true s)) with (toSave s).
    destruct (decide _) as [e|_]; [contradiction|reflexivity].
Qed.

Lemma failed_write_is_not_recorded_witness :
  let s := set_diskOk false
             (after [PostTask sample_spec 5 sample_rnd 5] default_manager) in
  _saveTasksToFileImmediate s = s
  /\ (saveTimer s = true ->
      step SaveTimerFires s = Some (set_saveTimer false s)
      /\ step SaveTimerFires (set_saveTimer false s) = None)
  /\ trace (_saveTasksToFileImmediate (set_diskOk true s))
     = trace s ++ [FsWrite "tasks.json" (toSave s)].
Proof.
  intros s.
  exact (failed_write_is_not_recorded s "tasks.json" eq_refl eq_refl
           ltac:(vm_compute; discriminate)).
Defined.

(** ** Loading *)

Lemma omap_seq_map {A B} (F : nat -> option B) (g : A -> B) (l : list A) :
  (forall t a, l !! t = Some a -> F t = Some (g a)) ->
  omap F (seq 0 (length l)) = map g l.
Proof.
  induction l as [|x l IH] using rev_ind; intros H; [reflexivity|].
  rewrite length_app, seq_app, omap_app, map_app. simpl.
  rewrite (H (length l) x) by apply lookup_snoc. f_equal.
  apply IH. intros t a Ht. apply H.
  rewrite lookup_app_l; [assumption|]. eapply lookup_lt_Some; eauto.
Qed.

Lemma set_status_same (d : TaskData) (v : string) :
  status d = v -> set_status v d = d.
Proof. intros <-. now destruct d. Qed.

Lemma load_records_heap (records : list TaskData) (s : State) :
  browser s = None ->
  let s' := load_records records s in
  tasks s' = seq 0 (length records)
  /\ forall t d, records !! t = Some d ->
       exists w, theap s' !! t = Some {| data := loaded d; watcher := w |}.
Proof.
  intros Hbr. unfold load_records.
  set (s1 := set_tasks _ _). set (s2 := set_lastSavedJson _ _).
  destruct (resume_loop (tasks s2) s2) as (_ & Hin & _ & _ & Htk & _).
  - subst s2 s1. fields. apply NoDup_seq.
  - intros t _. subst s2 s1. unfold watcherOf. fields.
    rewrite list_lookup_fmap. now destruct (records !! t).
  - exact Hbr.
  - cbv zeta in *. split; [exact Htk|].
    intros t d Hd.
    assert (Ht : t ∈ tasks s2).
    { subst s2 s1. fields. apply elem_of_seq.
      apply lookup_lt_Some in Hd. lia. }
    assert (Hlook : theap s2 !! t = Some {| data := d; watcher := None |}).
    { subst s2 s1. fields. now rewrite list_lookup_fmap, Hd. }
    specialize (Hin t _ Ht Hlook). cbn [data] in Hin. unfold loaded.
    destruct (needs_resume (status d)).
    + destruct Hin as (w & Hw & _). now exists (Some w).
    + now exists None.
Qed.

Lemma loaded_same (records : list TaskData) :
  Forall (fun d => status d <> "running") records ->
  map loaded records = records.
Proof.
  induction 1 as [|d l Hd _ IH]; [reflexivity|]. simpl. rewrite IH.
  f_equal. unfold loaded, needs_resume.
  destruct (String.eqb_spec (status d) "running"); [contradiction|].
  destruct (String.eqb_spec (status d) "starting"); [|reflexivity].
  now apply set_status_same.
Qed.

(** X10.  A manager started on a snapshot holds its records in their order
    and with all their fields, but for the status of those that were
    [running], which is [starting]; it takes the snapshot for saved and has
    written nothing.  So a snapshot without a running task read back and
    saved at once is not written again. *)
Theorem load_keeps_the_snapshot (mp : nat) (path : string) (auto ok : bool)
    (records : list TaskData) :
  let s := new_manager mp (Some path) auto ok (Some (JsonArray records)) in
  toSave s = map loaded records
  /\ lastSavedJson s = Some records /\ trace s = []
  /\ (Forall (fun d => status d <> "running") records ->
      toSave s = records /\ _saveTasksToFileImmediate s = s).
Proof.
  unfold new_manager, _loadTasksFromFile. cbn [tasksFile empty_manager].
  set (e := empty_manager mp (Some path) auto ok).
  destruct (load_records_start records e eq_refl) as (Ht & Hl & Hf & _).
  destruct (load_records_heap records e eq_refl) as (Htk & Hh).
  cbv zeta in *.
  assert (Hsave : toSave (load_records records e) = map loaded records).
  { unfold toSave. rewrite Htk. apply omap_seq_map.
    intros t d Hd. destruct (Hh t d Hd) as (w & ->). reflexivity. }
  split; [exact Hsave|]. split; [exact Hl|]. split; [exact Ht|].
  intros Hnot.
  pose proof (loaded_same records Hnot) as Hsame.
  rewrite Hsave, Hsame. split; [reflexivity|].
  apply (save_now_saved _ path); [exact Hf|]. now rewrite Hl, Hsave, Hsame.
Qed.

Lemma load_keeps_the_snapshot_witness :
  toSave stopped_manager = [persisted "task-A" "stopped" None]
  /\ _saveTasksToFileImmediate stopped_manager = stopped_manager.
Proof.
  exact (proj2 (proj2 (proj2
           (load_keeps_the_snapshot 6 "tasks.json" true true
              [persisted "task-A" "stopped" None])))
           ltac:(repeat constructor; discriminate)).
Defined.

(** X11.  A tasks file that cannot be parsed, or that holds something else
    than an array, gives an empty registry and no error.  The file itself
    is left as it is at that point; the unparsable one is overwritten with
    the registry by the first save, be it the one of a shutdown that
    follows at once, while the one that holds no array is taken for an
    empty array already saved and is left alone until the registry changes. *)
Theorem unreadable_snapshot (mp : nat) (path : string) (auto : bool) :
  let bad := new_manager mp (Some path) auto true (Some JsonInvalid) in
  let other := new_manager mp (Some path) auto true (Some JsonOther) in
  (tasks bad = [] /\ trace bad = [] /\ pending bad = [])
  /\ (tasks other = [] /\ trace other = [] /\ pending other = [])
  /\ (exists s', run [Shutdown] bad = Some s'
                 /\ trace s' = [FsWrite path []; Returned ShutdownReturned])
  /\ (exists s', run [Shutdown] other = Some s'
                 /\ trace s' = [Returned ShutdownReturned]).
Proof.
  cbv zeta. repeat split.
  - eexists. split; reflexivity.
  - eexists. split; reflexivity.
Qed.

(** ** Reloading *)

Lemma mark_loop (l : list nat) (s : State) :
  let s' := foldl (fun s t => if is_active (statusOf s t)
                              then setStatus t "starting" s else s) s l in
  (forall t task, theap s !! t = Some task ->
     theap s' !! t
     = Some (if bool_decide (t ∈ l) && is_active (status (data task))
             then on_data (set_status "starting") task else task))
  /\ tasks s' = tasks s /\ wheap s' = wheap s /\ trace s' = trace s
  /\ pending s' = pending s /\ contexts s' = contexts s
  /\ tasksFile s' = tasksFile s.
Proof.
  revert s. induction l as [|a l IH]; intros s; cbn [foldl].
  - cbv zeta. split; [|repeat split]. intros t task ->.
    now rewrite bool_decide_eq_false_2 by apply not_elem_of_nil.
  - set (s1 := if is_active (statusOf s a) then _ else _).
    destruct (IH s1) as (Hh & Htk & Hw & Htr & Hp & Hc & Hf). cbv zeta in *.
    assert (Hframe : tasks s1 = tasks s /\ wheap s1 = wheap s
                     /\ trace s1 = trace s /\ pending s1 = pending s
                     /\ contexts s1 = contexts s
                     /\ tasksFile s1 = tasksFile s)
      by (subst s1; destruct (is_active _); repeat split).
    destruct Hframe as (F1 & F2 & F3 & F4 & F5 & F6).
    split; [|repeat split; congruence].
    intros t task Hlook.
    assert (H1 : theap s1 !! t
                 = Some (if bool_decide (t = a)
                            && is_active (status (data task))
                         then on_data (set_status "starting") task
                         else task)).
    { subst s1. unfold statusOf. destruct (decide (t = a)) as [->|Hne].
      - rewrite Hlook, bool_decide_eq_true_2 by reflexivity. simpl.
        destruct (is_active (status (data task))); [|assumption].
        fields. now rewrite list_lookup_alter_eq, Hlook.
      - rewrite bool_decide_eq_false_2 by assumption. simpl.
        destruct (is_active match theap s !! a with
                            | Some task0 => status (data task0)
                            | None => ""
                            end); [|assumption].
        fields. now rewrite list_lookup_alter_ne by congruence. }
    rewrite (Hh _ _ H1).
    destruct (decide (t = a)) as [->|Hne].
    + rewrite (bool_decide_eq_true_2 (a = a)) by reflexivity.
      rewrite (bool_decide_eq_true_2 (a ∈ a :: l)) by apply list_elem_of_here.
      simpl. destruct (is_active (status (data task))) eqn:Ea.
      * simpl. destruct (bool_decide (a ∈ l)); reflexivity.
      * rewrite Ea. now rewrite andb_false_r.
    + rewrite (bool_decide_eq_false_2 (t = a)) by assumption. simpl.
      destruct (decide (t ∈ l)) as [Hin|Hnin].
      * rewrite !bool_decide_eq_true_2; [reflexivity| |assumption].
        now apply list_elem_of_further.
      * rewrite !bool_decide_eq_false_2; [reflexivity| |assumption].
        intros [?|?]%elem_of_cons; contradiction.
Qed.

Lemma stopped_watcher_twice (x : Watcher) :
  stopped_watcher (stopped_watcher x) = stopped_watcher x.
Proof. reflexivity. Qed.

Lemma stop_loop (items : list (nat * nat)) (s : State) :
  let s' := foldl (fun s p => watcher_stop (snd p) s) s items in
  (forall w, wheap s' !! w
             = if bool_decide (w ∈ map snd items)
               then stopped_watcher <$> wheap s !! w else wheap s !! w)
  /\ theap s' = theap s /\ tasks s' = tasks s /\ trace s' = trace s
  /\ pending s' = pending s /\ tasksFile s' = tasksFile s.
Proof.
  revert s. induction items as [|[t w0] items IH]; intros s; cbn [foldl].
  - cbv zeta. split; [|repeat split]. intros w.
    now rewrite bool_decide_eq_false_2 by apply not_elem_of_nil.
  - destruct (IH (watcher_stop w0 s)) as (Hw & Hh & Htk & Htr & Hp & Hf).
    cbv zeta in *. cbn [snd] in *. rewrite watcher_stop_nf in *.
    fields. split; [|repeat split; assumption].
    intros w. rewrite Hw. cbn [map snd].
    destruct (decide (w = w0)) as [->|Hne].
    + rewrite list_lookup_alter_eq.
      rewrite (bool_decide_eq_true_2 (w0 ∈ w0 :: _))
        by apply list_elem_of_here.
      destruct (bool_decide _); [|reflexivity].
      now destruct (wheap s !! w0).
    + rewrite list_lookup_alter_ne by congruence.
      destruct (decide (w ∈ map snd items)) as [Hin|Hnin].
      * rewrite !bool_decide_eq_true_2; [reflexivity| |assumption].
        now apply list_elem_of_further.
      * rewrite !bool_decide_eq_false_2; [reflexivity| |assumption].
        intros [?|?]%elem_of_cons; contradiction.
Qed.

(** X12.  A reload asked for one task is a reload of all: before it waits
    for anything, [reloadTask] has flagged every task of the registry that
    was starting or running as [starting] and has asked every watcher of
    the registry to stop, which resets its latch and its timers; the tasks
    in another status keep it.  The caller has no answer yet. *)
Theorem reloadTask_restarts_everything (rid : string) (s : State)
    (idx t0 : nat) :
  findTask rid s = Some (idx, t0) ->
  let s1 := reloadTask rid s in
  tasks s1 = tasks s
  /\ (forall t task, t ∈ tasks s -> theap s !! t = Some task ->
        theap s1 !! t
        = Some (if is_active (status (data task))
                then on_data (set_status "starting") task else task))
  /\ (forall t w, t ∈ tasks s -> watcherOf s t = Some w ->
        wheap s1 !! w = stopped_watcher <$> wheap s !! w)
  /\ replies (trace s1) = replies (trace s)
  /\ exists k, pending s1 = pending s ++ [k].
Proof.
  intros Hfind. unfold reloadTask. rewrite Hfind. cbv zeta.
  destruct (mark_loop (tasks s) s) as (Hh & Htk & Hw & Htr & Hp & _ & Hf).
  fold (mark_starting s) in *.
  set (sa := _saveTasksToFile (mark_starting s)).
  assert (Ha : theap sa = theap (mark_starting s)
               /\ tasks sa = tasks s /\ wheap sa = wheap s
               /\ trace sa = trace s /\ pending sa = pending s).
  { subst sa. rewrite _saveTasksToFile_nf. fields. now repeat split. }
  destruct Ha as (A1 & A2 & A3 & A4 & A5).
  unfold stopAllWatchers.
  destruct (stop_loop (stop_items sa) sa) as (Sw & Sh & Stk & Str & Sp & _).
  cbv zeta in *.
  set (sb := foldl _ sa (stop_items sa)) in *.
  assert (Hend : forall s2 : State,
             s2 = match stop_items sa with
                  | [] => reload_after_stops rid t0 sb
                  | _ :: _ => suspend (KStopAll rid t0 (stop_items sa)) sb
                  end ->
             tasks s2 = tasks sb /\ theap s2 = theap sb
             /\ wheap s2 = wheap sb
             /\ replies (trace s2) = replies (trace sb)
             /\ exists k, pending s2 = pending sb ++ [k]).
  { intros s2 ->. destruct (stop_items sa).
    - unfold reload_after_stops. rewrite _saveTasksToFileImmediate_nf.
      fields. repeat split; [|eexists; reflexivity].
      rewrite replies_app. unfold written_now.
      destruct (tasksFile sb); [|now rewrite app_nil_r].
      destruct (decide _); [now rewrite app_nil_r|].
      destruct (diskOk sb); now rewrite app_nil_r.
    - fields. repeat split. eexists; reflexivity. }
  destruct (Hend _ eq_refl) as (E1 & E2 & E3 & E4 & k & E5).
  split; [congruence|]. split; [|split; [|split]].
  - intros t task Hin Hlook. rewrite E2, Sh, A1, (Hh _ _ Hlook).
    now rewrite bool_decide_eq_true_2 by assumption.
  - intros t w Hin Hwt. rewrite E3, Sw, A3.
    rewrite bool_decide_eq_true_2; [reflexivity|].
    apply list_elem_of_fmap. exists (t, w). split; [reflexivity|].
    unfold stop_items. apply list_elem_of_omap. exists t.
    split; [now rewrite A2|].
    unfold watcherOf in *. rewrite A1.
    destruct (theap s !! t) as [task|] eqn:Hlook; [|discriminate].
    rewrite (Hh _ _ Hlook). rewrite bool_decide_eq_true_2 by assumption.
    simpl. destruct (is_active _); simpl; now rewrite Hwt.
  - now rewrite E4, Str, A4.
  - exists k. now rewrite E5, Sp, A5.
Qed.

Lemma reloadTask_restarts_everything_witness :
  let s := after [Resume 0 Launched; Resume 0 StartOk]
             (manager_of [persisted "task-A" "running" None;
                          persisted "task-B" "found" None]) in
  tasks (reloadTask "task-B" s) = tasks s
  /\ replies (trace (reloadTask "task-B" s)) = replies (trace s).
Proof.
  intros s.
  exact (let H := reloadTask_restarts_everything "task-B" s 1 1
                    ltac:(vm_compute; reflexivity) in
         conj (proj1 H) (proj1 (proj2 (proj2 (proj2 H))))).
Defined.

(** ** Stopping a task, and a start that fails *)

Lemma alter_twice {A} (f g h : A -> A) (i : nat) (l : list A) :
  (forall x, f (g x) = h x) -> alter f i (alter g i l) = alter h i l.
Proof.
  intros H. revert i. induction l as [|a l IH]; intros [|i]; simpl;
    try reflexivity.
  - now rewrite H.
  - f_equal. apply IH.
Qed.

Lemma written_now_broadcasts (s : State) : broadcasts (written_now s) = [].
Proof.
  unfold written_now. destruct (tasksFile s); [|reflexivity].
  destruct (decide _); [reflexivity|]. now destruct (diskOk s).
Qed.

Lemma written_now_replies (s : State) : replies (written_now s) = [].
Proof.
  unfold written_now. destruct (tasksFile s); [|reflexivity].
  destruct (decide _); [reflexivity|]. now destruct (diskOk s).
Qed.

Lemma trace_stop_finish (tid : string) (t : nat) (s : State) :
  let s2 := stop_finish tid t s in
  broadcasts (trace s2)
  = broadcasts (trace s)
    ++ match theap s !! t with
       | Some task =>
           [EvStopped tid (safeTaskView (on_data (set_status "stopped") task))]
       | None => []
       end
  /\ replies (trace s2) = replies (trace s) ++ [StopReturned tid true]
  /\ theap s2 = alter (on_data (set_status "stopped")) t (theap s)
  /\ tasks s2 = tasks s /\ wheap s2 = wheap s /\ contexts s2 = contexts s
  /\ monitors s2 = monitors s /\ pending s2 = pending s.
Proof.
  unfold stop_finish. rewrite broadcastView_nf, _saveTasksToFileImmediate_nf.
  fields. rewrite !broadcasts_app, !replies_app, list_lookup_alter_eq.
  rewrite written_now_broadcasts, written_now_replies, !app_nil_r.
  destruct (theap s !! t); simpl; rewrite ?app_nil_r; repeat split.
Qed.

(** X13.  [stopTask] of a known task, from the request to its answer: the
    task stays in the registry with status [stopped] and no watcher, its
    other fields and the other tasks as they were; the watcher it had is
    stopped, with its page gone and the context of that page closed; one
    [stopped] event goes out, with the view of the task, and the answer is
    [true].  The monitor of the task is not cancelled by the stop. *)
Theorem stopTask_completes (tid : string) (s : State) (idx t : nat)
    (task : Task) :
  findTask tid s = Some (idx, t) -> theap s !! t = Some task ->
  exists ls s2,
    (ls = [StopTask tid]
     \/ ls = [StopTask tid; Resume (length (pending s)) Resolved])
    /\ run ls s = Some s2
    /\ tasks s2 = tasks s
    /\ theap s2 !! t
       = Some {| data := set_status "stopped" (data task); watcher := None |}
    /\ (forall t', t' <> t -> theap s2 !! t' = theap s !! t')
    /\ match watcher task with
       | None => wheap s2 = wheap s /\ contexts s2 = contexts s
       | Some w =>
           wheap s2 = alter (fun _ => newWatcher) w (wheap s)
           /\ forall x c, wheap s !! w = Some x -> page x = Some c ->
                          c ∉ contexts s2
       end
    /\ broadcasts (trace s2)
       = broadcasts (trace s)
         ++ [EvStopped tid
               (safeTaskView {| data := set_status "stopped" (data task);
                                watcher := None |})]
    /\ replies (trace s2) = replies (trace s) ++ [StopReturned tid true]
    /\ monitors s2 = monitors s /\ pending s2 = pending s.
Proof.
  intros Hfind Hlook.
  assert (Hw : watcherOf s t = watcher task)
    by (unfold watcherOf; now rewrite Hlook).
  destruct (watcher task) as [w|] eqn:Ew.
  - exists [StopTask tid; Resume (length (pending s)) Resolved].
    set (s1 := set_pending (delete (length (pending s))
                              (pending s ++ [KStop tid t w]))
                 (suspend (KStop tid t w) (watcher_stop w s))).
    set (s1' := updTask t (set_watcher None) (watcher_stopped w s1)).
    exists (stop_finish tid t s1').
    split; [now right|].
    assert (Hrun : run [StopTask tid; Resume (length (pending s)) Resolved] s
                   = Some (stop_finish tid t s1')).
    { cbn [run step]. unfold stopTask. rewrite Hfind, Hw.
      assert (Hp : pending (suspend (KStop tid t w) (watcher_stop w s))
                   = pending s ++ [KStop tid t w])
        by (now rewrite watcher_stop_nf).
      rewrite Hp, lookup_snoc. reflexivity. }
    split; [exact Hrun|].
    destruct (trace_stop_finish tid t s1')
      as (Hb & Hr & Hh & Htk & Hwh & Hc & Hm & Hpd).
    cbv zeta in *.
    assert (H1 : theap s1' = alter (set_watcher None) t (theap s)
                 /\ tasks s1' = tasks s /\ trace s1' = trace s
                 /\ monitors s1' = monitors s /\ pending s1' = pending s
                 /\ wheap s1' = alter (fun x =>
                      {| running := running x; found := found x;
                         w_foundHref := w_foundHref x; page := None;
                         reloadTimer := reloadTimer x;
                         rotateTimer := rotateTimer x |}) w
                      (alter stopped_watcher w (wheap s))
                 /\ contexts s1'
                    = match wheap s !! w with
                      | Some x => match page x with
                                  | Some c => filter (fun c' => c' ≠ c)
                                                     (contexts s)
                                  | None => contexts s
                                  end
                      | None => contexts s
                      end).
    { subst s1' s1. rewrite watcher_stop_nf. fields.
      rewrite delete_snoc. repeat split. }
    destruct H1 as (E1 & E2 & E3 & E4 & E5 & E6 & E7).
    rewrite Htk, Hh, Hb, Hr, Hm, Hpd, Hwh, Hc, E1, E2, E3, E4, E5, E6, E7.
    rewrite !list_lookup_alter_eq, Hlook. cbn [fmap option_fmap option_map].
    split; [reflexivity|]. split; [reflexivity|]. split.
    { intros t' Hne. now rewrite !list_lookup_alter_ne by congruence. }
    split.
    { split.
      - apply alter_twice. reflexivity.
      - intros x c Hx Hc'. rewrite Hx, Hc'. intros Hin.
        apply list_elem_of_filter in Hin as [Hne _]. now apply Hne. }
    repeat split.
  - exists [StopTask tid], (stop_finish tid t s).
    split; [now left|].
    split; [cbn [run step]; unfold stopTask; now rewrite Hfind, Hw|].
    destruct (trace_stop_finish tid t s)
      as (Hb & Hr & Hh & Htk & Hwh & Hc & Hm & Hpd).
    cbv zeta in *.
    rewrite Htk, Hh, Hb, Hr, Hm, Hpd, Hwh, Hc, list_lookup_alter_eq, Hlook.
    cbn [fmap option_fmap option_map]. unfold on_data. rewrite Ew.
    split; [reflexivity|]. split; [reflexivity|]. split.
    { intros t' Hne. now rewrite list_lookup_alter_ne by congruence. }
    repeat split.
Qed.

Lemma stopTask_completes_witness :
  let s := after [Resume 0 Launched; Resume 0 StartOk]
             (manager_of [persisted "task-B" "running" None]) in
  exists ls s2,
    (ls = [StopTask "task-B"]
     \/ ls = [StopTask "task-B"; Resume (length (pending s)) Resolved])
    /\ run ls s = Some s2
    /\ tasks s2 = tasks s
    /\ theap s2 !! 0
       = Some {| data := persisted "task-B" "stopped" None; watcher := None |}.
Proof.
  intros s.
  destruct (stopTask_completes "task-B" s 0 0
              {| data := persisted "task-B" "running" None;
                 watcher := Some 0 |}
              ltac:(vm_compute; reflexivity) ltac:(vm_compute; reflexivity))
    as (ls & s2 & H1 & H2 & H3 & H4 & _).
  exists ls, s2. repeat split; assumption.
Defined.

Lemma post_api_tasks_fields (b : TaskSpec) (now : N) (rnd : string)
    (created : N) (s : State) :
  valid_body b = true ->
  let s1 := post_api_tasks b now rnd created s in
  let task := new_task b now rnd created in
  tasks s1 = tasks s ++ [length (theap s)]
  /\ theap s1 = theap s ++ [set_watcher (Some (length (wheap s))) task]
  /\ wheap s1 = wheap s ++ [starting_watcher]
  /\ pending s1
     = pending s
       ++ [match browser s with
           | Some br =>
               KStart (length (theap s)) (length (wheap s)) FromCreate br
           | None => KLaunch (length (theap s)) (length (wheap s)) FromCreate
           end]
  /\ trace s1
     = trace s
       ++ [Broadcast (EvTaskCreated (safeTaskView task));
           Returned (HttpCreated (task_id now rnd))]
  /\ contexts s1 = contexts s /\ nextCtx s1 = nextCtx s
  /\ monitors s1 = monitors s
  /\ saveTimer s1 = match tasksFile s with
                    | Some _ => true
                    | None => saveTimer s
                    end
  /\ lastSavedJson s1 = lastSavedJson s /\ tasksFile s1 = tasksFile s
  /\ browser s1 = browser s /\ nextBrowser s1 = nextBrowser s.
Proof.
  intros Hv. cbv zeta. unfold valid_body in Hv.
  apply andb_true_iff in Hv as [Hv H3]. apply andb_true_iff in Hv as [H1 H2].
  unfold post_api_tasks. rewrite H1, H2, H3. cbn [negb orb].
  unfold createTask. cbv zeta.
  assert (Hw : watcherOf
                 (_broadcast
                    (EvTaskCreated (safeTaskView (new_task b now rnd created)))
                    (_saveTasksToFile
                       (set_tasks (tasks s ++ [length (theap s)])
                          (set_theap
                             (theap s ++ [new_task b now rnd created]) s))))
                 (length (theap s)) = None).
  { unfold watcherOf. rewrite _saveTasksToFile_nf. fields.
    now rewrite lookup_snoc. }
  unfold _startTaskWatcher. rewrite Hw. unfold start_new_watcher.
  rewrite _saveTasksToFile_nf. fields.
  destruct (browser s) eqn:Eb; fields;
    rewrite !alter_snoc, <- !app_assoc; repeat split; assumption.
Qed.

Lemma start_failed_fields (t w : nat) (on : option nat) (message : string)
    (x : State) (task : Task) :
  theap x !! t = Some task ->
  let x2 := after_start_failed FromCreate t message
              (watcher_start_failed on w x) in
  tasks x2 = tasks x
  /\ theap x2 = alter (on_data (set_status "error")) t (theap x)
  /\ wheap x2
     = alter (fun xw =>
                {| running := false; found := found xw;
                   w_foundHref := w_foundHref xw;
                   page := match on with
                           | Some _ => Some (nextCtx x)
                           | None => page xw
                           end;
                   reloadTimer := reloadTimer xw;
                   rotateTimer := rotateTimer xw |}) w (wheap x)
  /\ contexts x2 = contexts x ++ match on with
                                 | Some _ => [nextCtx x]
                                 | None => []
                                 end
  /\ trace x2 = trace x ++ [Broadcast (EvTaskError (id (data task)) message)]
  /\ monitors x2 = monitors x /\ pending x2 = pending x
  /\ saveTimer x2 = match tasksFile x with
                    | Some _ => true
                    | None => saveTimer x
                    end
  /\ lastSavedJson x2 = lastSavedJson x /\ browser x2 = browser x.
Proof.
  intros Hlook. cbv zeta.
  unfold after_start_failed, watcher_start_failed,
    _createIncognitoPageForTask, idOf.
  destruct on; rewrite _saveTasksToFile_nf; fields;
    rewrite list_lookup_alter_eq, Hlook; cbn [fmap option_fmap option_map];
    fields; rewrite ?app_nil_r; repeat split.
  apply alter_twice. reflexivity.
Qed.

(** X15.  When the start of the watcher of a new task fails, be it the
    launch of the browser, when there is none, or the start on the
    browser there is or on the one just launched, the task stays in the
    registry with status [error], the failure goes out as a [taskError]
    event with its message, and a debounced save is scheduled.  No
    monitor is set up.  The watcher stays attached to the task, marked
    as not running, and the page it may have opened by then stays open:
    nothing closes it until the task is stopped or deleted. *)
Theorem failed_start_is_reported (b : TaskSpec) (now : N) (rnd : string)
    (created : N) (s : State) (attached : bool) (message : string)
    (ls : list Label) :
  valid_body b = true ->
  (ls = [Resume (length (pending s)) (StartFailed attached message)]
   /\ (browser s = None -> attached = false))
  \/ (ls = [Resume (length (pending s)) Launched;
            Resume (length (pending s)) (StartFailed attached message)]
      /\ browser s = None) ->
  let t := length (theap s) in
  let w := length (wheap s) in
  let task := new_task b now rnd created in
  exists s2,
    run (PostTask b now rnd created :: ls) s = Some s2
    /\ tasks s2 = tasks s ++ [t]
    /\ theap s2
       = theap s ++ [{| data := set_status "error" (data task);
                        watcher := Some w |}]
    /\ wheap s2
       = wheap s ++ [{| running := false; found := false;
                        w_foundHref := None;
                        page := if attached then Some (nextCtx s) else None;
                        reloadTimer := false; rotateTimer := false |}]
    /\ contexts s2 = contexts s ++ (if attached then [nextCtx s] else [])
    /\ trace s2
       = trace s
         ++ [Broadcast (EvTaskCreated (safeTaskView task));
             Returned (HttpCreated (task_id now rnd));
             Broadcast (EvTaskError (task_id now rnd) message)]
    /\ monitors s2 = monitors s /\ pending s2 = pending s
    /\ saveTimer s2 = match tasksFile s with
                      | Some _ => true
                      | None => saveTimer s
                      end
    /\ lastSavedJson s2 = lastSavedJson s.
Proof.
  intros Hv Hls. cbv zeta.
  destruct (post_api_tasks_fields b now rnd created s Hv)
    as (P1 & P2 & P3 & P4 & P5 & P6 & P7 & P8 & P9 & P10 & P11 & P12 & P13).
  cbv zeta in *.
  set (s1 := post_api_tasks b now rnd created s) in *.
  set (task := set_watcher (Some (length (wheap s)))
                 (new_task b now rnd created)) in *.
  assert (Hfin : forall (on : option nat) (x : State),
             match on with Some _ => true | None => false end = attached ->
             theap x = theap s1 -> wheap x = wheap s1 ->
             tasks x = tasks s1 -> contexts x = contexts s1 ->
             nextCtx x = nextCtx s1 -> trace x = trace s1 ->
             monitors x = monitors s1 -> pending x = pending s ->
             saveTimer x = saveTimer s1 -> tasksFile x = tasksFile s1 ->
             lastSavedJson x = lastSavedJson s1 ->
             let s2 := after_start_failed FromCreate (length (theap s))
                         message
                         (watcher_start_failed on (length (wheap s)) x) in
             tasks s2 = tasks s ++ [length (theap s)]
             /\ theap s2
                = theap s
                  ++ [{| data := set_status "error"
                                   (data (new_task b now rnd created));
                         watcher := Some (length (wheap s)) |}]
             /\ wheap s2
                = wheap s
                  ++ [{| running := false; found := false;
                         w_foundHref := None;
                         page := if attached then Some (nextCtx s)
                                 else None;
                         reloadTimer := false; rotateTimer := false |}]
             /\ contexts s2
                = contexts s ++ (if attached then [nextCtx s] else [])
             /\ trace s2
                = trace s
                  ++ [Broadcast (EvTaskCreated
                                   (safeTaskView (new_task b now rnd created)));
                      Returned (HttpCreated (task_id now rnd));
                      Broadcast (EvTaskError (task_id now rnd) message)]
             /\ monitors s2 = monitors s /\ pending s2 = pending s
             /\ saveTimer s2 = match tasksFile s with
                               | Some _ => true
                               | None => saveTimer s
                               end
             /\ lastSavedJson s2 = lastSavedJson s).
  { intros on x Hon E1 E2 E3 E4 E5 E6 E7 E8 E9 E10 E11.
    destruct (start_failed_fields (length (theap s)) (length (wheap s))
                on message x task)
      as (F1 & F2 & F3 & F4 & F5 & F6 & F7 & F8 & F9 & _).
    { now rewrite E1, P2, lookup_snoc. }
    cbv zeta in *.
    rewrite F1, F2, F3, F4, F5, F6, F7, F8, F9.
    rewrite E1, E2, E3, E4, E5, E6, E7, E8, E9, E10, E11.
    rewrite P1, P2, P3, P5, P6, P7, P8, P9, P10, P11, !alter_snoc,
      <- !app_assoc.
    subst attached. destruct on; repeat split; now destruct (tasksFile s). }
  destruct Hls as [[-> Hb]|[-> Hb]].
  - cbn [run step]. fold s1. rewrite P4, lookup_snoc, delete_snoc.
    destruct (browser s) as [br|] eqn:Ebr.
    + cbn [resume]. eexists. split; [reflexivity|].
      apply Hfin; try reflexivity. now destruct attached.
    + specialize (Hb eq_refl). subst attached. cbn [resume].
      eexists. split; [reflexivity|]. apply (Hfin None); reflexivity.
  - cbn [run step]. fold s1. rewrite P4, lookup_snoc, delete_snoc, Hb.
    cbn [resume]. unfold browser_launched. fields.
    rewrite lookup_snoc, delete_snoc. cbn [resume].
    eexists. split; [reflexivity|].
    apply Hfin; try reflexivity. now destruct attached.
Qed.

Lemma failed_start_is_reported_witness :
  let task := new_task sample_spec 5 sample_rnd 5 in
  valid_body sample_spec = true /\ browser default_manager = None
  /\ exists s2,
       run [PostTask sample_spec 5 sample_rnd 5; Resume 0 Launched;
            Resume 0 (StartFailed true "net::ERR_TIMED_OUT")] default_manager
       = Some s2
       /\ tasks s2 = [0]
       /\ theap s2
          = [{| data := set_status "error" (data task); watcher := Some 0 |}].
Proof.
  intros task. split; [reflexivity|]. split; [reflexivity|].
  destruct (failed_start_is_reported sample_spec 5 sample_rnd 5
              default_manager true "net::ERR_TIMED_OUT"
              [Resume 0 Launched;
               Resume 0 (StartFailed true "net::ERR_TIMED_OUT")]
              eq_refl (or_intror (conj eq_refl eq_refl)))
    as (s2 & H1 & H2 & H3 & _).
  exists s2. repeat split; assumption.
Defined.

Lemma delete_finish_fields (tid : string) (idx : nat) (s1 : State) :
  let s2 := delete_finish tid idx s1 in
  let X := set_tasks (delete idx (tasks s1)) s1 in
  tasks s2 = delete idx (tasks s1) /\ theap s2 = theap s1
  /\ wheap s2 = wheap s1 /\ pending s2 = pending s1
  /\ saveTimer s2 = saveTimer s1 /\ monitors s2 = monitors s1
  /\ toSave X = toSave s2
  /\ lastSavedJson s2 = saved_after X
  /\ trace s2
     = trace s1 ++ written_now X
       ++ [Broadcast (EvDeleted tid); Returned (DeleteReturned tid true)].
Proof.
  cbv zeta. unfold delete_finish. rewrite _saveTasksToFileImmediate_nf.
  fields. rewrite <- !app_assoc. repeat split.
Qed.

Lemma omap_pointwise {A B} (f g : A -> option B) (l : list A) :
  (forall a, f a = g a) -> omap f l = omap g l.
Proof.
  intros H. induction l as [|a l IH]; [reflexivity|].
  cbn [omap list_omap]. now rewrite H, IH.
Qed.

Lemma omap_delete_total {A B} (f : A -> option B) (l : list A) (i : nat) :
  (forall a, a ∈ l -> is_Some (f a)) ->
  omap f (delete i l) = delete i (omap f l).
Proof.
  revert i. induction l as [|a l IH]; intros i H; [now destruct i|].
  destruct (H a (list_elem_of_here _ _)) as [b Hb].
  destruct i as [|i]; cbn [delete list_delete omap list_omap]; rewrite Hb.
  - reflexivity.
  - cbn [delete list_delete]. f_equal. apply IH. intros a' Ha'. apply H.
    now right.
Qed.

(** X14.  [deleteTask] from the request to its answer, with no other
    request in between.  For an id that no task has the answer is [false]
    and nothing changes.  For a known id the watcher of the task, if it has
    one, is stopped first, the task being still registered meanwhile; then
    the task leaves the registry, the other tasks staying as they are, and
    the snapshot is saved at once, without the timer: the registry without
    the task is written to the tasks file, unless there is no tasks file,
    the write fails or that snapshot was the last one written already;
    with a tasks file and a writable disk it is the snapshot last written
    on return.  Then one [deleted] event goes out and the answer is
    [true]. *)
Theorem deleteTask_completes (tid : string) (s : State) :
  match findTask tid s with
  | None =>
      run [DeleteTask tid] s
      = Some (log (Returned (DeleteReturned tid false)) s)
  | Some (idx, t) =>
      tasks s !! idx = Some t /\ idOf s t = Some tid
      /\ (forall w, watcherOf s t = Some w ->
            tasks (deleteTask tid s) = tasks s
            /\ wheap (deleteTask tid s) = alter stopped_watcher w (wheap s))
      /\ exists ls s2,
           (ls = [DeleteTask tid]
            \/ ls = [DeleteTask tid; Resume (length (pending s)) Resolved])
           /\ run ls s = Some s2
           /\ tasks s2 = delete idx (tasks s)
           /\ watcherOf s2 t = None
           /\ (forall t', data <$> theap s2 !! t' = data <$> theap s !! t')
           /\ ((forall t', t' ∈ tasks s -> is_Some (theap s !! t')) ->
               toSave s2 = delete idx (toSave s))
           /\ pending s2 = pending s
           /\ saveTimer s2 = saveTimer s
           /\ trace s2
              = trace s
                ++ match tasksFile s with
                   | Some path =>
                       if decide (lastSavedJson s = Some (toSave s2)) then []
                       else if diskOk s then [FsWrite path (toSave s2)]
                            else []
                   | None => []
                   end
                ++ [Broadcast (EvDeleted tid);
                    Returned (DeleteReturned tid true)]
           /\ lastSavedJson s2
              = match tasksFile s with
                | Some _ =>
                    if decide (lastSavedJson s = Some (toSave s2))
                    then lastSavedJson s
                    else if diskOk s then Some (toSave s2)
                         else lastSavedJson s
                | None => lastSavedJson s
                end
           /\ (forall path, tasksFile s = Some path -> diskOk s = true ->
                 lastSavedJson s2 = Some (toSave s2))
           /\ broadcasts (trace s2) = broadcasts (trace s) ++ [EvDeleted tid]
           /\ replies (trace s2)
              = replies (trace s) ++ [DeleteReturned tid true]
  end.
Proof.
  pose proof (deleteTask_alone tid s) as H.
  destruct (findTask tid s) as [[idx t]|] eqn:Hfind.
  - destruct H as (H1 & H2 & H). split; [exact H1|]. split; [exact H2|].
    assert (Hfin : forall s1 : State,
               tasks s1 = tasks s -> pending s1 = pending s ->
               saveTimer s1 = saveTimer s -> trace s1 = trace s ->
               tasksFile s1 = tasksFile s -> diskOk s1 = diskOk s ->
               lastSavedJson s1 = lastSavedJson s ->
               (forall t', data <$> theap s1 !! t' = data <$> theap s !! t') ->
               watcherOf s1 t = None ->
               let s2 := delete_finish tid idx s1 in
               tasks s2 = delete idx (tasks s)
               /\ watcherOf s2 t = None
               /\ (forall t', data <$> theap s2 !! t' = data <$> theap s !! t')
               /\ ((forall t', t' ∈ tasks s -> is_Some (theap s !! t')) ->
                   toSave s2 = delete idx (toSave s))
               /\ pending s2 = pending s
               /\ saveTimer s2 = saveTimer s
               /\ trace s2
                  = trace s
                    ++ match tasksFile s with
                       | Some path =>
                           if decide (lastSavedJson s = Some (toSave s2))
                           then []
                           else if diskOk s then [FsWrite path (toSave s2)]
                                else []
                       | None => []
                       end
                    ++ [Broadcast (EvDeleted tid);
                        Returned (DeleteReturned tid true)]
               /\ lastSavedJson s2
                  = match tasksFile s with
                    | Some _ =>
                        if decide (lastSavedJson s = Some (toSave s2))
                        then lastSavedJson s
                        else if diskOk s then Some (toSave s2)
                             else lastSavedJson s
                    | None => lastSavedJson s
                    end
               /\ (forall path, tasksFile s = Some path -> diskOk s = true ->
                     lastSavedJson s2 = Some (toSave s2))
               /\ broadcasts (trace s2)
                  = broadcasts (trace s) ++ [EvDeleted tid]
               /\ replies (trace s2)
                  = replies (trace s) ++ [DeleteReturned tid true]).
    { intros s1 E1 E2 E3 E4 E5 E6 E7 E8 E9.
      destruct (delete_finish_fields tid idx s1)
        as (F1 & F2 & _ & F4 & F5 & _ & F7 & F8 & F9).
      cbv zeta in *.
      set (s2 := delete_finish tid idx s1) in *.
      set (X := set_tasks (delete idx (tasks s1)) s1) in *.
      assert (Hw : written_now X
                   = match tasksFile s with
                     | Some path =>
                         if decide (lastSavedJson s = Some (toSave s2))
                         then []
                         else if diskOk s then [FsWrite path (toSave s2)]
                              else []
                     | None => []
                     end).
      { unfold written_now. rewrite F7.
        change (tasksFile X) with (tasksFile s1).
        change (lastSavedJson X) with (lastSavedJson s1).
        change (diskOk X) with (diskOk s1). now rewrite E5, E6, E7. }
      assert (Hs : saved_after X
                   = match tasksFile s with
                     | Some _ =>
                         if decide (lastSavedJson s = Some (toSave s2))
                         then lastSavedJson s
                         else if diskOk s then Some (toSave s2)
                              else lastSavedJson s
                     | None => lastSavedJson s
                     end).
      { unfold saved_after. rewrite F7.
        change (tasksFile X) with (tasksFile s1).
        change (lastSavedJson X) with (lastSavedJson s1).
        change (diskOk X) with (diskOk s1). now rewrite E5, E6, E7. }
      assert (Htr : trace s2
                    = trace s ++ written_now X
                      ++ [Broadcast (EvDeleted tid);
                          Returned (DeleteReturned tid true)])
        by (now rewrite F9, E4).
      split; [now rewrite F1, E1|].
      split; [unfold watcherOf in *; now rewrite F2|].
      split; [intros t'; now rewrite F2|].
      split.
      { intros Hall. unfold toSave. rewrite F1, E1, F2.
        assert (Hd : forall t',
                   match theap s1 !! t' with
                   | Some task => Some (data task)
                   | None => None
                   end
                   = match theap s !! t' with
                     | Some task => Some (data task)
                     | None => None
                     end).
        { intros t'. specialize (E8 t').
          destruct (theap s1 !! t'), (theap s !! t'); simpl in E8;
            congruence. }
        rewrite (omap_pointwise _ _ _ Hd).
        apply omap_delete_total. intros t' Ht'.
        destruct (Hall t' Ht') as [task ->]. eauto. }
      split; [now rewrite F4, E2|]. split; [now rewrite F5, E3|].
      split; [now rewrite Htr, Hw|]. split; [now rewrite F8, Hs|].
      split.
      { intros path Hp Hd. rewrite F8, Hs, Hp, Hd.
        destruct (decide _) as [e|n]; [exact e|reflexivity]. }
      rewrite Htr, !broadcasts_app, !replies_app, written_now_broadcasts,
        written_now_replies. split; reflexivity. }
    destruct (watcherOf s t) as [w|] eqn:Hw.
    + cbv zeta in H.
      destruct H as (E1 & E2 & E3 & E4 & E5 & _).
      split; [intros w' [= <-]; now split|].
      exists [DeleteTask tid; Resume (length (pending s)) Resolved].
      eexists. split; [now right|]. split.
      { cbn [run step]. rewrite E5, lookup_snoc, delete_snoc.
        cbn [resume]. reflexivity. }
      unfold deleteTask. rewrite Hfind, Hw, watcher_stop_nf.
      apply Hfin; try reflexivity.
      * intros t'. fields. destruct (decide (t' = t)) as [->|Hne].
        -- rewrite list_lookup_alter_eq. now destruct (theap s !! t).
        -- now rewrite list_lookup_alter_ne by congruence.
      * unfold watcherOf. fields. rewrite list_lookup_alter_eq.
        now destruct (theap s !! t).
    + split; [intros w' [=]|].
      exists [DeleteTask tid], (deleteTask tid s).
      split; [now left|]. split; [reflexivity|].
      unfold deleteTask. rewrite Hfind, Hw.
      apply Hfin; try reflexivity. exact Hw.
  - destruct H as [_ E]. cbn [run step]. now rewrite E.
Qed.

(** ** server/storage.js: the debounced, atomic write *)

Lemma last_cons_default {A} (x d : A) (l : list A) :
  List.last (x :: l) d = List.last l x.
Proof.
  revert x d. induction l as [|y l IH]; intros x d; [reflexivity|].
  change (List.last (y :: l) d = List.last (y :: l) x). now rewrite !IH.
Qed.

Lemma storage_writes (data : list TaskData) (more : list (list TaskData))
    (st : Storage.St) :
  foldl (fun st x => Storage.write x st) st (data :: more)
  = {| Storage.cache := Some (List.last more data); Storage.timer := true |}.
Proof.
  revert data st. induction more as [|x more IH]; intros data st;
    [reflexivity|].
  change (foldl _ st (data :: x :: more))
    with (foldl (fun st x => Storage.write x st) (Storage.write data st)
                (x :: more)).
  rewrite IH. now rewrite (last_cons_default x data).
Qed.

(** X16.  Any number of [write] calls before the timer fires end in one
    flush, of the data written last; the timer is then spent.  The flush
    leaves [tasks.json] holding exactly that data and no temporary file,
    and wherever the process dies on the way, [tasks.json] holds either
    what it held before or the new data whole. *)
Theorem storage_last_write_wins (data : list TaskData)
    (more : list (list TaskData)) (st : Storage.St) (disk : Fs.Disk) :
  let final := List.last more data in
  exists st' ops,
    Storage.timerFires (foldl (fun st x => Storage.write x st) st
                              (data :: more)) = Some (st', ops)
    /\ ops = Storage.flush_ops final
    /\ Storage.cache st' = Some final
    /\ Storage.timerFires st' = None
    /\ foldl (fun d op => Fs.apply op d) disk ops Storage.FILE
       = Some (Fs.Whole final)
    /\ foldl (fun d op => Fs.apply op d) disk ops
         (String.append Storage.FILE ".tmp")
       = None
    /\ Forall (fun d => d Storage.FILE = disk Storage.FILE
                        \/ d Storage.FILE = Some (Fs.Whole final))
              (Fs.crashes ops disk).
Proof.
  cbv zeta. rewrite storage_writes.
  eexists. eexists. split; [reflexivity|].
  repeat split.
  repeat constructor; now right.
Qed.

(** ** Subscribing and unsubscribing *)

Lemma calls_log (safe : Broadcaster.Val)
    (clients : list (nat * Broadcaster.Subscriber)) (h : list Broadcaster.Node)
    (log : list (nat * Broadcaster.Val)) :
  snd (foldl (Broadcaster.call safe) (h, log) clients)
  = log ++ map (fun c => (fst c, safe)) clients.
Proof.
  revert h log. induction clients as [|c clients IH]; intros h log;
    cbn [foldl map]; [now rewrite app_nil_r|].
  unfold Broadcaster.call at 2. destruct (snd c h safe) as [assigns thrown].
  rewrite IH, <- app_assoc. reflexivity.
Qed.

Lemma calls_to (cid : nat) (safe : Broadcaster.Val)
    (l : list (nat * Broadcaster.Subscriber)) :
  length (List.filter (fun d => Nat.eqb (fst d) cid)
            (map (fun c => (fst c, safe)) l))
  = length (List.filter (fun c => Nat.eqb (fst c) cid) l).
Proof.
  induction l as [|c l IH]; [reflexivity|].
  cbn [map List.filter fst]. destruct (Nat.eqb (fst c) cid); simpl;
    now rewrite IH.
Qed.

Lemma deliveries_count (cid : nat) (obj : Broadcaster.Val)
    (st : Broadcaster.State) :
  deliveries_to cid obj st
  = length (List.filter (fun c => Nat.eqb (fst c) cid)
                        (Broadcaster.sseClients st)).
Proof.
  unfold deliveries_to, Broadcaster._broadcast.
  destruct (Broadcaster.parse _ _) as [h1 safe].
  pose proof (calls_log safe (Broadcaster.sseClients st) h1
                (Broadcaster.delivered st)) as Hlog.
  destruct (foldl _ _ _) as [h2 log]. cbn [snd Broadcaster.delivered] in *.
  rewrite Hlog, drop_app_length. apply calls_to.
Qed.

Lemma filter_absent (cid : nat) (l : list (nat * Broadcaster.Subscriber)) :
  cid ∉ map fst l ->
  List.filter (fun c => Nat.eqb (fst c) cid) l = []
  /\ List.filter (fun c => negb (Nat.eqb (fst c) cid)) l = l.
Proof.
  induction l as [|c l IH]; intros Hn; [now split|].
  simpl in Hn. apply not_elem_of_cons in Hn as [Hne Hn].
  destruct (IH Hn) as [E1 E2]. simpl.
  destruct (Nat.eqb_spec (fst c) cid) as [E|_]; [congruence|].
  simpl. now rewrite E1, E2.
Qed.

(** X17.  The subscribers form a set: a function subscribed twice is called
    once per event, and not at all once it has been unsubscribed, however
    often it had been added; subscribing and then unsubscribing a new
    function leaves the manager as it was; and unsubscribing one function
    changes nothing for the others. *)
Theorem subscription_is_a_set (cid : nat) (sendFn : Broadcaster.Subscriber)
    (obj : Broadcaster.Val) (st : Broadcaster.State) :
  NoDup (map fst (Broadcaster.sseClients st)) ->
  let st1 := Broadcaster.addSseClient cid sendFn st in
  NoDup (map fst (Broadcaster.sseClients st1))
  /\ Broadcaster.addSseClient cid sendFn st1 = st1
  /\ deliveries_to cid obj st1 = 1
  /\ deliveries_to cid obj (Broadcaster.unsubscribe cid st1) = 0
  /\ (cid ∉ map fst (Broadcaster.sseClients st) ->
      Broadcaster.unsubscribe cid st1 = st)
  /\ forall other, other <> cid ->
       deliveries_to other obj (Broadcaster.unsubscribe cid st)
       = deliveries_to other obj st
       /\ deliveries_to other obj st1 = deliveries_to other obj st.
Proof.
  intros Hnd. cbv zeta.
  assert (Hun : forall l : list (nat * Broadcaster.Subscriber),
             length (List.filter (fun c => Nat.eqb (fst c) cid)
                       (List.filter (fun c => negb (Nat.eqb (fst c) cid)) l))
             = 0).
  { induction l as [|c l IH]; [reflexivity|].
    simpl. destruct (Nat.eqb (fst c) cid) eqn:E; simpl;
      [assumption|]. now rewrite E. }
  assert (Hoth : forall other (l : list (nat * Broadcaster.Subscriber)),
             other <> cid ->
             length (List.filter (fun c => Nat.eqb (fst c) other)
                       (List.filter (fun c => negb (Nat.eqb (fst c) cid)) l))
             = length (List.filter (fun c => Nat.eqb (fst c) other) l)).
  { intros other l Hne. induction l as [|c l IH]; [reflexivity|].
    simpl. destruct (Nat.eqb_spec (fst c) cid) as [E|Hn]; simpl.
    - destruct (Nat.eqb_spec (fst c) other); [congruence|apply IH].
    - destruct (Nat.eqb (fst c) other); simpl; now rewrite IH. }
  assert (Hone : forall l : list (nat * Broadcaster.Subscriber),
             NoDup (map fst l) -> cid ∈ map fst l ->
             length (List.filter (fun c => Nat.eqb (fst c) cid) l) = 1).
  { induction l as [|c l IH]; intros Hd Hin; [inversion Hin|].
    simpl in *. apply NoDup_cons in Hd as [Hc Hd].
    destruct (Nat.eqb_spec (fst c) cid) as [E|Hne].
    - subst cid. simpl. f_equal.
      now rewrite (proj1 (filter_absent (fst c) l Hc)).
    - apply elem_of_cons in Hin as [E|Hin]; [congruence|]. now apply IH. }
  assert (Hnd1 : NoDup (map fst (Broadcaster.sseClients
                                   (Broadcaster.addSseClient cid sendFn st)))
                 /\ cid ∈ map fst (Broadcaster.sseClients
                                     (Broadcaster.addSseClient cid sendFn st))).
  { unfold Broadcaster.addSseClient.
    destruct (decide (cid ∈ map fst (Broadcaster.sseClients st)))
      as [Hin|Hnin].
    - rewrite (bool_decide_eq_true_2 _ Hin). now split.
    - rewrite (bool_decide_eq_false_2 _ Hnin). cbn [Broadcaster.sseClients].
      rewrite map_app. cbn [map fst]. split.
      + apply NoDup_app. split; [assumption|].
        split; [|apply NoDup_singleton].
        intros x Hx Hx'. apply list_elem_of_singleton in Hx'. now subst.
      + apply elem_of_app; right; apply list_elem_of_here. }
  destruct Hnd1 as [Hnd1 Hin1].
  split; [exact Hnd1|]. split; [|split; [|split; [|split]]].
  - unfold Broadcaster.addSseClient at 1.
    now rewrite (bool_decide_eq_true_2 _ Hin1).
  - rewrite deliveries_count. now apply Hone.
  - rewrite deliveries_count. unfold Broadcaster.unsubscribe.
    cbn [Broadcaster.sseClients]. apply Hun.
  - intros Hnin. unfold Broadcaster.addSseClient, Broadcaster.unsubscribe.
    rewrite (bool_decide_eq_false_2 _ Hnin).
    cbn [Broadcaster.sseClients Broadcaster.heap Broadcaster.delivered].
    destruct (filter_absent cid _ Hnin) as [_ E2].
    rewrite List.filter_app, E2. simpl. rewrite Nat.eqb_refl. simpl.
    rewrite app_nil_r. now destruct st.
  - intros other Hne. rewrite !deliveries_count. split.
    + unfold Broadcaster.unsubscribe. cbn [Broadcaster.sseClients].
      now apply Hoth.
    + unfold Broadcaster.addSseClient.
      destruct (bool_decide _); [reflexivity|].
      cbn [Broadcaster.sseClients]. rewrite List.filter_app. simpl.
      destruct (Nat.eqb_spec cid other); [congruence|]. simpl.
      now rewrite app_nil_r.
Qed.

Lemma subscription_is_a_set_witness :
  let st := Broadcaster.mkState [] [] [] in
  let f : Broadcaster.Subscriber := fun _ _ => ([], true) in
  deliveries_to 7 Broadcaster.VNull (Broadcaster.addSseClient 7 f st) = 1
  /\ deliveries_to 7 Broadcaster.VNull
       (Broadcaster.unsubscribe 7 (Broadcaster.addSseClient 7 f st)) = 0.
Proof.
  intros st f.
  exact (let H := subscription_is_a_set 7 f Broadcaster.VNull st
                    ltac:(constructor) in
         conj (proj1 (proj2 (proj2 H))) (proj1 (proj2 (proj2 (proj2 H))))).
Defined.

(** ** The life of a monitor *)

(** X6.  A monitor is set up when a start of a watcher resolves, for the
    task started, and it is cancelled by its own tick and by nothing else:
    stopping or deleting the task, a reload and a shutdown all leave the
    monitors as they are. *)
Theorem monitors_lifecycle (l : Label) (s s' : State) :
  step l s = Some s' ->
  match l with
  | MonitorTick m =>
      monitors s' = monitors s
      \/ monitors s' = filter (fun p => fst p ≠ m) (monitors s)
  | Resume i StartOk =>
      exists t w c b,
        pending s !! i = Some (KStart t w c b)
        /\ monitors s' = monitors s ++ [(nextMonitor s, t)]
  | _ => monitors s' = monitors s
  end.
Proof.
  intros H.
  assert (Hc : core s' = core s -> monitors s' = monitors s).
  { intros E. unfold core in E. now inversion E. }
  destruct l; cbn [step] in *.
  - inversion H; subst.
    pose proof (core_post_api_tasks body now rnd created s) as E.
    unfold core at 1 in E. now inversion E.
  - inversion H; subst. apply Hc, core_stopTask.
  - inversion H; subst. apply Hc, core_deleteTask.
  - inversion H; subst. apply Hc, core_reloadTask.
  - inversion H; subst. apply Hc. unfold shutdown.
    now autorewrite with core_db.
  - apply Hc. eapply core_saveTimerFires; eassumption.
  - now apply core_monitorTick in H as [_ E].
  - apply Hc. eapply core_detectorFound; eassumption.
  - destruct (pending s !! i) as [k|] eqn:Hk; [|destruct o; discriminate].
    pose proof (core_resume _ _ _ _ H) as E.
    destruct k, o; cbn [resume] in H; try discriminate;
      try (apply Hc; rewrite E; reflexivity).
    + exists t, w, c, b. split; [reflexivity|].
      unfold core at 1 in E. now inversion E.
    + now destruct E.
  - inversion H; subst. reflexivity.
Qed.

Lemma monitors_lifecycle_witness :
  let s := after [Resume 0 Launched; Resume 0 StartOk]
             (manager_of [persisted "task-B" "running" None]) in
  monitors (deleteTask "task-B" s) = monitors s.
Proof.
  intros s.
  exact (monitors_lifecycle (DeleteTask "task-B") s (deleteTask "task-B" s)
           eq_refl).
Defined.
